(** * Tab Snab: the capture-and-stream pipeline of options.js

    A shallow embedding of the audio-to-transcript core of the extension:
    [resampleTo16kHZ], the 16-bit encoding step of [recorder.onaudioprocess],
    the transcript reconciler in [socket.onmessage], [startRecord],
    [stopRecording], [updateTranscriptionUI] and [downloadTranscription],
    with the runtime listener that drives them, and of the popup of
    popup.js with its two buttons.

    JavaScript Numbers are IEEE-754 binary64 values, modelled by Rocq's
    primitive floats; a [Float32Array] cell holds a binary64 value that went
    through [fround].  JavaScript strings are sequences of UTF-16 code units.
    The browser is modelled by a [world] record that the handlers transform,
    with a log of the platform calls they make. *)

From Stdlib Require Import ZArith Bool String Ascii List Lia Floats.
Import ListNotations.

(* ================================================================= *)
(** ** JavaScript Numbers *)

Open Scope float_scope.

(** The Number holding the integer [z] (exact below 2^53). *)
Definition Z2F (z : Z) : float :=
  SF2Prim (binary_normalize prec emax z 0 false).

(** The signed integer mantissa of a finite float. *)
Definition SF_mant (s : bool) (m : positive) : Z := cond_Zopp s (Zpos m).

(** Largest integer not above [m * 2^e]. *)
Definition floor_me (v e : Z) : Z :=
  if (0 <=? e)%Z then (v * 2 ^ e)%Z else (v / 2 ^ (- e))%Z.

(** Smallest integer not below [m * 2^e]. *)
Definition ceil_me (v e : Z) : Z := (- floor_me (- v) e)%Z.

(** [m * 2^e] with its fraction dropped (rounding toward zero). *)
Definition trunc_me (v e : Z) : Z :=
  if (0 <=? e)%Z then (v * 2 ^ e)%Z else Z.quot v (2 ^ (- e)).

(** Nearest integer to [m * 2^e], a tie going toward plus infinity. *)
Definition round_me (v e : Z) : Z :=
  if (0 <=? e)%Z then (v * 2 ^ e)%Z
  else ((v + 2 ^ (- e - 1)) / 2 ^ (- e))%Z.

(** An integer result as a Number: a zero keeps the sign of the argument
    when [neg_zero_when] holds (as [Math.ceil] and [Math.round] do for
    arguments in (-1, 0) and [-0.5, 0)). *)
Definition int_result (neg_zero_when : bool) (z : Z) : float :=
  if (z =? 0)%Z then (if neg_zero_when then neg_zero else zero) else Z2F z.

(** [Math.floor]. *)
Definition Math_floor (x : float) : float :=
  match Prim2SF x with
  | S754_finite s m e =>
      if (0 <=? e)%Z then x else int_result false (floor_me (SF_mant s m) e)
  | _ => x
  end.

(** [Math.ceil]. *)
Definition Math_ceil (x : float) : float :=
  match Prim2SF x with
  | S754_finite s m e =>
      if (0 <=? e)%Z then x else int_result s (ceil_me (SF_mant s m) e)
  | _ => x
  end.

(** [Math.round]. *)
Definition Math_round (x : float) : float :=
  match Prim2SF x with
  | S754_finite s m e =>
      if (0 <=? e)%Z then x else int_result s (round_me (SF_mant s m) e)
  | _ => x
  end.

(** [Math.min] and [Math.max] of two Numbers: NaN when either is NaN, and
    -0 counts as smaller than +0. *)
Definition Math_min (a b : float) : float :=
  if is_nan a || is_nan b then nan
  else if a <? b then a
  else if b <? a then b
  else if get_sign a then a else b.

Definition Math_max (a b : float) : float :=
  if is_nan a || is_nan b then nan
  else if a <? b then b
  else if b <? a then a
  else if get_sign a then b else a.

(** [Math.fround]: the nearest binary32 value, kept as a binary64. *)
Definition fround (x : float) : float :=
  match Prim2SF x with
  | S754_finite s m e => SF2Prim (binary_round 24 128 s m e)
  | _ => x
  end.

(** A Number that a [Float32Array] cell can hold unchanged. *)
Definition is_float32 (x : float) : Prop := fround x = x.

(** ToIntegerOrInfinity on a finite or NaN Number; [None] for an infinity. *)
Definition ToInteger (x : float) : option Z :=
  match Prim2SF x with
  | S754_nan => Some 0%Z
  | S754_zero _ => Some 0%Z
  | S754_infinity _ => None
  | S754_finite s m e => Some (trunc_me (SF_mant s m) e)
  end.

(** ToIndex, the length check of [new Float32Array(len)] and
    [new Int16Array(len)]: [None] stands for the RangeError. *)
Definition ToIndex (x : float) : option Z :=
  match ToInteger x with
  | Some z => if ((z <? 0) || (2 ^ 53 - 1 <? z))%Z then None else Some z
  | None => None
  end.

(** ToInt16, the conversion of a store into an [Int16Array]. *)
Definition ToInt16 (x : float) : Z :=
  match ToInteger x with
  | Some z =>
      let k := (z mod 2 ^ 16)%Z in
      if (2 ^ 15 <=? k)%Z then (k - 2 ^ 16)%Z else k
  | None => 0%Z
  end.

(* ================================================================= *)
(** ** Typed arrays *)

Inductive error : Type :=
| RangeError
| TypeError
| SyntaxError.

Inductive result (A : Type) : Type :=
| Return (a : A)
| Throw (e : error).
Arguments Return {A} a.
Arguments Throw {A} e.

(** [new Float32Array(len)]: [len] zeros. *)
Definition new_Float32Array (len : float) : option (list float) :=
  match ToIndex len with
  | Some n => Some (repeat zero (Z.to_nat n))
  | None => None
  end.

(** [new Float32Array(audioData)] for an array or typed array argument. *)
Definition Float32Array_from (audioData : list float) : list float :=
  map fround audioData.

(** [a[i]] in a numeric context: an index outside the array reads
    [undefined], which every use below converts to NaN. *)
Definition ta_get (a : list float) (i : Z) : float :=
  if ((0 <=? i) && (i <? Z.of_nat (length a)))%Z
  then nth (Z.to_nat i) a nan else nan.

Fixpoint replace_nth {A : Type} (n : nat) (l : list A) (v : A) : list A :=
  match l, n with
  | [], _ => []
  | _ :: t, O => v :: t
  | h :: t, S k => h :: replace_nth k t v
  end.

(** [a[i] = v] on a [Float32Array]: a store outside the array is dropped. *)
Definition f32_set (a : list float) (i : Z) (v : float) : list float :=
  if ((0 <=? i) && (i <? Z.of_nat (length a)))%Z
  then replace_nth (Z.to_nat i) a (fround v) else a.

(** [x.toFixed()] prints the integer nearest to [x] (a tie going away from
    zero) in decimal digits.  Here [x] is always a result of [Math.floor] or
    [Math.ceil].  [toFixed_number] is the Number that string converts back
    to in [index - leftIndex]: the digits of an integral [x] give [x] again,
    except that -0 prints as "0". *)
Definition toFixed_number (x : float) : float :=
  if x =? 0 then zero else x.

(** The array index denoted by the property key [x.toFixed()]; [None] for
    the keys "NaN", "Infinity" and "-Infinity", which name no element. *)
Definition toFixed_index (x : float) : option Z :=
  match Prim2SF x with
  | S754_zero _ => Some 0%Z
  | S754_finite s m e => Some (cond_Zopp s (round_me (Zpos m) e))
  | _ => None
  end.

Definition ta_get_key (a : list float) (key : float) : float :=
  match toFixed_index key with
  | Some i => ta_get a i
  | None => nan
  end.

(* ================================================================= *)
(** ** resampleTo16kHZ *)

(** The integers [lo, lo+1, ..., lo+len-1]. *)
Definition Zseq (lo : Z) (len : nat) : list Z :=
  map (fun k => (lo + Z.of_nat k)%Z) (seq 0 len).

Definition targetLength_of (data : list float) (origSampleRate : float)
  : float :=
  Math_round (Z2F (Z.of_nat (length data)) * (16000 / origSampleRate)).

Definition springFactor_of (data : list float) (targetLength : float)
  : float :=
  (Z2F (Z.of_nat (length data)) - 1) / (targetLength - 1).

(** The value stored at position [i] by the loop body. *)
Definition interpolate (data : list float) (springFactor : float) (i : Z)
  : float :=
  let index := Z2F i * springFactor in
  let leftIndex := Math_floor index in
  let rightIndex := Math_ceil index in
  let fraction := index - toFixed_number leftIndex in
  ta_get_key data leftIndex
  + (ta_get_key data rightIndex - ta_get_key data leftIndex) * fraction.

(** [origSampleRate] is [None] when the caller leaves it out (default
    44100).  [targetLength - 1] as an index and as the loop bound is the
    integer one below the length of [resampledData]. *)
Definition resampleTo16kHZ (audioData : list float)
  (origSampleRate : option float) : result (list float) :=
  let orig := match origSampleRate with Some r => r | None => 44100 end in
  let data := Float32Array_from audioData in
  let targetLength := targetLength_of data orig in
  match new_Float32Array targetLength with
  | None => Throw RangeError
  | Some resampledData =>
      let n := Z.of_nat (length resampledData) in
      let springFactor := springFactor_of data targetLength in
      let r0 := f32_set resampledData 0 (ta_get data 0) in
      let r1 := f32_set r0 (n - 1)
                  (ta_get data (Z.of_nat (length data) - 1)) in
      Return
        (fold_left
           (fun r i => f32_set r i (interpolate data springFactor i))
           (Zseq 1 (Z.to_nat (n - 2))) r1)
  end.

(* ================================================================= *)
(** ** The encoding step of recorder.onaudioprocess *)

Definition encode_sample (x : float) : Z :=
  let s := Math_max (-1) (Math_min 1 x) in
  ToInt16 (if s <? 0 then s * 32768 else s * 32767).

Definition encode_frame (audioData16kHz : list float) : list Z :=
  map encode_sample audioData16kHz.

Close Scope float_scope.

(* ================================================================= *)
(** ** JavaScript strings *)

(** A string is its sequence of UTF-16 code units. *)
Definition jsstring : Type := list N.

(** A literal of the source, written in ASCII. *)
Definition js (s : string) : jsstring :=
  map N_of_ascii (list_ascii_of_string s).

Fixpoint jseqb (a b : jsstring) : bool :=
  match a, b with
  | [], [] => true
  | x :: a', y :: b' => (x =? y)%N && jseqb a' b'
  | _, _ => false
  end.

(** The code units matched by [\s] and removed by [trim]: WhiteSpace and
    LineTerminator of ECMAScript. *)
Definition is_ws (c : N) : bool :=
  ((9 <=? c) && (c <=? 13) || (c =? 32) || (c =? 160) || (c =? 5760)
   || (8192 <=? c) && (c <=? 8202) || (c =? 8232) || (c =? 8233)
   || (c =? 8239) || (c =? 8287) || (c =? 12288) || (c =? 65279))%N.

Definition SPACE : N := 32%N.

(** [s.replace(/\s+/g, ' ')]: scanning left to right, each maximal run of
    white space is matched once and replaced by one space.  [in_run] tells
    that the previous code unit was part of the run being replaced. *)
Fixpoint replace_ws_from (in_run : bool) (s : jsstring) : jsstring :=
  match s with
  | [] => []
  | c :: r =>
      if is_ws c
      then (if in_run then replace_ws_from true r
            else SPACE :: replace_ws_from true r)
      else c :: replace_ws_from false r
  end.

Definition replace_ws (s : jsstring) : jsstring := replace_ws_from false s.

Fixpoint trimStart (s : jsstring) : jsstring :=
  match s with
  | [] => []
  | c :: r => if is_ws c then trimStart r else s
  end.

Fixpoint trimEnd (s : jsstring) : jsstring :=
  match s with
  | [] => []
  | c :: r =>
      match trimEnd r with
      | [] => if is_ws c then [] else [c]
      | r' => c :: r'
      end
  end.

(** [s.trim()]. *)
Definition trim (s : jsstring) : jsstring := trimEnd (trimStart s).

(** [a.join(sep)] on an array of strings. *)
Fixpoint join (sep : jsstring) (a : list jsstring) : jsstring :=
  match a with
  | [] => []
  | [x] => x
  | x :: r => x ++ sep ++ join sep r
  end.

(** [s.replace(/[:.]/g, '-')]. *)
Definition replace_colon_dot (s : jsstring) : jsstring :=
  map (fun c => if ((c =? 58) || (c =? 46))%N then 45%N else c) s.

(** The expression shown for a partial event:
    [(completeTranscript + ' ' + currentPartial).replace(/\s+/g, ' ').trim()]. *)
Definition displayed (completeTranscript currentPartial : jsstring)
  : jsstring :=
  trim (replace_ws (completeTranscript ++ js " " ++ currentPartial)).

(* ================================================================= *)
(** ** The browser and the page *)

(** The captured stream, with the tracks [getTracks()] returns. *)
Record MediaStream : Type := {
  stream_id : nat;
  stream_tracks : list nat
}.

(** The platform calls the code makes, in the log of the [world].  A new
    object is named by a fresh number; the URL given to [new WebSocket] and
    the options of [chrome.tabCapture.capture] are constants of the source
    and are left out. *)
Inductive effect : Type :=
| TabCaptureCapture
| NewWebSocket (socket : nat)
| ConsoleLog (text : jsstring)
| AppendCloseButton
| NewAudioContext (context : nat)
| CreateMediaStreamSource (context mediaStream : nat) (stream : MediaStream)
| CreateScriptProcessor (context recorder : nat) (bufferSize : Z)
| SetOnAudioProcess (recorder : nat)
| ConnectRecorder (mediaStream recorder : nat)
| ConnectDestination (node context : nat)
| SocketSend (socket : nat) (buffer : list Z)
| SocketClose (socket : nat)
| RecorderDisconnect (recorder : nat)
| MediaStreamDisconnect (mediaStream : nat)
| TrackStop (track : nat)
| ContextClose (context : nat)
| StorageGet
| StorageSet (text : jsstring)
| CreateContainer
| DownloadsDownload (blob_text blob_type filename : jsstring) (saveAs : bool)
| SendResponse (status : jsstring)
| WindowClose.

(** [window.recordingSession]: each member is an object or [null]. *)
Record Session : Type := {
  rs_stream : option MediaStream;
  rs_socket : option nat;
  rs_recorder : option nat;
  rs_context : option nat;
  rs_mediaStream : option nat
}.

(** The variables one run of [startRecord] leaves to its callbacks
    [socket.onopen], [socket.onmessage] and [recorder.onaudioprocess];
    [cl_sampleRate] is [context.sampleRate]. *)
Record Closure : Type := {
  cl_socket : nat;
  cl_context : option nat;
  cl_sampleRate : float;
  isServerReady : bool;
  completeTranscript : jsstring;
  currentPartial : jsstring;
  audioDataCache : list (list float)
}.

Record world : Type := {
  recordingSession : option Session;
  closures : list Closure;
  pending_captures : nat;
  pending_gets : list (option jsstring);
  currentTranscription : option jsstring;
  transcription_container : option jsstring;
  next_handle : nat;
  log : list effect
}.

(** The page when the script is loaded; [container] tells whether the
    document has an element with id [transcription-container] (the HTML of
    the page is not part of the sources), [stored] is what
    [chrome.storage.local] holds under [currentTranscription]. *)
Definition initial_world (container stored : option jsstring) : world :=
  {| recordingSession := None;
     closures := [];
     pending_captures := 0;
     pending_gets := [];
     currentTranscription := stored;
     transcription_container := container;
     next_handle := 0;
     log := [] |}.

(** A decoded inbound message: [type] and, when present, the [value]s of
    [elements]. *)
Record message : Type := {
  msg_type : jsstring;
  msg_elements : option (list jsstring)
}.

(* ----------------------------------------------------------------- *)
(** *** A state monad with exceptions

    A handler changes the world and either returns or throws; what it
    changed before throwing stays changed. *)

Definition M (A : Type) : Type := world -> world * result A.

Definition ret {A : Type} (a : A) : M A := fun w => (w, Return a).

Definition throw {A : Type} (e : error) : M A := fun w => (w, Throw e).

Definition bind {A B : Type} (m : M A) (f : A -> M B) : M B :=
  fun w =>
    match m w with
    | (w', Return a) => f a w'
    | (w', Throw e) => (w', Throw e)
    end.

Declare Scope js_scope.
Delimit Scope js_scope with js.
Notation "x <- m ;; k" := (bind m (fun x => k))
  (at level 61, m at next level, right associativity) : js_scope.
Notation "m ;; k" := (bind m (fun _ => k))
  (at level 61, right associativity) : js_scope.
Open Scope js_scope.

Definition gets {A : Type} (f : world -> A) : M A :=
  fun w => (w, Return (f w)).

Definition modify (f : world -> world) : M unit :=
  fun w => (f w, Return tt).

Definition lift {A : Type} (r : result A) : M A := fun w => (w, r).

Definition set_recordingSession (v : option Session) (w : world) : world :=
  {| recordingSession := v; closures := closures w;
     pending_captures := pending_captures w; pending_gets := pending_gets w;
     currentTranscription := currentTranscription w;
     transcription_container := transcription_container w;
     next_handle := next_handle w; log := log w |}.

Definition set_closures (v : list Closure) (w : world) : world :=
  {| recordingSession := recordingSession w; closures := v;
     pending_captures := pending_captures w; pending_gets := pending_gets w;
     currentTranscription := currentTranscription w;
     transcription_container := transcription_container w;
     next_handle := next_handle w; log := log w |}.

Definition set_pending_captures (v : nat) (w : world) : world :=
  {| recordingSession := recordingSession w; closures := closures w;
     pending_captures := v; pending_gets := pending_gets w;
     currentTranscription := currentTranscription w;
     transcription_container := transcription_container w;
     next_handle := next_handle w; log := log w |}.

Definition set_pending_gets (v : list (option jsstring)) (w : world)
  : world :=
  {| recordingSession := recordingSession w; closures := closures w;
     pending_captures := pending_captures w; pending_gets := v;
     currentTranscription := currentTranscription w;
     transcription_container := transcription_container w;
     next_handle := next_handle w; log := log w |}.

Definition set_currentTranscription (v : option jsstring) (w : world)
  : world :=
  {| recordingSession := recordingSession w; closures := closures w;
     pending_captures := pending_captures w; pending_gets := pending_gets w;
     currentTranscription := v;
     transcription_container := transcription_container w;
     next_handle := next_handle w; log := log w |}.

Definition set_transcription_container (v : option jsstring) (w : world)
  : world :=
  {| recordingSession := recordingSession w; closures := closures w;
     pending_captures := pending_captures w; pending_gets := pending_gets w;
     currentTranscription := currentTranscription w;
     transcription_container := v;
     next_handle := next_handle w; log := log w |}.

Definition set_next_handle (v : nat) (w : world) : world :=
  {| recordingSession := recordingSession w; closures := closures w;
     pending_captures := pending_captures w; pending_gets := pending_gets w;
     currentTranscription := currentTranscription w;
     transcription_container := transcription_container w;
     next_handle := v; log := log w |}.

Definition set_log (v : list effect) (w : world) : world :=
  {| recordingSession := recordingSession w; closures := closures w;
     pending_captures := pending_captures w; pending_gets := pending_gets w;
     currentTranscription := currentTranscription w;
     transcription_container := transcription_container w;
     next_handle := next_handle w; log := v |}.

(** A platform call: the newest entry of the log comes first. *)
Definition emit (x : effect) : M unit :=
  modify (fun w => set_log (x :: log w) w).

(** A new platform object. *)
Definition fresh : M nat :=
  fun w => (set_next_handle (S (next_handle w)) w, Return (next_handle w)).

(** A method call or property access on [o]: a TypeError on [null]. *)
Definition deref {A : Type} (o : option A) : M A :=
  match o with
  | Some a => ret a
  | None => throw TypeError
  end.

(** [if (o) { body }] *)
Definition if_truthy {A : Type} (o : option A) (body : M unit) : M unit :=
  match o with
  | Some _ => body
  | None => ret tt
  end.

Fixpoint forEach {A : Type} (f : A -> M unit) (l : list A) : M unit :=
  match l with
  | [] => ret tt
  | a :: r => f a ;; forEach f r
  end.

(** [window.recordingSession.<member> = v] *)
Definition update_session (f : Session -> Session) : M unit :=
  rs <- gets recordingSession ;;
  s <- deref rs ;;
  modify (set_recordingSession (Some (f s))).

(** An assignment to a variable of closure [k]. *)
Definition update_closure (k : nat) (f : Closure -> Closure) : M unit :=
  modify (fun w =>
    match nth_error (closures w) k with
    | Some c => set_closures (replace_nth k (closures w) (f c)) w
    | None => w
    end).

Definition set_isServerReady (v : bool) (c : Closure) : Closure :=
  {| cl_socket := cl_socket c; cl_context := cl_context c;
     cl_sampleRate := cl_sampleRate c; isServerReady := v;
     completeTranscript := completeTranscript c;
     currentPartial := currentPartial c;
     audioDataCache := audioDataCache c |}.

Definition set_completeTranscript (v : jsstring) (c : Closure) : Closure :=
  {| cl_socket := cl_socket c; cl_context := cl_context c;
     cl_sampleRate := cl_sampleRate c; isServerReady := isServerReady c;
     completeTranscript := v;
     currentPartial := currentPartial c;
     audioDataCache := audioDataCache c |}.

Definition set_currentPartial (v : jsstring) (c : Closure) : Closure :=
  {| cl_socket := cl_socket c; cl_context := cl_context c;
     cl_sampleRate := cl_sampleRate c; isServerReady := isServerReady c;
     completeTranscript := completeTranscript c;
     currentPartial := v;
     audioDataCache := audioDataCache c |}.

Definition set_audioDataCache (v : list (list float)) (c : Closure)
  : Closure :=
  {| cl_socket := cl_socket c; cl_context := cl_context c;
     cl_sampleRate := cl_sampleRate c; isServerReady := isServerReady c;
     completeTranscript := completeTranscript c;
     currentPartial := currentPartial c;
     audioDataCache := v |}.

Definition set_rs_socket (v : option nat) (s : Session) : Session :=
  {| rs_stream := rs_stream s; rs_socket := v; rs_recorder := rs_recorder s;
     rs_context := rs_context s; rs_mediaStream := rs_mediaStream s |}.

Definition set_rs_recorder (v : option nat) (s : Session) : Session :=
  {| rs_stream := rs_stream s; rs_socket := rs_socket s; rs_recorder := v;
     rs_context := rs_context s; rs_mediaStream := rs_mediaStream s |}.

Definition set_rs_context (v : option nat) (s : Session) : Session :=
  {| rs_stream := rs_stream s; rs_socket := rs_socket s;
     rs_recorder := rs_recorder s;
     rs_context := v; rs_mediaStream := rs_mediaStream s |}.

Definition set_rs_mediaStream (v : option nat) (s : Session) : Session :=
  {| rs_stream := rs_stream s; rs_socket := rs_socket s;
     rs_recorder := rs_recorder s;
     rs_context := rs_context s; rs_mediaStream := v |}.

(* ================================================================= *)
(** ** The functions of options.js *)

(** [updateTranscriptionUI(text)].  When the document has no container the
    function creates one but goes on with the [null] it looked up. *)
Definition updateTranscriptionUI (text : jsstring) : M unit :=
  transcriptionContainer <- gets transcription_container ;;
  match transcriptionContainer with
  | None =>
      emit CreateContainer ;;
      modify (set_transcription_container (Some []))
  | Some _ => ret tt
  end ;;
  _ <- deref transcriptionContainer ;;
  modify (set_transcription_container (Some text)) ;;
  modify (set_currentTranscription (Some text)) ;;
  emit (StorageSet text).

(** [downloadTranscription(text)]; [now] is [new Date().toISOString()]. *)
Definition downloadTranscription (now text : jsstring) : M unit :=
  let timestamp := replace_colon_dot now in
  let filename := js "transcription-" ++ timestamp ++ js ".txt" in
  emit (DownloadsDownload text (js "text/plain") filename false).

(** [socket.onopen] of closure [k]. *)
Definition socket_onopen (k : nat) : M unit :=
  update_closure k (set_isServerReady true) ;;
  emit (ConsoleLog (js "WebSocket connection opened")).

(** [socket.onmessage] of closure [k]; [event_data] is [None] when
    [JSON.parse(event.data)] throws. *)
Definition socket_onmessage (k : nat) (c : Closure)
  (event_data : option message) : M unit :=
  data <- match event_data with
          | Some d => ret d
          | None => throw SyntaxError
          end ;;
  elements <- deref (msg_elements data) ;;
  let transcribedText := join (js " ") elements in
  if jseqb (msg_type data) (js "partial") then
    let currentPartial' := trim transcribedText in
    update_closure k (set_currentPartial currentPartial') ;;
    updateTranscriptionUI (displayed (completeTranscript c) currentPartial')
  else if jseqb (msg_type data) (js "final") then
    let completeTranscript' :=
      trim (replace_ws (completeTranscript c ++ js " " ++ transcribedText)) in
    update_closure k (set_completeTranscript completeTranscript') ;;
    update_closure k (set_currentPartial []) ;;
    updateTranscriptionUI completeTranscript'
  else ret tt.

(** [recorder.onaudioprocess] of closure [k]; [inputData] is
    [event.inputBuffer.getChannelData(0)].  The buffer handed to
    [socket.send] is given by the elements of the [Int16Array]. *)
Definition recorder_onaudioprocess (k : nat) (c : Closure)
  (inputData : list float) : M unit :=
  match cl_context c with
  | None => ret tt
  | Some _ =>
      if negb (isServerReady c) then ret tt
      else
        audioData16kHz <-
          lift (resampleTo16kHZ inputData (Some (cl_sampleRate c))) ;;
        let audioDataInt16 := encode_frame audioData16kHz in
        update_closure k
          (set_audioDataCache (audioDataCache c ++ [inputData])) ;;
        emit (SocketSend (cl_socket c) audioDataInt16) ;;
        emit (ConsoleLog (js "Audio data sent to server"))
  end.

(** [startRecord] up to [await captureTabAudio()]. *)
Definition startRecord : M unit :=
  emit TabCaptureCapture ;;
  modify (fun w => set_pending_captures (S (pending_captures w)) w).

(** [startRecord] from the point where [captureTabAudio()] has resolved
    with [stream] ([None] for no stream); [sampleRate] is the rate the
    platform gives the new [AudioContext].  The closure of the callbacks is
    entered in [closures] where [recorder.onaudioprocess] is assigned.  The
    unused [uuid] and the empty [stream.oninactive] handler are left out. *)
Definition startRecord_resume (stream : option MediaStream)
  (sampleRate : float) : M unit :=
  match stream with
  | Some st =>
      modify (set_recordingSession
                (Some {| rs_stream := Some st; rs_socket := None;
                         rs_recorder := None; rs_context := None;
                         rs_mediaStream := None |})) ;;
      socket <- fresh ;;
      emit (NewWebSocket socket) ;;
      update_session (set_rs_socket (Some socket)) ;;
      emit (ConsoleLog (js "WebSocket connection created")) ;;
      emit AppendCloseButton ;;
      context <- fresh ;;
      emit (NewAudioContext context) ;;
      mediaStream <- fresh ;;
      emit (CreateMediaStreamSource context mediaStream st) ;;
      recorder <- fresh ;;
      emit (CreateScriptProcessor context recorder 4096) ;;
      update_session (set_rs_context (Some context)) ;;
      update_session (set_rs_mediaStream (Some mediaStream)) ;;
      update_session (set_rs_recorder (Some recorder)) ;;
      emit (SetOnAudioProcess recorder) ;;
      modify (fun w =>
        set_closures
          (closures w ++
           [ {| cl_socket := socket; cl_context := Some context;
                cl_sampleRate := sampleRate; isServerReady := false;
                completeTranscript := []; currentPartial := [];
                audioDataCache := [] |} ]) w) ;;
      emit (ConnectRecorder mediaStream recorder) ;;
      emit (ConnectDestination recorder context) ;;
      emit (ConnectDestination mediaStream context)
  | None => emit WindowClose
  end.

(** [stopRecording].  [chrome.storage.local.get] reads the stored value
    now and delivers it to its callback later. *)
Definition stopRecording : M unit :=
  rs <- gets recordingSession ;;
  match rs with
  | Some s =>
      let stream := rs_stream s in
      let socket := rs_socket s in
      let recorder := rs_recorder s in
      let context := rs_context s in
      let mediaStream := rs_mediaStream s in
      if_truthy socket (h <- deref socket ;; emit (SocketClose h)) ;;
      if_truthy recorder (h <- deref recorder ;; emit (RecorderDisconnect h)) ;;
      if_truthy mediaStream
        (h <- deref mediaStream ;; emit (MediaStreamDisconnect h)) ;;
      if_truthy stream
        (st <- deref stream ;;
         forEach (fun track => emit (TrackStop track)) (stream_tracks st)) ;;
      if_truthy context (h <- deref context ;; emit (ContextClose h)) ;;
      emit StorageGet ;;
      modify (fun w =>
        set_pending_gets (pending_gets w ++ [currentTranscription w]) w) ;;
      modify (set_recordingSession None)
  | None => ret tt
  end.

(** The callback given to [chrome.storage.local.get] in [stopRecording];
    an empty string is falsy. *)
Definition storage_get_callback (now : jsstring) (result : option jsstring)
  : M unit :=
  match result with
  | Some (c :: text) => downloadTranscription now (c :: text)
  | _ => ret tt
  end.

(* ================================================================= *)
(** ** The event loop *)

(** What the platform delivers to the page, one callback at a time. *)
Inductive event : Type :=
| RuntimeMessage (type : jsstring)
| CaptureResolved (stream : option MediaStream) (sampleRate : float)
| SocketOpen (k : nat)
| SocketMessage (k : nat) (event_data : option message)
| AudioProcess (k : nat) (inputData : list float)
| StorageGetResult (now : jsstring)
| CloseButtonClick.

(** The listener of [chrome.runtime.onMessage]. *)
Definition runtime_onMessage (type : jsstring) : M unit :=
  if jseqb type (js "start_capture") then startRecord
  else if jseqb type (js "stop_capture") then
    stopRecording ;; emit (SendResponse (js "stopped"))
  else ret tt.

Definition with_closure (k : nat) (handler : Closure -> M unit) : M unit :=
  cs <- gets closures ;;
  match nth_error cs k with
  | Some c => handler c
  | None => ret tt
  end.

Definition dispatch (e : event) : M unit :=
  match e with
  | RuntimeMessage type => runtime_onMessage type
  | CaptureResolved stream sampleRate =>
      n <- gets pending_captures ;;
      match n with
      | O => ret tt
      | S n' =>
          modify (set_pending_captures n') ;;
          startRecord_resume stream sampleRate
      end
  | SocketOpen k => with_closure k (fun _ => socket_onopen k)
  | SocketMessage k event_data =>
      with_closure k (fun c => socket_onmessage k c event_data)
  | AudioProcess k inputData =>
      with_closure k (fun c => recorder_onaudioprocess k c inputData)
  | StorageGetResult now =>
      gs <- gets pending_gets ;;
      match gs with
      | [] => ret tt
      | result :: rest =>
          modify (set_pending_gets rest) ;;
          storage_get_callback now result
      end
  | CloseButtonClick => emit WindowClose
  end.

(** One turn of the event loop: an exception ends the callback and is not
    seen by the next one. *)
Definition step (w : world) (e : event) : world := fst (dispatch e w).

Definition run (evs : list event) (w : world) : world := fold_left step evs w.

(** The effects of [w'] that [w] did not have yet, newest first. *)
Definition new_effects (w w' : world) : list effect :=
  firstn (length (log w') - length (log w)) (log w').


(* ================================================================= *)
(** ** What the claims speak of *)

(** The releases [stopRecording] owes a session, oldest first: one per
    member that is present. *)
Definition teardown (s : Session) : list effect :=
  match rs_socket s with Some h => [SocketClose h] | None => [] end
  ++ match rs_recorder s with Some h => [RecorderDisconnect h] | None => [] end
  ++ match rs_mediaStream s with
     | Some h => [MediaStreamDisconnect h] | None => [] end
  ++ match rs_stream s with
     | Some st => map TrackStop (stream_tracks st) | None => [] end
  ++ match rs_context s with Some h => [ContextClose h] | None => [] end.

Definition is_download (x : effect) : bool :=
  match x with
  | DownloadsDownload _ _ _ _ => true
  | _ => false
  end.

(** [clamp(s, -1, 1)], as the specification writes it. *)
Definition clamp (x : float) : float :=
  (if x <? -1 then -1 else if 1 <? x then 1 else x)%float.

(** A Number with its fraction dropped; 0 for NaN and the infinities, as in
    every conversion of a Number to an integer type. *)
Definition trunc_toward_zero (x : float) : Z :=
  match ToInteger x with
  | Some z => z
  | None => 0%Z
  end.

(** Either of the round and sticky bits of a shifted mantissa is set. *)
Definition inexact (mrs : shr_record) : bool := shr_r mrs || shr_s mrs.

(** [y] is [x] shifted right by [k] bits. *)
Definition shifted (k : Z) (x y : shr_record) : Prop :=
  (shr_m y = shr_m x / 2 ^ k
   /\ (inexact x = false -> shr_m x mod 2 ^ k = 0 -> inexact y = false))%Z.

(** [w'] has no sent frame that [w] does not have. *)
Definition sends_kept (w w' : world) : Prop :=
  forall h f, In (SocketSend h f) (log w') -> In (SocketSend h f) (log w).

(** The inbound messages of the transcription service. *)
Definition partial_event (k : nat) (elements : list jsstring) : event :=
  SocketMessage k
    (Some {| msg_type := js "partial"; msg_elements := Some elements |}).

Definition final_event (k : nat) (elements : list jsstring) : event :=
  SocketMessage k
    (Some {| msg_type := js "final"; msg_elements := Some elements |}).

(** Committed and pending text of closure [k]. *)
Definition transcript_of (k : nat) (w : world)
  : option (jsstring * jsstring) :=
  match nth_error (closures w) k with
  | Some c => Some (completeTranscript c, currentPartial c)
  | None => None
  end.

(** White space in [s] occurs only as single spaces between other code
    units; with [prev_ws] unset a single leading space is allowed too. *)
Fixpoint collapsed_from (prev_ws : bool) (s : jsstring) : bool :=
  match s with
  | [] => true
  | c :: r =>
      if is_ws c
      then (c =? SPACE)%N && negb prev_ws && collapsed_from true r
      else collapsed_from false r
  end.

(** The ready flags and the connections of the closures, by index. *)
Definition ready_flags (w : world) : list bool :=
  map isServerReady (closures w).

Definition sockets (w : world) : list nat := map cl_socket (closures w).

(** [w'] has the ready flags, the connections and the sent frames of [w]. *)
Definition quiet (w w' : world) : Prop :=
  ready_flags w' = ready_flags w
  /\ sockets w' = sockets w
  /\ forall h f, In (SocketSend h f) (log w') -> In (SocketSend h f) (log w).

Definition quietM {A : Type} (m : M A) : Prop :=
  forall w : world, quiet w (fst (m w)).

(** "On every stop request with an active session the persisted transcript
    is handed to the download facility", as a property of the code. *)
Definition export_on_every_stop : Prop :=
  forall (w : world) (s : Session) (now : jsstring),
    recordingSession w = Some s ->
    pending_gets w = [] ->
    existsb is_download
      (new_effects w
         (run [RuntimeMessage (js "stop_capture"); StorageGetResult now] w))
    = true.

(** A stream with two tracks, and a running session, for examples. *)
Definition ex_stream : MediaStream :=
  {| stream_id := 7; stream_tracks := [70; 71] |}.

Definition ex_started (container stored : option jsstring) : world :=
  run [RuntimeMessage (js "start_capture");
       CaptureResolved (Some ex_stream) 44100%float]
      (initial_world container stored).

Definition ex_now : jsstring := js "2024-01-02T03:04:05.678Z".

(* ================================================================= *)
(** ** What a closure does with an event *)

(** The variables of a closure after [socket.onmessage] has handled
    [event_data]. *)
Definition message_step (c : Closure) (event_data : option message)
  : Closure :=
  match event_data with
  | Some d =>
      match msg_elements d with
      | Some elements =>
          if jseqb (msg_type d) (js "partial") then
            set_currentPartial (trim (join (js " ") elements)) c
          else if jseqb (msg_type d) (js "final") then
            set_currentPartial []
              (set_completeTranscript
                 (trim (replace_ws (completeTranscript c ++ js " "
                                    ++ join (js " ") elements))) c)
          else c
      | None => c
      end
  | None => c
  end.

(** The variables of a closure after [recorder.onaudioprocess] has handled
    [inputData]. *)
Definition audio_step (c : Closure) (inputData : list float) : Closure :=
  match cl_context c with
  | None => c
  | Some _ =>
      if isServerReady c then
        match resampleTo16kHZ inputData (Some (cl_sampleRate c)) with
        | Return _ => set_audioDataCache (audioDataCache c ++ [inputData]) c
        | Throw _ => c
        end
      else c
  end.

(** The variables of closure [k] after the event [e]. *)
Definition closure_step (k : nat) (c : Closure) (e : event) : Closure :=
  match e with
  | SocketOpen j => if Nat.eqb j k then set_isServerReady true c else c
  | SocketMessage j event_data =>
      if Nat.eqb j k then message_step c event_data else c
  | AudioProcess j inputData =>
      if Nat.eqb j k then audio_step c inputData else c
  | _ => c
  end.

(** The frame an event makes closure [c] send, if any. *)
Definition frame_sent (c : Closure) (inputData : list float)
  : list effect :=
  match cl_context c with
  | None => []
  | Some _ =>
      if isServerReady c then
        match resampleTo16kHZ inputData (Some (cl_sampleRate c)) with
        | Return a => [SocketSend (cl_socket c) (encode_frame a)]
        | Throw _ => []
        end
      else []
  end.

Definition is_send (x : effect) : bool :=
  match x with
  | SocketSend _ _ => true
  | _ => false
  end.

(** The frames sent so far, newest first. *)
Definition sent_frames (w : world) : list effect := filter is_send (log w).

(** The number of input frames held in the caches of all closures. *)
Definition total_cached (w : world) : nat :=
  list_sum (map (fun c => length (audioDataCache c)) (closures w)).

(** The code units of a string that are not white space. *)
Definition content (s : jsstring) : jsstring :=
  filter (fun u => negb (is_ws u)) s.

Definition no_lead (s : jsstring) : bool :=
  match s with
  | [] => true
  | c :: _ => negb (is_ws c)
  end.

(** The committed text is normalised and the pending text is trimmed. *)
Definition tidy (c : Closure) : Prop :=
  collapsed_from true (completeTranscript c) = true
  /\ trimEnd (completeTranscript c) = completeTranscript c
  /\ no_lead (currentPartial c) = true
  /\ trimEnd (currentPartial c) = currentPartial c.

(** The text a final event for closure [k] carries, without white space;
    empty for every other event. *)
Definition final_content (k : nat) (e : event) : jsstring :=
  match e with
  | SocketMessage j (Some d) =>
      match msg_elements d with
      | Some elements =>
          if Nat.eqb j k && negb (jseqb (msg_type d) (js "partial"))
             && jseqb (msg_type d) (js "final")
          then content (join (js " ") elements) else []
      | None => []
      end
  | _ => []
  end.

(** A finite Number is [v * 2^e] for two integers: its mantissa with its
    sign, and its exponent. *)
Definition finite_value (x : float) : option (Z * Z) :=
  match Prim2SF x with
  | S754_zero _ => Some (0, 0)%Z
  | S754_finite s m e => Some (SF_mant s m, e)
  | _ => None
  end.

(** [a <= v * 2^e], [a < v * 2^e], [v * 2^e <= b] and [v * 2^e < b] for
    integers [a] and [b], written without fractions. *)
Definition int_le_scaled (a v e : Z) : Prop :=
  if (0 <=? e)%Z then (a <= v * 2 ^ e)%Z else (a * 2 ^ (- e) <= v)%Z.

Definition int_lt_scaled (a v e : Z) : Prop :=
  if (0 <=? e)%Z then (a < v * 2 ^ e)%Z else (a * 2 ^ (- e) < v)%Z.

Definition scaled_le_int (v e b : Z) : Prop :=
  if (0 <=? e)%Z then (v * 2 ^ e <= b)%Z else (v <= b * 2 ^ (- e))%Z.

Definition scaled_lt_int (v e b : Z) : Prop :=
  if (0 <=? e)%Z then (v * 2 ^ e < b)%Z else (v < b * 2 ^ (- e))%Z.

(** [z] is the floor of the finite Number [x]: [z <= x < z + 1]. *)
Definition is_floor (x : float) (z : Z) : Prop :=
  match finite_value x with
  | Some (v, e) => int_le_scaled z v e /\ scaled_lt_int v e (z + 1)
  | None => False
  end.

(** [z] is the ceiling of the finite Number [x]: [z - 1 < x <= z]. *)
Definition is_ceil (x : float) (z : Z) : Prop :=
  match finite_value x with
  | Some (v, e) => int_lt_scaled (z - 1) v e /\ scaled_le_int v e z
  | None => False
  end.

(** [z] is the integer nearest to the finite Number [x], a tie going up:
    [z - 1/2 <= x < z + 1/2], that is [2z - 1 <= 2x < 2z + 1]. *)
Definition is_nearest (x : float) (z : Z) : Prop :=
  match finite_value x with
  | Some (v, e) =>
      int_le_scaled (2 * z - 1) (2 * v) e
      /\ scaled_lt_int (2 * v) e (2 * z + 1)
  | None => False
  end.

(** The event is delivered to a callback of closure [k]. *)
Definition addressed (k : nat) (e : event) : bool :=
  match e with
  | SocketOpen j | SocketMessage j _ | AudioProcess j _ => Nat.eqb j k
  | _ => false
  end.

(** [l] with its element [j], when it has one, changed by [f]. *)
Definition change_nth {A : Type} (j : nat) (f : A -> A) (l : list A)
  : list A :=
  match nth_error l j with
  | Some a => replace_nth j l (f a)
  | None => l
  end.

(** The closures after the event [e]. *)
Definition closures_after (w : world) (e : event) : list Closure :=
  match e with
  | SocketOpen j => change_nth j (set_isServerReady true) (closures w)
  | SocketMessage j event_data =>
      change_nth j (fun c => message_step c event_data) (closures w)
  | AudioProcess j inputData =>
      change_nth j (fun c => audio_step c inputData) (closures w)
  | CaptureResolved (Some _) sampleRate =>
      match pending_captures w with
      | O => closures w
      | S _ =>
          closures w ++
          [ {| cl_socket := next_handle w;
               cl_context := Some (1 + next_handle w);
               cl_sampleRate := sampleRate; isServerReady := false;
               completeTranscript := []; currentPartial := [];
               audioDataCache := [] |} ]
      end
  | _ => closures w
  end.

(** The frames the event [e] adds to the log. *)
Definition frames_of (w : world) (e : event) : list effect :=
  match e with
  | AudioProcess j inputData =>
      match nth_error (closures w) j with
      | Some c => frame_sent c inputData
      | None => []
      end
  | _ => []
  end.

Definition is_response (x : effect) : bool :=
  match x with
  | SendResponse _ => true
  | _ => false
  end.

(** The handles a session holds. *)
Definition session_handles (w : world) : list nat :=
  match recordingSession w with
  | Some s =>
      match rs_socket s with Some h => [h] | None => [] end
      ++ match rs_recorder s with Some h => [h] | None => [] end
      ++ match rs_mediaStream s with Some h => [h] | None => [] end
      ++ match rs_context s with Some h => [h] | None => [] end
  | None => []
  end.

(** [x] closes or disconnects one of the four objects numbered from [h]:
    the socket, the context, the source and the recorder that one call of
    [startRecord] makes. *)
Definition releases (h : nat) (x : effect) : bool :=
  match x with
  | SocketClose a | RecorderDisconnect a | MediaStreamDisconnect a
  | ContextClose a => Nat.leb h a && Nat.ltb a (4 + h)
  | _ => false
  end.

(** A handler leaves the observation [F] of the world as it was. *)
Definition preservesM {T A : Type} (F : world -> T) (m : M A) : Prop :=
  forall w : world, F (fst (m w)) = F w.

(** An int16 value. *)
Definition is_int16 (z : Z) : Prop := (-32768 <= z <= 32767)%Z.

Definition count_unit (u : N) (s : jsstring) : nat :=
  length (filter (fun c => (c =? u)%N) s).

(* ================================================================= *)
(** ** popup.js *)

(** The two buttons: the [disabled] property and whether the class list
    holds "disabled". *)
Record Buttons : Type := {
  startDisabled : bool;
  startClass : bool;
  stopDisabled : bool;
  stopClass : bool
}.

(** The messages of [chrome.runtime.sendMessage]; the token constant of
    the start message is left out. *)
Inductive popup_message : Type :=
| StartCaptureMessage (tabId : nat)
| StopCaptureMessage.

(** The popup page.  [capturingState] is what [chrome.storage.local] holds
    under that key: nothing, an object without [isCapturing], or an object
    with it.  The callbacks that wait for the platform are kept in the
    order of their calls, oldest first. *)
Record popup : Type := {
  loaded : bool;
  buttons : Buttons;
  capturingState : option (option bool);
  outbox : list popup_message;
  tab_queries : nat;
  responses : list popup_message;
  storage_gets : list (option (option bool));
  storage_sets : nat
}.

(** The page before [DOMContentLoaded], with the buttons as the HTML has
    them (the HTML is not part of the sources). *)
Definition new_popup (b : Buttons) (stored : option (option bool)) : popup :=
  {| loaded := false; buttons := b; capturingState := stored; outbox := [];
     tab_queries := 0; responses := []; storage_gets := [];
     storage_sets := 0 |}.

(** ToBoolean of a value that is [undefined] or a boolean. *)
Definition truthy (v : option bool) : bool :=
  match v with
  | Some b => b
  | None => false
  end.

(** [classList.toggle("disabled", force)]: with [force] undefined the
    class is flipped. *)
Definition classList_toggle (has : bool) (force : option bool) : bool :=
  match force with
  | Some f => f
  | None => negb has
  end.

(** [toggleCaptureButtons(isCapturing)] *)
Definition toggleCaptureButtons (isCapturing : option bool) (b : Buttons)
  : Buttons :=
  {| startDisabled := truthy isCapturing;
     stopDisabled := negb (truthy isCapturing);
     startClass := classList_toggle (startClass b) isCapturing;
     stopClass :=
       classList_toggle (stopClass b) (Some (negb (truthy isCapturing))) |}.

Definition set_buttons (v : Buttons) (p : popup) : popup :=
  {| loaded := loaded p; buttons := v; capturingState := capturingState p;
     outbox := outbox p; tab_queries := tab_queries p;
     responses := responses p; storage_gets := storage_gets p;
     storage_sets := storage_sets p |}.

Definition set_capturingState (v : option (option bool)) (p : popup)
  : popup :=
  {| loaded := loaded p; buttons := buttons p; capturingState := v;
     outbox := outbox p; tab_queries := tab_queries p;
     responses := responses p; storage_gets := storage_gets p;
     storage_sets := storage_sets p |}.

(** The listener of [DOMContentLoaded]: the click and message listeners
    are registered and the stored state is asked for. *)
Definition on_DOMContentLoaded (p : popup) : popup :=
  {| loaded := true; buttons := buttons p;
     capturingState := capturingState p;
     outbox := outbox p; tab_queries := tab_queries p;
     responses := responses p;
     storage_gets := storage_gets p ++ [capturingState p];
     storage_sets := storage_sets p |}.

(** The callback of [chrome.storage.local.get("capturingState", ...)]. *)
Definition on_capturingState (stored : option (option bool)) (p : popup)
  : popup :=
  match stored with
  | Some (Some true) => set_buttons (toggleCaptureButtons (Some true)
                                       (buttons p)) p
  | _ => set_buttons (toggleCaptureButtons (Some false) (buttons p)) p
  end.

(** [startCapture] up to [await getCurrentTab()]. *)
Definition startCapture (p : popup) : popup :=
  if startDisabled (buttons p) then p
  else
    {| loaded := loaded p; buttons := buttons p;
       capturingState := capturingState p;
       outbox := outbox p; tab_queries := S (tab_queries p);
       responses := responses p; storage_gets := storage_gets p;
       storage_sets := storage_sets p |}.

(** [startCapture] from the point where [getCurrentTab()] has resolved
    with [tabs[0]]; [currentTab.id] throws when there is no such tab. *)
Definition startCapture_resume (currentTab : option nat) (p : popup)
  : popup * result unit :=
  match currentTab with
  | Some id =>
      ({| loaded := loaded p; buttons := buttons p;
          capturingState := capturingState p;
          outbox := StartCaptureMessage id :: outbox p;
          tab_queries := tab_queries p;
          responses := responses p ++ [StartCaptureMessage id];
          storage_gets := storage_gets p;
          storage_sets := storage_sets p |}, Return tt)
  | None => (p, Throw TypeError)
  end.

(** [stopCapture] *)
Definition stopCapture (p : popup) : popup :=
  if stopDisabled (buttons p) then p
  else
    {| loaded := loaded p; buttons := buttons p;
       capturingState := capturingState p;
       outbox := StopCaptureMessage :: outbox p;
       tab_queries := tab_queries p;
       responses := responses p ++ [StopCaptureMessage];
       storage_gets := storage_gets p;
       storage_sets := storage_sets p |}.

(** The callback given to [chrome.runtime.sendMessage]: the one of
    [startCapture] stores the flag and waits for the store, the one of
    [stopCapture] switches the buttons and stores the flag. *)
Definition on_response (m : popup_message) (p : popup) : popup :=
  match m with
  | StartCaptureMessage _ =>
      {| loaded := loaded p; buttons := buttons p;
         capturingState := Some (Some true);
         outbox := outbox p; tab_queries := tab_queries p;
         responses := responses p; storage_gets := storage_gets p;
         storage_sets := S (storage_sets p) |}
  | StopCaptureMessage =>
      set_capturingState (Some (Some false))
        (set_buttons (toggleCaptureButtons (Some false) (buttons p)) p)
  end.

(** The listener of [chrome.runtime.onMessage]; [isCapturing] is
    [request.isCapturing], undefined or a boolean. *)
Definition popup_onMessage (action : jsstring) (isCapturing : option bool)
  (p : popup) : popup :=
  if jseqb action (js "toggleCaptureButtons") then
    set_capturingState (Some isCapturing)
      (set_buttons (toggleCaptureButtons isCapturing (buttons p)) p)
  else p.

(** What the platform delivers to the popup. *)
Inductive popup_event : Type :=
| DOMContentLoaded
| StorageGetReturned
| ClickStart
| TabsQueryReturned (tab0 : option nat)
| ResponseReturned
| StorageSetReturned
| ClickStop
| RequestReceived (action : jsstring) (isCapturing : option bool).

Definition popup_step (p : popup) (e : popup_event) : popup :=
  match e with
  | DOMContentLoaded => on_DOMContentLoaded p
  | StorageGetReturned =>
      match storage_gets p with
      | [] => p
      | stored :: rest =>
          on_capturingState stored
            {| loaded := loaded p; buttons := buttons p;
               capturingState := capturingState p;
               outbox := outbox p; tab_queries := tab_queries p;
               responses := responses p; storage_gets := rest;
               storage_sets := storage_sets p |}
      end
  | ClickStart => if loaded p then startCapture p else p
  | TabsQueryReturned tab0 =>
      match tab_queries p with
      | O => p
      | S n =>
          fst (startCapture_resume tab0
                 {| loaded := loaded p; buttons := buttons p;
                    capturingState := capturingState p;
                    outbox := outbox p; tab_queries := n;
                    responses := responses p;
                    storage_gets := storage_gets p;
                    storage_sets := storage_sets p |})
      end
  | ResponseReturned =>
      match responses p with
      | [] => p
      | m :: rest =>
          on_response m
            {| loaded := loaded p; buttons := buttons p;
               capturingState := capturingState p;
               outbox := outbox p; tab_queries := tab_queries p;
               responses := rest; storage_gets := storage_gets p;
               storage_sets := storage_sets p |}
      end
  | StorageSetReturned =>
      match storage_sets p with
      | O => p
      | S n =>
          set_buttons (toggleCaptureButtons (Some true) (buttons p))
            {| loaded := loaded p; buttons := buttons p;
               capturingState := capturingState p;
               outbox := outbox p; tab_queries := tab_queries p;
               responses := responses p; storage_gets := storage_gets p;
               storage_sets := n |}
      end
  | ClickStop => if loaded p then stopCapture p else p
  | RequestReceived action isCapturing =>
      if loaded p then popup_onMessage action isCapturing p else p
  end.

Definition popup_run (evs : list popup_event) (p : popup) : popup :=
  fold_left popup_step evs p.

(** Each button carries the class "disabled" exactly when it is disabled,
    and exactly one of the two is disabled. *)
Definition consistent (b : Buttons) : Prop :=
  startClass b = startDisabled b
  /\ stopClass b = stopDisabled b
  /\ stopDisabled b = negb (startDisabled b).

(** The request of [e], when it is one, carries a boolean. *)
Definition boolean_request (e : popup_event) : Prop :=
  match e with
  | RequestReceived _ None => False
  | _ => True
  end.

(** The stored flag as the popup reads it. *)
Definition stored_capturing (s : option (option bool)) : bool :=
  match s with
  | Some (Some true) => true
  | _ => false
  end.

(* ================================================================= *)
(** ** Lists and the monad *)

Lemma set_log_same (w : world) : set_log (log w) w = w.
Proof. destruct w; reflexivity. Qed.

Lemma forEach_emit (g : nat -> effect) (l : list nat) (w : world) :
  forEach (fun t w0 => (set_log (g t :: log w0) w0, Return tt)) l w
  = (set_log (rev (map g l) ++ log w) w, Return tt).
Proof.
  revert w; induction l as [|a l IH]; intro w.
  - simpl. unfold ret. now rewrite set_log_same.
  - simpl forEach. unfold bind at 1.
    rewrite IH. simpl. rewrite <- app_assoc. reflexivity.
Qed.

Lemma run_app (a b : list event) (w : world) :
  run (a ++ b) w = run b (run a w).
Proof. unfold run. apply fold_left_app. Qed.

Lemma run_snoc (a : list event) (e : event) (w : world) :
  run (a ++ [e]) w = step (run a w) e.
Proof. now rewrite run_app. Qed.

(* ================================================================= *)
(** ** stopRecording *)

Lemma stopRecording_active (w : world) (s : Session) :
  recordingSession w = Some s ->
  stopRecording w
  = ({| recordingSession := None;
        closures := closures w;
        pending_captures := pending_captures w;
        pending_gets := pending_gets w ++ [currentTranscription w];
        currentTranscription := currentTranscription w;
        transcription_container := transcription_container w;
        next_handle := next_handle w;
        log := StorageGet :: rev (teardown s) ++ log w |}, Return tt).
Proof.
  intro H. destruct w as [rs cls pc pg ct tc nh lg]. simpl in H. subst rs.
  destruct s as [st so re cx ms].
  unfold stopRecording, teardown, bind, gets, if_truthy, deref, ret, emit,
    modify.
  destruct so, re, ms, st, cx; cbn;
    try rewrite (forEach_emit TrackStop); cbn;
    repeat (rewrite ?rev_app_distr, <- ?app_assoc; cbn); reflexivity.
Qed.

Lemma new_effects_app (w w' : world) (new : list effect) :
  log w' = new ++ log w -> new_effects w w' = new.
Proof.
  intro H. unfold new_effects. rewrite H, length_app.
  replace (length new + length (log w) - length (log w)) with (length new)
    by lia.
  rewrite firstn_app, Nat.sub_diag, firstn_all. simpl. apply app_nil_r.
Qed.

Lemma stopRecording_idle (w : world) :
  recordingSession w = None -> stopRecording w = (w, Return tt).
Proof.
  intro H. unfold stopRecording, bind, gets. rewrite H. reflexivity.
Qed.

Lemma stopRecording_clears (w : world) :
  recordingSession (fst (stopRecording w)) = None
  /\ snd (stopRecording w) = Return tt.
Proof.
  destruct (recordingSession w) as [s|] eqn:E.
  - rewrite (stopRecording_active w s E). split; reflexivity.
  - rewrite (stopRecording_idle w E). split; [exact E | reflexivity].
Qed.

(* ================================================================= *)
(** ** startRecord *)

Lemma start_then_stream (w : world) (st : MediaStream) (rate : float) :
  run [RuntimeMessage (js "start_capture"); CaptureResolved (Some st) rate] w
  = {| recordingSession :=
         Some {| rs_stream := Some st;
                 rs_socket := Some (next_handle w);
                 rs_recorder := Some (3 + next_handle w);
                 rs_context := Some (1 + next_handle w);
                 rs_mediaStream := Some (2 + next_handle w) |};
       closures :=
         closures w ++
         [ {| cl_socket := next_handle w;
              cl_context := Some (1 + next_handle w);
              cl_sampleRate := rate; isServerReady := false;
              completeTranscript := []; currentPartial := [];
              audioDataCache := [] |} ];
       pending_captures := pending_captures w;
       pending_gets := pending_gets w;
       currentTranscription := currentTranscription w;
       transcription_container := transcription_container w;
       next_handle := 4 + next_handle w;
       log :=
         [ ConnectDestination (2 + next_handle w) (1 + next_handle w);
           ConnectDestination (3 + next_handle w) (1 + next_handle w);
           ConnectRecorder (2 + next_handle w) (3 + next_handle w);
           SetOnAudioProcess (3 + next_handle w);
           CreateScriptProcessor (1 + next_handle w) (3 + next_handle w) 4096;
           CreateMediaStreamSource (1 + next_handle w) (2 + next_handle w) st;
           NewAudioContext (1 + next_handle w);
           AppendCloseButton;
           ConsoleLog (js "WebSocket connection created");
           NewWebSocket (next_handle w);
           TabCaptureCapture ] ++ log w |}.
Proof. destruct w; reflexivity. Qed.

Lemma start_then_no_stream (w : world) (rate : float) :
  run [RuntimeMessage (js "start_capture"); CaptureResolved None rate] w
  = set_log (WindowClose :: TabCaptureCapture :: log w) w.
Proof. destruct w; reflexivity. Qed.

Lemma stop_message (w : world) :
  dispatch (RuntimeMessage (js "stop_capture")) w
  = (set_log (SendResponse (js "stopped") :: log (fst (stopRecording w)))
       (fst (stopRecording w)), Return tt).
Proof.
  change (dispatch (RuntimeMessage (js "stop_capture")) w)
    with ((stopRecording ;; emit (SendResponse (js "stopped"))) w).
  unfold bind. destruct (stopRecording_clears w) as [_ H].
  destruct (stopRecording w) as [w' r]. simpl in *. subst r. reflexivity.
Qed.

(* ================================================================= *)
(** ** Claims about start and stop *)

(** C10. Stopping when no session is active changes nothing (no release,
    no storage read and so no export) and does not throw; every stop
    leaves the session cleared, so a stop that follows a stop is such a
    no-op. *)
Theorem stop_is_idempotent (w : world) (H : recordingSession w = None) :
  stopRecording w = (w, Return tt)
  /\ new_effects w (fst (stopRecording w)) = []
  /\ forall w0 : world,
       recordingSession (fst (stopRecording w0)) = None
       /\ stopRecording (fst (stopRecording w0))
          = (fst (stopRecording w0), Return tt).
Proof.
  split; [now apply stopRecording_idle|]. split.
  - rewrite (stopRecording_idle w H). apply new_effects_app. reflexivity.
  - intro w0. destruct (stopRecording_clears w0) as [Hc _].
    split; [exact Hc | now apply stopRecording_idle].
Qed.

Lemma stop_is_idempotent_witness :
  stopRecording (initial_world None None)
  = (initial_world None None, Return tt).
Proof.
  apply (stop_is_idempotent (initial_world None None)). reflexivity.
Defined.

(** C5. With a session whose members are present or absent in any
    combination, [stopRecording] returns without throwing, has released
    exactly the members that are present (socket closed, recorder and
    media-stream node disconnected, every track stopped, context closed)
    whatever else is absent, and has cleared the session.  A stop that
    comes right after a start, before the connection has opened, stops
    every track of the captured stream. *)
Theorem stop_releases_present_resources (w : world) (s : Session)
  (H : recordingSession w = Some s) :
  snd (stopRecording w) = Return tt
  /\ new_effects w (fst (stopRecording w)) = StorageGet :: rev (teardown s)
  /\ recordingSession (fst (stopRecording w)) = None
  /\ (forall h, rs_socket s = Some h -> In (SocketClose h) (teardown s))
  /\ (forall h, rs_recorder s = Some h ->
                In (RecorderDisconnect h) (teardown s))
  /\ (forall h, rs_mediaStream s = Some h ->
                In (MediaStreamDisconnect h) (teardown s))
  /\ (forall st t, rs_stream s = Some st -> In t (stream_tracks st) ->
                   In (TrackStop t) (teardown s))
  /\ (forall h, rs_context s = Some h -> In (ContextClose h) (teardown s))
  /\ forall (w0 : world) (st : MediaStream) (rate : float),
       let w1 := run [RuntimeMessage (js "start_capture");
                      CaptureResolved (Some st) rate] w0 in
       let w2 := step w1 (RuntimeMessage (js "stop_capture")) in
       nth_error (map isServerReady (closures w1)) (length (closures w0))
         = Some false
       /\ snd (dispatch (RuntimeMessage (js "stop_capture")) w1) = Return tt
       /\ (forall t, In t (stream_tracks st) ->
                     In (TrackStop t) (new_effects w1 w2))
       /\ In (SocketClose (next_handle w0)) (new_effects w1 w2)
       /\ recordingSession w2 = None.
Proof.
  rewrite (stopRecording_active w s H). cbn [fst snd].
  split; [reflexivity|].
  split; [apply new_effects_app; cbn [log]; now rewrite <- app_comm_cons|].
  split; [reflexivity|].
  unfold teardown.
  split; [intros h E; rewrite E; simpl; auto|].
  split; [intros h E; rewrite E; apply in_or_app; right; simpl; auto|].
  split; [intros h E; rewrite E; do 2 (apply in_or_app; right); simpl; auto|].
  split.
  { intros st t E Ht. rewrite E. do 3 (apply in_or_app; right).
    apply in_or_app; left. now apply in_map. }
  split; [intros h E; rewrite E; do 4 (apply in_or_app; right); simpl; auto|].
  intros w0 st rate.
  set (w1 := run [RuntimeMessage (js "start_capture");
                  CaptureResolved (Some st) rate] w0).
  set (w2 := step w1 (RuntimeMessage (js "stop_capture"))).
  assert (Hw1 : w1 = run [RuntimeMessage (js "start_capture");
                          CaptureResolved (Some st) rate] w0) by reflexivity.
  rewrite start_then_stream in Hw1.
  assert (Hs : recordingSession w1
               = Some {| rs_stream := Some st;
                         rs_socket := Some (next_handle w0);
                         rs_recorder := Some (3 + next_handle w0);
                         rs_context := Some (1 + next_handle w0);
                         rs_mediaStream := Some (2 + next_handle w0) |})
    by (rewrite Hw1; reflexivity).
  assert (Hl : log w2
               = (SendResponse (js "stopped") :: StorageGet
                  :: ContextClose (1 + next_handle w0)
                  :: rev (map TrackStop (stream_tracks st))
                  ++ [MediaStreamDisconnect (2 + next_handle w0);
                      RecorderDisconnect (3 + next_handle w0);
                      SocketClose (next_handle w0)]) ++ log w1).
  { unfold w2, step. rewrite stop_message.
    rewrite (stopRecording_active w1 _ Hs). cbn [fst log set_log].
    unfold teardown. cbn [rs_socket rs_recorder rs_mediaStream rs_stream
      rs_context].
    repeat (rewrite ?rev_app_distr, <- ?app_assoc; cbn [rev app]).
    reflexivity. }
  split.
  { rewrite Hw1. cbn [closures]. rewrite map_app, nth_error_app2.
    - rewrite length_map, Nat.sub_diag. reflexivity.
    - rewrite length_map. lia. }
  split; [rewrite stop_message; reflexivity|].
  rewrite (new_effects_app w1 w2 _ Hl).
  split.
  { intros t Ht. do 3 right. apply in_or_app; left.
    apply -> in_rev. now apply in_map. }
  split.
  { do 3 right. apply in_or_app; right. simpl; auto. }
  unfold w2, step. rewrite stop_message.
  rewrite (stopRecording_active w1 _ Hs). reflexivity.
Qed.

Lemma stop_releases_present_resources_witness :
  snd (stopRecording (ex_started None None)) = Return tt
  /\ new_effects (ex_started None None)
       (fst (stopRecording (ex_started None None)))
     = [StorageGet; ContextClose 1; TrackStop 71; TrackStop 70;
        MediaStreamDisconnect 2; RecorderDisconnect 3; SocketClose 0].
Proof.
  destruct (stop_releases_present_resources (ex_started None None)
              {| rs_stream := Some ex_stream; rs_socket := Some 0;
                 rs_recorder := Some 3; rs_context := Some 1;
                 rs_mediaStream := Some 2 |} eq_refl)
    as (H1 & H2 & _).
  split; [exact H1 | exact H2].
Defined.

(** A stop that is handled while [captureTabAudio()] is still pending finds
    no session and releases nothing; the session that begins when the
    capture resolves is left running.  (C5 speaks of stops handled when a
    session exists.) *)
Remark stop_while_capture_pending (w : world) (st : MediaStream)
  (rate : float) :
  recordingSession w = None ->
  let w' := run [RuntimeMessage (js "start_capture");
                 RuntimeMessage (js "stop_capture");
                 CaptureResolved (Some st) rate] w in
  recordingSession w'
  = Some {| rs_stream := Some st;
            rs_socket := Some (next_handle w);
            rs_recorder := Some (3 + next_handle w);
            rs_context := Some (1 + next_handle w);
            rs_mediaStream := Some (2 + next_handle w) |}
  /\ forall t : nat, ~ In (TrackStop t) (new_effects w w').
Proof.
  intros H w'.
  assert (E : recordingSession w'
              = Some {| rs_stream := Some st;
                        rs_socket := Some (next_handle w);
                        rs_recorder := Some (3 + next_handle w);
                        rs_context := Some (1 + next_handle w);
                        rs_mediaStream := Some (2 + next_handle w) |}
              /\ log w'
                 = [ ConnectDestination (2 + next_handle w) (1 + next_handle w);
                     ConnectDestination (3 + next_handle w) (1 + next_handle w);
                     ConnectRecorder (2 + next_handle w) (3 + next_handle w);
                     SetOnAudioProcess (3 + next_handle w);
                     CreateScriptProcessor (1 + next_handle w)
                       (3 + next_handle w) 4096;
                     CreateMediaStreamSource (1 + next_handle w)
                       (2 + next_handle w) st;
                     NewAudioContext (1 + next_handle w);
                     AppendCloseButton;
                     ConsoleLog (js "WebSocket connection created");
                     NewWebSocket (next_handle w);
                     SendResponse (js "stopped");
                     TabCaptureCapture ] ++ log w).
  { destruct w as [rs cls pc pg ct tc nh lg]. simpl in H. subst rs.
    split; reflexivity. }
  destruct E as [E L]. split; [exact E|].
  intros t HIn. rewrite (new_effects_app w w' _ L) in HIn.
  repeat (destruct HIn as [HIn|HIn]; [discriminate HIn|]). exact HIn.
Qed.

(** C7. When the capture API gives no stream, [startRecord] closes the
    window and does nothing else: the capture API was called once, no
    socket or other object was created, no session was stored and no
    callback was registered. *)
Theorem capture_unavailable_aborts (w : world) (rate : float) :
  startRecord_resume None rate w = (set_log (WindowClose :: log w) w, Return tt)
  /\ let w' := run [RuntimeMessage (js "start_capture");
                    CaptureResolved None rate] w in
     new_effects w w' = [WindowClose; TabCaptureCapture]
     /\ recordingSession w' = recordingSession w
     /\ closures w' = closures w
     /\ next_handle w' = next_handle w
     /\ pending_captures w' = pending_captures w.
Proof.
  split; [reflexivity|].
  cbv zeta. rewrite start_then_no_stream.
  split; [apply new_effects_app; destruct w; reflexivity|].
  destruct w; repeat split.
Qed.

(* ================================================================= *)
(** ** Export on stop *)

Lemma replace_colon_dot_nth (s : jsstring) (i : nat) :
  nth i (replace_colon_dot s) 0%N
  = (if ((nth i s 0 =? 58) || (nth i s 0 =? 46))%N then 45 else nth i s 0)%N.
Proof.
  unfold replace_colon_dot.
  change 0%N with ((fun c => if ((c =? 58) || (c =? 46))%N then 45%N else c)
                     0%N) at 1.
  now rewrite map_nth.
Qed.

Lemma stop_then_callback (w : world) (s : Session) (now : jsstring) :
  recordingSession w = Some s ->
  pending_gets w = [] ->
  log (run [RuntimeMessage (js "stop_capture"); StorageGetResult now] w)
  = (match currentTranscription w with
     | Some (c :: text) =>
         [DownloadsDownload (c :: text) (js "text/plain")
            (js "transcription-" ++ replace_colon_dot now ++ js ".txt") false]
     | _ => []
     end ++ SendResponse (js "stopped") :: StorageGet :: rev (teardown s))
    ++ log w.
Proof.
  intros Hs Hq. unfold run, fold_left, step at 2. rewrite stop_message.
  rewrite (stopRecording_active w s Hs). rewrite Hq.
  cbn [fst log set_log].
  destruct (currentTranscription w) as [[|c text]|] eqn:E;
    unfold step, dispatch, bind, gets, modify, storage_get_callback,
      downloadTranscription, emit, modify, ret;
    cbn; rewrite ?E; cbn; rewrite <- ?app_assoc; reflexivity.
Qed.

(** C8, as the code has it.  On a stop request with an active session the
    teardown steps run, the stored transcript is read, and when it is a
    non-empty string it is handed to the download facility as a text/plain
    file named transcription-<timestamp>.txt, the timestamp being the ISO
    time with every colon and dot replaced by a dash; when nothing or the
    empty string is stored, no file is produced. *)
Theorem stop_exports_nonempty_transcript (w : world) (s : Session)
  (now : jsstring)
  (Hs : recordingSession w = Some s) (Hq : pending_gets w = []) :
  new_effects w
    (run [RuntimeMessage (js "stop_capture"); StorageGetResult now] w)
  = match currentTranscription w with
    | Some (c :: text) =>
        [DownloadsDownload (c :: text) (js "text/plain")
           (js "transcription-" ++ replace_colon_dot now ++ js ".txt") false]
    | _ => []
    end ++ SendResponse (js "stopped") :: StorageGet :: rev (teardown s)
  /\ length (replace_colon_dot now) = length now
  /\ (forall i : nat,
        nth i (replace_colon_dot now) 0%N
        = (if ((nth i now 0 =? 58) || (nth i now 0 =? 46))%N
           then 45 else nth i now 0)%N)
  /\ replace_colon_dot (js "2024-01-02T03:04:05.678Z")
     = js "2024-01-02T03-04-05-678Z".
Proof.
  split; [apply new_effects_app; now apply stop_then_callback|].
  split; [apply length_map|].
  split; [intro i; apply replace_colon_dot_nth | reflexivity].
Qed.

Lemma stop_exports_nonempty_transcript_witness :
  new_effects (ex_started None (Some (js "hi there")))
    (run [RuntimeMessage (js "stop_capture"); StorageGetResult ex_now]
       (ex_started None (Some (js "hi there"))))
  = [DownloadsDownload (js "hi there") (js "text/plain")
       (js "transcription-2024-01-02T03-04-05-678Z.txt") false;
     SendResponse (js "stopped"); StorageGet; ContextClose 1;
     TrackStop 71; TrackStop 70; MediaStreamDisconnect 2;
     RecorderDisconnect 3; SocketClose 0].
Proof.
  exact (proj1 (stop_exports_nonempty_transcript
                  (ex_started None (Some (js "hi there")))
                  {| rs_stream := Some ex_stream; rs_socket := Some 0;
                     rs_recorder := Some 3; rs_context := Some 1;
                     rs_mediaStream := Some 2 |} ex_now eq_refl eq_refl)).
Defined.

(** C8 as stated fails: a session that is stopped while nothing is stored
    under [currentTranscription] produces no file. *)
Lemma export_on_every_stop_fails : ~ export_on_every_stop.
Proof.
  intro H.
  specialize (H (ex_started None None)
                {| rs_stream := Some ex_stream; rs_socket := Some 0;
                   rs_recorder := Some 3; rs_context := Some 1;
                   rs_mediaStream := Some 2 |} ex_now eq_refl eq_refl).
  vm_compute in H. discriminate H.
Qed.

(* ================================================================= *)
(** ** White space *)

Lemma collapsed_weaken (s : jsstring) :
  collapsed_from true s = true -> collapsed_from false s = true.
Proof.
  destruct s as [|c r]; simpl; [easy|].
  destruct (is_ws c); [|easy]. rewrite andb_false_r. discriminate.
Qed.

Lemma replace_ws_collapsed (b : bool) (s : jsstring) :
  collapsed_from b (replace_ws_from b s) = true.
Proof.
  revert b; induction s as [|c r IH]; intro b; simpl; [reflexivity|].
  destruct (is_ws c) eqn:E.
  - destruct b; [apply IH|]. simpl. now rewrite IH.
  - simpl. rewrite E. apply IH.
Qed.

Lemma replace_ws_fixes_collapsed (b : bool) (s : jsstring) :
  collapsed_from b s = true -> replace_ws_from b s = s.
Proof.
  revert b; induction s as [|c r IH]; intro b; simpl; [reflexivity|].
  destruct (is_ws c) eqn:E.
  - intro H. apply andb_prop in H as [H Hr]. apply andb_prop in H as [Hc Hb].
    apply N.eqb_eq in Hc. destruct b; [discriminate|].
    subst c. f_equal. now apply IH.
  - intro H. f_equal. now apply IH.
Qed.

Lemma trimStart_collapsed (b : bool) (s : jsstring) :
  collapsed_from b s = true -> collapsed_from true (trimStart s) = true.
Proof.
  revert b; induction s as [|c r IH]; intro b; simpl; [reflexivity|].
  destruct (is_ws c) eqn:E.
  - intro H. apply andb_prop in H as [_ Hr]. now apply (IH true).
  - intro H. simpl. now rewrite E.
Qed.

Lemma trimEnd_collapsed (b : bool) (s : jsstring) :
  collapsed_from b s = true -> collapsed_from b (trimEnd s) = true.
Proof.
  revert b; induction s as [|c r IH]; intro b; simpl; [reflexivity|].
  destruct (is_ws c) eqn:E; intro H.
  - apply andb_prop in H as [H Hr]. specialize (IH true Hr).
    destruct (trimEnd r) as [|d r'] eqn:T; [reflexivity|].
    change (collapsed_from b (c :: d :: r') = true).
    cbn [collapsed_from]. rewrite E, H. exact IH.
  - specialize (IH false H).
    destruct (trimEnd r) as [|d r'] eqn:T.
    + simpl. now rewrite E.
    + change (collapsed_from b (c :: d :: r') = true).
      cbn [collapsed_from]. rewrite E. exact IH.
Qed.

Lemma trimEnd_idempotent (s : jsstring) : trimEnd (trimEnd s) = trimEnd s.
Proof.
  induction s as [|c r IH]; simpl; [reflexivity|].
  destruct (trimEnd r) as [|d r'] eqn:T.
  - destruct (is_ws c) eqn:E; simpl; [reflexivity|]. now rewrite E.
  - change (trimEnd (c :: d :: r')) with
      (match trimEnd (d :: r') with
       | [] => if is_ws c then [] else [c]
       | x => c :: x
       end).
    now rewrite IH.
Qed.

Lemma trimEnd_snoc_ws (s : jsstring) (c : N) :
  is_ws c = true -> trimEnd (s ++ [c]) = trimEnd s.
Proof.
  intro E. induction s as [|a r IH]; simpl.
  - now rewrite E.
  - now rewrite IH.
Qed.

Lemma trimEnd_fixed_snoc (b : bool) (s : jsstring) :
  s <> [] -> trimEnd s = s -> collapsed_from b s = true ->
  collapsed_from b (s ++ [SPACE]) = true.
Proof.
  revert b; induction s as [|c r IH]; intros b Hne Hfix Hc; [easy|].
  cbn [trimEnd] in Hfix.
  destruct (trimEnd r) as [|x y] eqn:T.
  - destruct (is_ws c) eqn:E; [discriminate|].
    injection Hfix as Hr. subst r. simpl. now rewrite E.
  - injection Hfix as Hr.
    assert (Hne' : r <> []) by (rewrite <- Hr; discriminate).
    assert (Hfix' : trimEnd r = r) by (rewrite T; exact Hr).
    cbn [collapsed_from app] in *.
    destruct (is_ws c) eqn:E.
    + apply andb_prop in Hc as [Hc Hr']. rewrite Hc. simpl.
      now apply IH.
    + now apply IH.
Qed.

(** A string that [replace(/\s+/g,' ').trim()] produced is not changed by
    appending a space and doing the same again. *)
Lemma normalize_idempotent (x : jsstring) :
  trim (replace_ws (trim (replace_ws x) ++ js " " ++ []))
  = trim (replace_ws x).
Proof.
  set (n := trim (replace_ws x)).
  assert (Hc : collapsed_from true n = true).
  { unfold n, trim. apply trimEnd_collapsed.
    apply (trimStart_collapsed false). apply replace_ws_collapsed. }
  assert (Hf : trimEnd n = n) by (unfold n, trim; apply trimEnd_idempotent).
  change (js " " ++ []) with [SPACE].
  destruct n as [|c r] eqn:En; [reflexivity|].
  assert (Hc' : collapsed_from false ((c :: r) ++ [SPACE]) = true).
  { apply trimEnd_fixed_snoc; [discriminate | exact Hf |].
    now apply collapsed_weaken. }
  unfold replace_ws. rewrite (replace_ws_fixes_collapsed false _ Hc').
  unfold trim. simpl in Hc. simpl trimStart.
  destruct (is_ws c) eqn:E.
  - rewrite andb_false_r in Hc. discriminate.
  - change (c :: r ++ [SPACE]) with ((c :: r) ++ [SPACE]).
    rewrite trimEnd_snoc_ws by reflexivity. exact Hf.
Qed.

Lemma trimStart_keeps_text (s : jsstring) :
  filter (fun c => negb (is_ws c)) (trimStart s)
  = filter (fun c => negb (is_ws c)) s.
Proof.
  induction s as [|c r IH]; simpl; [reflexivity|].
  destruct (is_ws c) eqn:E; simpl; [exact IH|]. now rewrite E.
Qed.

Lemma trimEnd_keeps_text (s : jsstring) :
  filter (fun c => negb (is_ws c)) (trimEnd s)
  = filter (fun c => negb (is_ws c)) s.
Proof.
  induction s as [|c r IH]; simpl; [reflexivity|].
  destruct (trimEnd r) as [|d r'] eqn:T.
  - rewrite <- IH. destruct (is_ws c) eqn:E; simpl; rewrite ?E; reflexivity.
  - change (filter (fun c0 => negb (is_ws c0)) (c :: d :: r'))
      with (if negb (is_ws c)
            then c :: filter (fun c0 => negb (is_ws c0)) (d :: r')
            else filter (fun c0 => negb (is_ws c0)) (d :: r')).
    now rewrite IH.
Qed.

Lemma replace_ws_keeps_text (b : bool) (s : jsstring) :
  filter (fun c => negb (is_ws c)) (replace_ws_from b s)
  = filter (fun c => negb (is_ws c)) s.
Proof.
  revert b; induction s as [|c r IH]; intro b; simpl; [reflexivity|].
  destruct (is_ws c) eqn:E; simpl.
  - destruct b; simpl; apply IH.
  - rewrite E. simpl. now rewrite IH.
Qed.

(* ================================================================= *)
(** ** The reconciler *)

Lemma nth_error_replace_nth_eq {A : Type} (k : nat) (l : list A) (v c : A) :
  nth_error l k = Some c -> nth_error (replace_nth k l v) k = Some v.
Proof.
  revert k; induction l as [|a l IH]; intros [|k] H; simpl in *;
    try discriminate; [reflexivity | now apply IH].
Qed.

Lemma replace_nth_twice {A : Type} (k : nat) (l : list A) (a b : A) :
  replace_nth k (replace_nth k l a) b = replace_nth k l b.
Proof.
  revert k; induction l as [|x l IH]; intros [|k]; simpl; try reflexivity.
  now rewrite IH.
Qed.

Lemma step_partial (w : world) (k : nat) (c : Closure)
  (elements : list jsstring) (old : jsstring) :
  nth_error (closures w) k = Some c ->
  transcription_container w = Some old ->
  let pending := trim (join (js " ") elements) in
  let shown := displayed (completeTranscript c) pending in
  step w (partial_event k elements)
  = {| recordingSession := recordingSession w;
       closures := replace_nth k (closures w) (set_currentPartial pending c);
       pending_captures := pending_captures w;
       pending_gets := pending_gets w;
       currentTranscription := Some shown;
       transcription_container := Some shown;
       next_handle := next_handle w;
       log := StorageSet shown :: log w |}.
Proof.
  intros Hk Hd. destruct w as [rs cls pc pg ct tc nh lg]. simpl in Hk, Hd.
  subst tc.
  unfold step, partial_event, dispatch, with_closure, bind, gets.
  cbn [closures fst snd]. rewrite Hk.
  unfold socket_onmessage, updateTranscriptionUI, update_closure, bind, gets,
    modify, deref, ret, emit.
  cbn. rewrite Hk. reflexivity.
Qed.

Lemma step_final (w : world) (k : nat) (c : Closure)
  (elements : list jsstring) (old : jsstring) :
  nth_error (closures w) k = Some c ->
  transcription_container w = Some old ->
  let committed :=
    trim (replace_ws (completeTranscript c ++ js " "
                      ++ join (js " ") elements)) in
  step w (final_event k elements)
  = {| recordingSession := recordingSession w;
       closures :=
         replace_nth k (closures w)
           (set_currentPartial [] (set_completeTranscript committed c));
       pending_captures := pending_captures w;
       pending_gets := pending_gets w;
       currentTranscription := Some committed;
       transcription_container := Some committed;
       next_handle := next_handle w;
       log := StorageSet committed :: log w |}.
Proof.
  intros Hk Hd. destruct w as [rs cls pc pg ct tc nh lg]. simpl in Hk, Hd.
  subst tc.
  unfold step, final_event, dispatch, with_closure, bind, gets.
  cbn [closures fst snd]. rewrite Hk.
  unfold socket_onmessage, updateTranscriptionUI, update_closure, bind, gets,
    modify, deref, ret, emit.
  cbn. rewrite Hk. cbn.
  rewrite (nth_error_replace_nth_eq k cls _ c Hk). cbn.
  rewrite replace_nth_twice. reflexivity.
Qed.

Lemma after_partial (w : world) (k : nat) (c : Closure)
  (elements : list jsstring) (old : jsstring) :
  nth_error (closures w) k = Some c ->
  transcription_container w = Some old ->
  let pending := trim (join (js " ") elements) in
  let w' := step w (partial_event k elements) in
  nth_error (closures w') k = Some (set_currentPartial pending c)
  /\ transcription_container w'
     = Some (displayed (completeTranscript c) pending)
  /\ currentTranscription w'
     = Some (displayed (completeTranscript c) pending).
Proof.
  intros Hk Hd. cbv zeta. rewrite (step_partial w k c elements old Hk Hd).
  cbn [closures transcription_container currentTranscription].
  split; [now apply (nth_error_replace_nth_eq k _ _ c) | split; reflexivity].
Qed.

Lemma after_final (w : world) (k : nat) (c : Closure)
  (elements : list jsstring) (old : jsstring) :
  nth_error (closures w) k = Some c ->
  transcription_container w = Some old ->
  let committed :=
    trim (replace_ws (completeTranscript c ++ js " "
                      ++ join (js " ") elements)) in
  let w' := step w (final_event k elements) in
  nth_error (closures w') k
  = Some (set_currentPartial [] (set_completeTranscript committed c))
  /\ transcription_container w' = Some committed
  /\ currentTranscription w' = Some committed.
Proof.
  intros Hk Hd. cbv zeta. rewrite (step_final w k c elements old Hk Hd).
  cbn [closures transcription_container currentTranscription].
  split; [now apply (nth_error_replace_nth_eq k _ _ c) | split; reflexivity].
Qed.

(** On a page without the container [updateTranscriptionUI] creates one
    and then throws on the [null] it had looked up: nothing is shown or
    stored by that call.  (C6 speaks of a page that has the container.) *)
Remark update_without_container_throws (w : world) (text : jsstring) :
  transcription_container w = None ->
  updateTranscriptionUI text w
  = (set_transcription_container (Some [])
       (set_log (CreateContainer :: log w) w), Throw TypeError).
Proof.
  intro H. destruct w as [rs cls pc pg ct tc nh lg]. simpl in H. subst tc.
  reflexivity.
Qed.

(** C6. After a partial or a final event the text shown (and stored) is
    the committed text, a space and the pending text with [\s+] replaced by
    one space and then trimmed.  That text has white space only as single
    spaces between other code units, none at either end, and the same
    other code units in the same order.  Committed "a  b" with pending
    " c" shows "a b c". *)
Theorem shown_is_normalized_join (w : world) (k : nat) (c : Closure)
  (elements : list jsstring) (old : jsstring)
  (Hk : nth_error (closures w) k = Some c)
  (Hd : transcription_container w = Some old) :
  (forall w' : world,
     w' = step w (partial_event k elements)
     \/ w' = step w (final_event k elements) ->
     exists committed pending : jsstring,
       transcript_of k w' = Some (committed, pending)
       /\ transcription_container w' = Some (displayed committed pending)
       /\ currentTranscription w' = Some (displayed committed pending))
  /\ (forall committed pending : jsstring,
        displayed committed pending
        = trim (replace_ws (committed ++ [SPACE] ++ pending))
        /\ collapsed_from true (displayed committed pending) = true
        /\ trimEnd (displayed committed pending) = displayed committed pending
        /\ filter (fun u => negb (is_ws u)) (displayed committed pending)
           = filter (fun u => negb (is_ws u)) (committed ++ pending))
  /\ displayed (js "a  b") (js " c") = js "a b c".
Proof.
  split; [|split; [|reflexivity]].
  - intros w' [-> | ->].
    + destruct (after_partial w k c elements old Hk Hd) as (K & D & S).
      exists (completeTranscript c), (trim (join (js " ") elements)).
      unfold transcript_of. rewrite K, D, S. repeat split.
    + destruct (after_final w k c elements old Hk Hd) as (K & D & S).
      set (committed := trim (replace_ws (completeTranscript c ++ js " "
                                          ++ join (js " ") elements))) in *.
      exists committed, [].
      unfold transcript_of. rewrite K, D, S.
      unfold displayed, committed. rewrite normalize_idempotent.
      repeat split.
  - intros committed pending. unfold displayed, trim, replace_ws.
    split; [reflexivity|]. split; [|split].
    + apply trimEnd_collapsed. apply (trimStart_collapsed false).
      apply replace_ws_collapsed.
    + apply trimEnd_idempotent.
    + rewrite trimEnd_keeps_text, trimStart_keeps_text, replace_ws_keeps_text.
      rewrite !filter_app. reflexivity.
Qed.

Lemma shown_is_normalized_join_witness :
  exists committed pending : jsstring,
    transcript_of 0
      (step (ex_started (Some []) None) (partial_event 0 [js "a  b"; js " c"]))
    = Some (committed, pending)
    /\ transcription_container
         (step (ex_started (Some []) None)
            (partial_event 0 [js "a  b"; js " c"]))
       = Some (displayed committed pending)
    /\ currentTranscription
         (step (ex_started (Some []) None)
            (partial_event 0 [js "a  b"; js " c"]))
       = Some (displayed committed pending).
Proof.
  exact (proj1 (shown_is_normalized_join (ex_started (Some []) None) 0
                  {| cl_socket := 0; cl_context := Some 1;
                     cl_sampleRate := 44100%float;
                     isServerReady := false; completeTranscript := [];
                     currentPartial := []; audioDataCache := [] |}
                  [js "a  b"; js " c"] [] eq_refl eq_refl) _
               (or_introl eq_refl)).
Defined.

(* ================================================================= *)
(** ** Handlers that neither touch a ready flag nor send *)

Lemma quiet_refl (w : world) : quiet w w.
Proof. repeat split; auto. Qed.

Lemma quiet_trans (a b c : world) : quiet a b -> quiet b c -> quiet a c.
Proof.
  intros (F1 & S1 & L1) (F2 & S2 & L2). repeat split.
  - now rewrite F2. 
  - now rewrite S2.
  - intros h f H. auto.
Qed.

Lemma quiet_bind {A B : Type} (m : M A) (f : A -> M B) :
  quietM m -> (forall a, quietM (f a)) -> quietM (bind m f).
Proof.
  intros Hm Hf w. unfold bind. specialize (Hm w).
  destruct (m w) as [w' [a|e]]; simpl in *; [|exact Hm].
  eapply quiet_trans; [exact Hm | apply Hf].
Qed.

Lemma quiet_ret {A : Type} (a : A) : quietM (ret a).
Proof. intro w. apply quiet_refl. Qed.

Lemma quiet_throw {A : Type} (e : error) : quietM (@throw A e).
Proof. intro w. apply quiet_refl. Qed.

Lemma quiet_gets {A : Type} (f : world -> A) : quietM (gets f).
Proof. intro w. apply quiet_refl. Qed.

Lemma quiet_lift {A : Type} (r : result A) : quietM (lift r).
Proof. intro w. apply quiet_refl. Qed.

Lemma quiet_modify (f : world -> world) :
  (forall w, closures (f w) = closures w /\ log (f w) = log w) ->
  quietM (modify f).
Proof.
  intros H w. destruct (H w) as [Hc Hl]. unfold quiet, ready_flags, sockets.
  simpl. rewrite Hc, Hl. auto.
Qed.

Lemma quiet_emit (x : effect) :
  (forall h f, x <> SocketSend h f) -> quietM (emit x).
Proof.
  intros H w. unfold quiet, ready_flags, sockets. simpl.
  repeat split. intros h f [E|HIn]; [now apply H in E | exact HIn].
Qed.

Lemma quiet_fresh : quietM fresh.
Proof. intro w. repeat split; auto. Qed.

Lemma quiet_deref {A : Type} (o : option A) : quietM (deref o).
Proof. destruct o; [apply quiet_ret | apply quiet_throw]. Qed.

Lemma quiet_forEach {A : Type} (f : A -> M unit) (l : list A) :
  (forall a, quietM (f a)) -> quietM (forEach f l).
Proof.
  intro H. induction l as [|a l IH]; simpl.
  - apply quiet_ret.
  - apply quiet_bind; [apply H | intro; exact IH].
Qed.

Lemma map_replace_nth_same {A B : Type} (g : A -> B) (k : nat) (l : list A)
  (v c : A) :
  nth_error l k = Some c -> g v = g c ->
  map g (replace_nth k l v) = map g l.
Proof.
  revert k; induction l as [|a l IH]; intros [|k] H E; simpl in *;
    try discriminate.
  - injection H as ->. now rewrite E.
  - f_equal. now apply IH.
Qed.

Lemma quiet_update_closure (k : nat) (f : Closure -> Closure) :
  (forall c, isServerReady (f c) = isServerReady c
             /\ cl_socket (f c) = cl_socket c) ->
  quietM (update_closure k f).
Proof.
  intros H w. unfold update_closure, modify. simpl.
  destruct (nth_error (closures w) k) as [c|] eqn:E; [|apply quiet_refl].
  destruct (H c) as [Hr Hs].
  unfold quiet, ready_flags, sockets. simpl.
  rewrite (map_replace_nth_same isServerReady k _ _ c E Hr).
  rewrite (map_replace_nth_same cl_socket k _ _ c E Hs). auto.
Qed.

Ltac quiet_step :=
  first
    [ apply quiet_bind; [|intro]
    | apply quiet_ret
    | apply quiet_throw
    | apply quiet_gets
    | apply quiet_lift
    | apply quiet_fresh
    | apply quiet_deref
    | apply quiet_emit; intros; discriminate
    | apply quiet_modify; intro; split; reflexivity
    | apply quiet_update_closure; intro; split; reflexivity
    | apply quiet_forEach; intro
    | match goal with
      | |- quietM (match ?x with _ => _ end) => destruct x
      | |- quietM (if ?x then _ else _) => destruct x
      end ].

Ltac quiet_auto := repeat quiet_step.

Lemma quiet_updateTranscriptionUI (text : jsstring) :
  quietM (updateTranscriptionUI text).
Proof. unfold updateTranscriptionUI. quiet_auto. Qed.

Lemma quiet_stopRecording : quietM stopRecording.
Proof. unfold stopRecording, if_truthy. quiet_auto. Qed.

Lemma quiet_socket_onmessage (k : nat) (c : Closure) (d : option message) :
  quietM (socket_onmessage k c d).
Proof.
  unfold socket_onmessage. quiet_auto; apply quiet_updateTranscriptionUI.
Qed.

Lemma quiet_runtime_onMessage (type : jsstring) :
  quietM (runtime_onMessage type).
Proof.
  unfold runtime_onMessage.
  destruct (jseqb type (js "start_capture")).
  - unfold startRecord. quiet_auto.
  - destruct (jseqb type (js "stop_capture")); [|apply quiet_ret].
    apply quiet_bind; [apply quiet_stopRecording | intro; quiet_auto].
Qed.

Lemma quiet_storage_get_callback (now : jsstring) (r : option jsstring) :
  quietM (storage_get_callback now r).
Proof. unfold storage_get_callback, downloadTranscription. quiet_auto. Qed.

(* ================================================================= *)
(** ** What each event does to the ready flags and to the sent frames *)

Lemma map_replace_nth {A B : Type} (g : A -> B) (k : nat) (l : list A)
  (v : A) :
  map g (replace_nth k l v) = replace_nth k (map g l) (g v).
Proof.
  revert k; induction l as [|a l IH]; intros [|k]; simpl; try reflexivity.
  now rewrite IH.
Qed.

Lemma replace_nth_beyond {A : Type} (k : nat) (l : list A) (v : A) :
  nth_error l k = None -> replace_nth k l v = l.
Proof.
  revert k; induction l as [|a l IH]; intros [|k] H; simpl in *;
    try reflexivity; [discriminate | now rewrite IH].
Qed.

Lemma nth_error_replace_nth_inv {A : Type} (k j : nat) (l : list A)
  (v x : A) :
  nth_error (replace_nth j l v) k = Some x ->
  (k = j /\ x = v) \/ nth_error l k = Some x.
Proof.
  revert k j; induction l as [|a l IH]; intros [|k] [|j] H; simpl in *;
    try discriminate; auto.
  - injection H as <-. auto.
  - destruct (IH k j H) as [[-> ->]|H']; auto.
Qed.

Lemma step_SocketOpen (w : world) (k : nat) :
  ready_flags (step w (SocketOpen k)) = replace_nth k (ready_flags w) true
  /\ sockets (step w (SocketOpen k)) = sockets w
  /\ sends_kept w (step w (SocketOpen k)).
Proof.
  unfold step, dispatch, with_closure, bind, gets, ready_flags, sockets,
    sends_kept. cbn [fst snd].
  destruct (nth_error (closures w) k) as [c|] eqn:E.
  - unfold socket_onopen, update_closure, bind, modify, emit, modify.
    cbn. rewrite E. cbn. rewrite map_replace_nth. cbn.
    rewrite (map_replace_nth_same cl_socket k _ (set_isServerReady true c) c
               E eq_refl).
    repeat split. intros h f [H|H]; [discriminate | exact H].
  - cbn. rewrite replace_nth_beyond; [auto|].
    now rewrite nth_error_map, E.
Qed.

Lemma step_CaptureResolved (w : world) (stream : option MediaStream)
  (rate : float) :
  quiet w (step w (CaptureResolved stream rate))
  \/ (ready_flags (step w (CaptureResolved stream rate))
      = ready_flags w ++ [false]
      /\ sockets (step w (CaptureResolved stream rate))
         = sockets w ++ [next_handle w]
      /\ sends_kept w (step w (CaptureResolved stream rate))).
Proof.
  destruct w as [rs cls pc pg ct tc nh lg].
  destruct pc as [|pc]; [left; apply quiet_refl|].
  destruct stream as [st|].
  - right. unfold ready_flags, sockets, sends_kept. cbn.
    rewrite !map_app. repeat split.
    intros h f H.
    repeat (destruct H as [H|H]; [discriminate|]). exact H.
  - left. unfold quiet, ready_flags, sockets. cbn. repeat split.
    intros h f [H|H]; [discriminate | exact H].
Qed.

Lemma step_AudioProcess (w : world) (k : nat) (inputData : list float) :
  step w (AudioProcess k inputData) = w
  \/ exists c : Closure,
       nth_error (closures w) k = Some c
       /\ isServerReady c = true
       /\ ready_flags (step w (AudioProcess k inputData)) = ready_flags w
       /\ sockets (step w (AudioProcess k inputData)) = sockets w
       /\ forall h f,
            In (SocketSend h f) (log (step w (AudioProcess k inputData))) ->
            (h = cl_socket c
             /\ exists a, resampleTo16kHZ inputData (Some (cl_sampleRate c))
                          = Return a
                          /\ f = encode_frame a)
            \/ In (SocketSend h f) (log w).
Proof.
  unfold step, dispatch, with_closure, bind, gets. cbn [fst snd].
  destruct (nth_error (closures w) k) as [c|] eqn:E; [|now left].
  unfold recorder_onaudioprocess.
  destruct (cl_context c); [|now left].
  destruct (isServerReady c) eqn:R; [|now left]. cbn [negb].
  unfold bind, lift.
  destruct (resampleTo16kHZ inputData (Some (cl_sampleRate c))) as [a|err]
    eqn:Ra; [|now left].
  right. exists c. split; [reflexivity|]. split; [exact R|].
  unfold update_closure, emit, modify, ready_flags, sockets.
  cbn. rewrite E. cbn.
  rewrite (map_replace_nth_same isServerReady k _
             (set_audioDataCache (audioDataCache c ++ [inputData]) c) c
             E eq_refl).
  rewrite (map_replace_nth_same cl_socket k _
             (set_audioDataCache (audioDataCache c ++ [inputData]) c) c
             E eq_refl).
  repeat split.
  intros h f [H|[H|H]]; [discriminate | | now right].
  injection H as -> <-. left. split; [reflexivity|]. now exists a.
Qed.

Lemma step_quiet (w : world) (e : event) :
  match e with
  | SocketOpen _ | CaptureResolved _ _ | AudioProcess _ _ => True
  | _ => quiet w (step w e)
  end.
Proof.
  destruct e as [type| | |k d| |now|]; try exact I; unfold step, dispatch.
  - apply quiet_runtime_onMessage.
  - unfold with_closure, bind, gets. cbn [fst].
    destruct (nth_error (closures w) k); [|apply quiet_refl].
    apply quiet_socket_onmessage.
  - unfold bind, gets. cbn [fst].
    destruct (pending_gets w) as [|r rest] eqn:E; [apply quiet_refl|].
    apply (quiet_bind (modify (set_pending_gets rest))
             (fun _ => storage_get_callback now r)).
    + apply quiet_modify. intro; split; reflexivity.
    + intro. apply quiet_storage_get_callback.
  - apply (quiet_emit WindowClose). intros; discriminate.
Qed.

(** What one event may do: set the flag of its own connection
    ([SocketOpen]), add a closure that is not ready ([CaptureResolved]),
    send on the connection of a closure that is ready ([AudioProcess]), or
    none of these. *)
Lemma step_kinds (w : world) (e : event) :
  (ready_flags (step w e) = ready_flags w
   \/ (exists k, e = SocketOpen k
                 /\ ready_flags (step w e) = replace_nth k (ready_flags w) true)
   \/ ready_flags (step w e) = ready_flags w ++ [false])
  /\ (sends_kept w (step w e)
      \/ exists k inputData c,
           e = AudioProcess k inputData
           /\ nth_error (closures w) k = Some c
           /\ isServerReady c = true
           /\ forall h f, In (SocketSend h f) (log (step w e)) ->
                (h = cl_socket c
                 /\ exists a,
                      resampleTo16kHZ inputData (Some (cl_sampleRate c))
                      = Return a
                      /\ f = encode_frame a)
                \/ In (SocketSend h f) (log w)).
Proof.
  pose proof (step_quiet w e) as Q.
  destruct e as [type|stream rate|k|k d|k inputData|now|].
  - destruct Q as (F & _ & L). split; [now left | now left].
  - destruct (step_CaptureResolved w stream rate) as [(F & _ & L)|(F & _ & L)].
    + split; [now left | now left].
    + split; [now right; right | now left].
  - destruct (step_SocketOpen w k) as (F & _ & L).
    split; [right; left; now exists k | now left].
  - destruct Q as (F & _ & L). split; [now left | now left].
  - destruct (step_AudioProcess w k inputData) as [E|(c & Hc & R & F & _ & L)].
    + rewrite E. split; [now left | left; intros h f H; exact H].
    + split; [now left|]. right. now exists k, inputData, c.
  - destruct Q as (F & _ & L). split; [now left | now left].
  - destruct Q as (F & _ & L). split; [now left | now left].
Qed.

Lemma flag_needs_open (w : world) (e : event) (k : nat) :
  nth_error (ready_flags (step w e)) k = Some true ->
  e = SocketOpen k \/ nth_error (ready_flags w) k = Some true.
Proof.
  intro H. destruct (step_kinds w e) as [[F|[(j & -> & F)|F]] _];
    rewrite F in H.
  - now right.
  - apply nth_error_replace_nth_inv in H as [[-> _]|H]; auto.
  - right. destruct (Nat.lt_ge_cases k (length (ready_flags w))) as [Lt|Ge].
    + now rewrite nth_error_app1 in H.
    + rewrite nth_error_app2 in H by exact Ge.
      destruct (k - length (ready_flags w)) as [|[|n]]; discriminate.
Qed.

(** A closure is ready only after its connection has signalled open. *)
Lemma ready_after_open (container stored : option jsstring)
  (evs : list event) (k : nat) :
  nth_error (ready_flags (run evs (initial_world container stored))) k
  = Some true ->
  In (SocketOpen k) evs.
Proof.
  induction evs as [|e evs IH] using rev_ind; intro H.
  - destruct k; discriminate.
  - rewrite run_snoc in H. apply in_or_app.
    destruct (flag_needs_open _ e k H) as [->|H']; [right; now left|].
    left. now apply IH.
Qed.

Lemma sent_after_open (container stored : option jsstring)
  (evs : list event) (h : nat) (f : list Z) :
  In (SocketSend h f) (log (run evs (initial_world container stored))) ->
  exists pre k inputData post c a,
    evs = pre ++ AudioProcess k inputData :: post
    /\ nth_error (closures (run pre (initial_world container stored))) k
       = Some c
    /\ cl_socket c = h
    /\ In (SocketOpen k) pre
    /\ resampleTo16kHZ inputData (Some (cl_sampleRate c)) = Return a
    /\ f = encode_frame a.
Proof.
  induction evs as [|e evs IH] using rev_ind; intro H; [destruct H|].
  rewrite run_snoc in H.
  set (w := run evs (initial_world container stored)) in *.
  assert (Old : In (SocketSend h f) (log w) ->
                exists pre k inputData post c a,
                  evs ++ [e] = pre ++ AudioProcess k inputData :: post
                  /\ nth_error
                       (closures (run pre (initial_world container stored))) k
                     = Some c
                  /\ cl_socket c = h
                  /\ In (SocketOpen k) pre
                  /\ resampleTo16kHZ inputData (Some (cl_sampleRate c))
                     = Return a
                  /\ f = encode_frame a).
  { intro HIn.
    destruct (IH HIn) as (pre & k & i & post & c & a & -> & R).
    exists pre, k, i, (post ++ [e]), c, a. split; [|exact R].
    now rewrite <- app_assoc. }
  destruct (step_kinds w e) as [_ [K|(k & i & c & -> & Hc & R & L)]].
  - apply Old, K, H.
  - destruct (L h f H) as [(-> & a & Ra & ->)|HIn]; [|now apply Old].
    exists evs, k, i, [], c, a. repeat split; try assumption.
    apply (ready_after_open container stored).
    fold w. unfold ready_flags. now rewrite nth_error_map, Hc, <- R.
Qed.

(** C4. Every frame in the log of the connection [h] was sent by an audio
    callback that ran after the open callback of that connection, and is
    the encoding of the resampled input of that callback.  An audio
    callback of a closure that is not ready leaves the world as it was:
    nothing sent, nothing added to the cache.  A ready flag goes from unset
    to set only in the open callback of its own connection. *)
Theorem no_frame_before_open (container stored : option jsstring)
  (evs : list event) (h : nat) (f : list Z)
  (H : In (SocketSend h f) (log (run evs (initial_world container stored)))) :
  (exists pre k inputData post c a,
     evs = pre ++ AudioProcess k inputData :: post
     /\ nth_error (closures (run pre (initial_world container stored))) k
        = Some c
     /\ cl_socket c = h
     /\ In (SocketOpen k) pre
     /\ resampleTo16kHZ inputData (Some (cl_sampleRate c)) = Return a
     /\ f = encode_frame a)
  /\ (forall (w : world) (k : nat) (inputData : list float) (c : Closure),
        nth_error (closures w) k = Some c ->
        isServerReady c = false ->
        dispatch (AudioProcess k inputData) w = (w, Return tt))
  /\ (forall (w : world) (e : event) (k : nat),
        nth_error (ready_flags w) k = Some false ->
        nth_error (ready_flags (step w e)) k = Some true ->
        e = SocketOpen k).
Proof.
  split; [now apply sent_after_open|]. split.
  - intros w k inputData c Hc R.
    unfold dispatch, with_closure, bind, gets. rewrite Hc.
    unfold recorder_onaudioprocess. rewrite R.
    now destruct (cl_context c).
  - intros w e k H0 H1.
    destruct (flag_needs_open w e k H1) as [E|E]; [exact E|].
    rewrite E in H0. discriminate.
Qed.

Lemma no_frame_before_open_witness :
  exists pre k inputData post c a,
    [RuntimeMessage (js "start_capture");
     CaptureResolved (Some ex_stream) 16000%float;
     AudioProcess 0 [1; 0; -1]%float;
     SocketOpen 0;
     AudioProcess 0 [1; 0; -1]%float]
    = pre ++ AudioProcess k inputData :: post
    /\ nth_error (closures (run pre (initial_world None None))) k = Some c
    /\ cl_socket c = 0
    /\ In (SocketOpen k) pre
    /\ resampleTo16kHZ inputData (Some (cl_sampleRate c)) = Return a
    /\ [32767; 0; -32768]%Z = encode_frame a.
Proof.
  refine (proj1 (no_frame_before_open None None _ 0 [32767; 0; -32768]%Z _)).
  vm_compute. right. left. reflexivity.
Defined.

(* ================================================================= *)
(** ** Typed array stores *)

Lemma replace_nth_length {A : Type} (k : nat) (l : list A) (v : A) :
  length (replace_nth k l v) = length l.
Proof.
  revert k; induction l as [|a l IH]; intros [|k]; simpl; auto.
Qed.

Lemma nth_replace_nth {A : Type} (k j : nat) (l : list A) (v d : A) :
  k < length l ->
  nth j (replace_nth k l v) d = if Nat.eqb j k then v else nth j l d.
Proof.
  revert k j; induction l as [|a l IH]; intros [|k] [|j] H; simpl in *;
    try lia; try reflexivity.
  apply IH. lia.
Qed.

Lemma f32_set_length (a : list float) (i : Z) (v : float) :
  length (f32_set a i v) = length a.
Proof.
  unfold f32_set.
  destruct ((0 <=? i) && (i <? Z.of_nat (length a)))%Z; [|reflexivity].
  apply replace_nth_length.
Qed.

Lemma f32_set_same (a : list float) (i : Z) (v : float) :
  (0 <= i < Z.of_nat (length a))%Z ->
  nth (Z.to_nat i) (f32_set a i v) nan = fround v.
Proof.
  intro H. unfold f32_set.
  replace ((0 <=? i) && (i <? Z.of_nat (length a)))%Z with true
    by (symmetry; apply andb_true_intro; split;
        [apply Z.leb_le | apply Z.ltb_lt]; lia).
  rewrite nth_replace_nth by lia. now rewrite Nat.eqb_refl.
Qed.

Lemma f32_set_other (a : list float) (i j : Z) (v : float) :
  (0 <= j)%Z -> j <> i ->
  nth (Z.to_nat j) (f32_set a i v) nan = nth (Z.to_nat j) a nan.
Proof.
  intros Hj Hne. unfold f32_set.
  destruct ((0 <=? i) && (i <? Z.of_nat (length a)))%Z eqn:E; [|reflexivity].
  apply andb_prop in E as [E1 E2].
  apply Z.leb_le in E1. apply Z.ltb_lt in E2.
  rewrite nth_replace_nth by lia.
  destruct (Nat.eqb_spec (Z.to_nat j) (Z.to_nat i)) as [E|E]; [|reflexivity].
  exfalso. apply Hne. lia.
Qed.

Section Loop.

Variable g : Z -> float.

Let body (r : list float) (i : Z) : list float := f32_set r i (g i).

Lemma loop_length (l : list Z) (r : list float) :
  length (fold_left body l r) = length r.
Proof.
  revert r; induction l as [|i l IH]; intro r; simpl; [reflexivity|].
  rewrite IH. apply f32_set_length.
Qed.

Lemma loop_untouched (l : list Z) (r : list float) (j : Z) :
  (0 <= j)%Z -> ~ In j l ->
  nth (Z.to_nat j) (fold_left body l r) nan = nth (Z.to_nat j) r nan.
Proof.
  intro Hj. revert r; induction l as [|i l IH]; intros r Hn; simpl;
    [reflexivity|].
  rewrite IH by (intro; apply Hn; now right).
  apply f32_set_other; [exact Hj|]. intro E. apply Hn. now left.
Qed.

Lemma loop_written (l : list Z) (r : list float) (j : Z) :
  (0 <= j < Z.of_nat (length r))%Z -> In j l ->
  nth (Z.to_nat j) (fold_left body l r) nan = fround (g j).
Proof.
  revert r; induction l as [|i l IH]; intros r Hj HIn; [destruct HIn|].
  simpl fold_left.
  destruct (in_dec Z.eq_dec j l) as [Hl|Hl].
  - apply IH; [|exact Hl]. unfold body. now rewrite f32_set_length.
  - destruct HIn as [->|HIn]; [|contradiction].
    rewrite loop_untouched by (lia || exact Hl).
    now apply f32_set_same.
Qed.

End Loop.

Lemma In_Zseq (lo : Z) (len : nat) (j : Z) :
  In j (Zseq lo len) <-> (lo <= j < lo + Z.of_nat len)%Z.
Proof.
  unfold Zseq. rewrite in_map_iff. split.
  - intros (k & <- & Hk). apply in_seq in Hk. lia.
  - intro H. exists (Z.to_nat (j - lo)). split; [lia|].
    apply in_seq. lia.
Qed.

Lemma Float32Array_from_float32 (l : list float) :
  Forall is_float32 l -> Float32Array_from l = l.
Proof.
  unfold Float32Array_from. induction 1 as [|x l Hx _ IH]; simpl;
    [reflexivity|]. now rewrite Hx, IH.
Qed.

Lemma ta_get_nth (a : list float) (i : Z) :
  (0 <= i)%Z -> ta_get a i = nth (Z.to_nat i) a nan.
Proof.
  intro H. unfold ta_get.
  destruct ((0 <=? i) && (i <? Z.of_nat (length a)))%Z eqn:E; [reflexivity|].
  symmetry. apply nth_overflow.
  apply andb_false_iff in E as [E|E];
    [apply Z.leb_gt in E | apply Z.ltb_ge in E]; lia.
Qed.

Lemma Forall_nth_float32 (l : list float) (k : nat) :
  Forall is_float32 l -> is_float32 (nth k l nan).
Proof.
  intro H. destruct (Nat.lt_ge_cases k (length l)) as [Lt|Ge].
  - revert k Lt. induction H as [|x l Hx _ IH]; intros [|k] Lt; simpl in *;
      try lia; [exact Hx | apply IH; lia].
  - rewrite nth_overflow by exact Ge. reflexivity.
Qed.

Lemma new_Float32Array_length (len : float) (n : Z) :
  ToIndex len = Some n ->
  exists a, new_Float32Array len = Some a
            /\ a = repeat zero (Z.to_nat n)
            /\ (0 <= n)%Z.
Proof.
  intro H. unfold new_Float32Array. rewrite H.
  exists (repeat zero (Z.to_nat n)). repeat split.
  unfold ToIndex in H. destruct (ToInteger len) as [z|]; [|discriminate].
  destruct ((z <? 0) || (2 ^ 53 - 1 <? z))%Z eqn:E; [discriminate|].
  injection H as <-. apply orb_false_iff in E as [E _].
  now apply Z.ltb_ge in E.
Qed.

(* ================================================================= *)
(** ** resampleTo16kHZ *)

Lemma Float32Array_from_length (l : list float) :
  length (Float32Array_from l) = length l.
Proof. apply length_map. Qed.

Lemma targetLength_of_data (audioData : list float) (orig : float) :
  targetLength_of (Float32Array_from audioData) orig
  = targetLength_of audioData orig.
Proof. unfold targetLength_of. now rewrite Float32Array_from_length. Qed.

Lemma resample_unfold (audioData : list float) (orig : float) (n : Z) :
  ToIndex (targetLength_of audioData orig) = Some n ->
  let data := Float32Array_from audioData in
  let L := Z.of_nat (length audioData) in
  let springFactor := springFactor_of data (targetLength_of audioData orig) in
  resampleTo16kHZ audioData (Some orig)
  = Return
      (fold_left
         (fun r i => f32_set r i (interpolate data springFactor i))
         (Zseq 1 (Z.to_nat (n - 2)))
         (f32_set (f32_set (repeat zero (Z.to_nat n)) 0 (ta_get data 0))
                  (n - 1) (ta_get data (L - 1))))
  /\ (0 <= n)%Z.
Proof.
  intros HT. cbv zeta. unfold resampleTo16kHZ.
  rewrite targetLength_of_data, Float32Array_from_length.
  destruct (new_Float32Array_length _ _ HT) as (a & -> & -> & Hn).
  rewrite repeat_length, Z2Nat.id by exact Hn. split; [reflexivity|exact Hn].
Qed.

(** Samples that are not 32-bit floats are rounded on entry, by
    [new Float32Array(audioData)]: the ends of the result are then the
    rounded ends of the input. *)
Remark resample_rounds_doubles :
  resampleTo16kHZ [0x1.999999999999ap-4; 0x1.999999999999ap-3]%float
    (Some 16000%float)
  = Return [0x1.99999ap-4; 0x1.99999ap-3]%float.
Proof. reflexivity. Qed.

Lemma f32_set_singleton (x v : float) : f32_set [x] 0 v = [fround v].
Proof. reflexivity. Qed.

Lemma nth_pred_length (l : list float) :
  nth (length l - 1) l nan = last l nan.
Proof.
  induction l as [|a l IH]; [reflexivity|].
  destruct l as [|b l']; [reflexivity|].
  change (last (a :: b :: l') nan) with (last (b :: l') nan).
  rewrite <- IH. simpl. now rewrite Nat.sub_0_r.
Qed.

Lemma zero_times (y : float) :
  let p := (Z2F 0 * y)%float in
  Prim2SF p = S754_nan \/ exists s, Prim2SF p = S754_zero s.
Proof.
  cbv zeta. rewrite mul_spec.
  change (Prim2SF (Z2F 0)) with (S754_zero false).
  destruct (Prim2SF y) as [s|s| |s m e]; simpl; eauto.
Qed.

Lemma resample_empty (origSampleRate : option float) :
  resampleTo16kHZ [] origSampleRate = Return [].
Proof.
  unfold resampleTo16kHZ, targetLength_of, new_Float32Array, ToIndex,
    ToInteger, Math_round.
  cbn [Float32Array_from map length Z.of_nat].
  set (orig := match origSampleRate with Some r => r | None => 44100%float end).
  destruct (zero_times (16000 / orig)%float) as [E|[s E]]; cbv zeta in E.
  - rewrite E, E. reflexivity.
  - rewrite E, E. reflexivity.
Qed.

(** C9. For a non-empty input and a computed target length of exactly 1,
    [resampleTo16kHZ] returns the one-element array holding [data[L-1]],
    the last element of the [Float32Array] made of the input: the store of
    the last sample at index 0 comes after the store of the first.  For
    32-bit float samples that is the last sample of the input.  For an
    empty input the result is empty, whatever the rate. *)
Theorem resample_single_and_empty (audioData : list float) (orig : float)
  (HL : audioData <> [])
  (HT : ToIndex (targetLength_of audioData orig) = Some 1%Z) :
  resampleTo16kHZ audioData (Some orig)
  = Return [fround (last (Float32Array_from audioData) nan)]
  /\ (Forall is_float32 audioData ->
      resampleTo16kHZ audioData (Some orig) = Return [last audioData nan])
  /\ forall origSampleRate : option float,
       resampleTo16kHZ [] origSampleRate = Return [].
Proof.
  assert (E : resampleTo16kHZ audioData (Some orig)
              = Return [fround (last (Float32Array_from audioData) nan)]).
  { destruct (resample_unfold audioData orig 1%Z HT) as [E _].
    cbv zeta in E. rewrite E. clear E.
    change (Z.to_nat (1 - 2)) with 0. change (Z.to_nat 1) with 1.
    change (1 - 1)%Z with 0%Z. change (repeat zero 1) with [zero].
    change (Zseq 1 0) with (@nil Z). cbn [fold_left].
    rewrite !f32_set_singleton.
    assert (Hlen : 1 <= length audioData)
      by (destruct audioData; [contradiction | simpl; lia]).
    f_equal. f_equal. f_equal.
    rewrite ta_get_nth by lia.
    replace (Z.to_nat (Z.of_nat (length audioData) - 1))
      with (length (Float32Array_from audioData) - 1)
      by (rewrite Float32Array_from_length; lia).
    apply nth_pred_length. }
  split; [exact E|]. split; [|exact resample_empty].
  intro Hf. rewrite E, (Float32Array_from_float32 _ Hf).
  f_equal. f_equal.
  rewrite <- nth_pred_length. apply Forall_nth_float32, Hf.
Qed.

Lemma resample_single_and_empty_witness :
  resampleTo16kHZ [0.5; 0.25; -0.125]%float (Some 44100%float)
  = Return [(-0.125)%float].
Proof.
  refine (proj1 (proj2 (resample_single_and_empty [0.5; 0.25; -0.125]%float
                          44100%float _ _)) _).
  - discriminate.
  - reflexivity.
  - repeat constructor.
Defined.

(* ================================================================= *)
(** ** Rounding of a product *)

Section Rounding.

Local Open Scope Z_scope.

Lemma shifted_1 (x : shr_record) : 0 <= shr_m x -> shifted 1 x (shr_1 x).
Proof.
  destruct x as [m r s]. unfold shifted, inexact. cbn [shr_m shr_r shr_s].
  intro Hm. change (2 ^ 1) with 2.
  destruct m as [|[p|p|]|p]; cbn [shr_1 shr_m shr_r shr_s]; try lia.
  - split; [reflexivity|]. intros H _. now rewrite H.
  - split; [rewrite Pos2Z.inj_xI; Z.div_mod_to_equations; lia|].
    intros _ H. rewrite Pos2Z.inj_xI in H. Z.div_mod_to_equations. lia.
  - split; [rewrite Pos2Z.inj_xO; Z.div_mod_to_equations; lia|].
    intros H _. now rewrite H.
  - split; [reflexivity|]. intros _ H. discriminate H.
Qed.

Lemma shifted_compose (a b : Z) (x y z : shr_record) :
  0 <= a -> 0 <= b -> 0 <= shr_m x ->
  shifted a x y -> shifted b y z -> shifted (a + b) x z.
Proof.
  intros Ha Hb Hx [M1 I1] [M2 I2]. unfold shifted.
  assert (Pa : 0 < 2 ^ a) by (apply Z.pow_pos_nonneg; lia).
  assert (Pb : 0 < 2 ^ b) by (apply Z.pow_pos_nonneg; lia).
  rewrite Z.pow_add_r by lia. split.
  - rewrite M2, M1. apply Z.div_div; lia.
  - intros Hi Hd.
    assert (Hq : shr_m x = 2 ^ a * 2 ^ b * (shr_m x / (2 ^ a * 2 ^ b)))
      by (apply Z.div_exact; [nia | exact Hd]).
    set (q := shr_m x / (2 ^ a * 2 ^ b)) in *.
    apply I2.
    + apply I1; [exact Hi|]. rewrite Hq.
      replace (2 ^ a * 2 ^ b * q) with ((2 ^ b * q) * 2 ^ a) by ring.
      apply Z.mod_mul; lia.
    + rewrite M1, Hq.
      replace (2 ^ a * 2 ^ b * q) with ((2 ^ b * q) * 2 ^ a) by ring.
      rewrite Z.div_mul by lia. rewrite Z.mul_comm. apply Z.mod_mul; lia.
Qed.

Lemma shifted_nonneg (k : Z) (x y : shr_record) :
  0 <= k -> 0 <= shr_m x -> shifted k x y -> 0 <= shr_m y.
Proof.
  intros Hk Hx [M _]. rewrite M. apply Z.div_pos; [exact Hx|].
  apply Z.pow_pos_nonneg; lia.
Qed.

Lemma shifted_iter (p : positive) (x : shr_record) :
  0 <= shr_m x -> shifted (Zpos p) x (iter_pos shr_1 p x).
Proof.
  revert x; induction p as [p IH|p IH|]; intros x Hx; cbn [iter_pos].
  - rewrite Pos2Z.inj_xI.
    replace (2 * Zpos p + 1) with (1 + (Zpos p + Zpos p)) by lia.
    pose proof (shifted_1 x Hx) as S1.
    pose proof (shifted_nonneg 1 _ _ ltac:(lia) Hx S1) as N1.
    pose proof (IH _ N1) as S2.
    pose proof (shifted_nonneg (Zpos p) _ _ ltac:(lia) N1 S2) as N2.
    apply (shifted_compose 1 _ x (shr_1 x)); try lia; [exact S1|].
    apply (shifted_compose _ _ _ (iter_pos shr_1 p (shr_1 x))); try lia;
      [exact S2 | now apply IH].
  - rewrite Pos2Z.inj_xO. replace (2 * Zpos p) with (Zpos p + Zpos p) by lia.
    pose proof (IH _ Hx) as S1.
    pose proof (shifted_nonneg (Zpos p) _ _ ltac:(lia) Hx S1) as N1.
    apply (shifted_compose _ _ x (iter_pos shr_1 p x)); try lia;
      [exact S1 | now apply IH].
  - now apply shifted_1.
Qed.

(** [shr] by any amount, from an exact record. *)
Lemma shr_exact (m e n : Z) :
  0 <= m ->
  exists k, 0 <= k /\ (n <= 0 -> k = 0) /\ (0 < n -> k = n)
    /\ snd (shr (shr_record_of_loc m loc_Exact) e n) = e + k
    /\ shifted k (shr_record_of_loc m loc_Exact)
         (fst (shr (shr_record_of_loc m loc_Exact) e n)).
Proof.
  intro Hm.
  assert (Z0 : shifted 0 (shr_record_of_loc m loc_Exact)
                 (shr_record_of_loc m loc_Exact)).
  { split; [cbn; now rewrite Z.div_1_r | auto]. }
  destruct n as [|p|p]; cbn [shr fst snd].
  - exists 0. split; [lia|]. split; [lia|]. split; [lia|].
    split; [lia | exact Z0].
  - exists (Zpos p). split; [lia|]. split; [lia|]. split; [lia|].
    split; [reflexivity | now apply shifted_iter].
  - exists 0. split; [lia|]. split; [lia|]. split; [lia|].
    split; [lia | exact Z0].
Qed.

Lemma round_nearest_even_range (m : Z) (x : shr_record) :
  shr_m x = m ->
  m <= round_nearest_even m (loc_of_shr_record x) <= m + 1
  /\ (inexact x = false -> round_nearest_even m (loc_of_shr_record x) = m).
Proof.
  intros <-. destruct x as [m [|] [|]]; unfold inexact; cbn; split;
    try discriminate; try lia; try reflexivity.
  destruct (Z.even m); lia.
Qed.

Lemma round_le_bound (P n m1 b : Z) :
  0 <= n ->
  P / 2 ^ n <= m1 <= P / 2 ^ n + 1 ->
  (P mod 2 ^ n = 0 -> m1 = P / 2 ^ n) ->
  P <= b * 2 ^ n ->
  m1 <= b.
Proof.
  intros Hn Hr Hex Hb.
  assert (Pn : 0 < 2 ^ n) by (apply Z.pow_pos_nonneg; lia).
  pose proof (Z.div_mod P (2 ^ n) ltac:(lia)) as D.
  pose proof (Z.mod_pos_bound P (2 ^ n) Pn) as R.
  destruct (Z.eq_dec (P mod 2 ^ n) 0) as [E|E].
  - rewrite (Hex E). nia.
  - nia.
Qed.

Lemma binary_round_aux_bound (sx : bool) (P : positive) (E B : Z)
  (s : bool) (m : positive) (e : Z) :
  binary_round_aux prec emax sx (Zpos P) E loc_Exact = S754_finite s m e ->
  E <= 0 ->
  fexp prec emax (Zdigits2 (Zpos P) + E) <= 0 ->
  Zpos P <= B * 2 ^ (- E) ->
  s = sx
  /\ if 0 <=? e then Zpos m * 2 ^ e <= B else Zpos m <= B * 2 ^ (- e).
Proof.
  intros Hr HE Hf HB. unfold binary_round_aux, shr_fexp in Hr.
  set (n1 := fexp prec emax (Zdigits2 (Zpos P) + E) - E) in *.
  destruct (shr_exact (Zpos P) E n1 ltac:(lia))
    as (k1 & Hk1 & Hz1 & Hp1 & He1 & [M1 I1]).
  destruct (shr (shr_record_of_loc (Zpos P) loc_Exact) E n1) as [mrs1 e1].
  cbn [fst snd] in He1, M1, I1. cbn [shr_m shr_record_of_loc] in M1, I1.
  set (m1 := round_nearest_even (shr_m mrs1) (loc_of_shr_record mrs1)) in *.
  assert (He1' : e1 <= 0) by (destruct (Z_lt_le_dec 0 n1); lia).
  assert (P1 : 0 < 2 ^ k1) by (apply Z.pow_pos_nonneg; lia).
  destruct (round_nearest_even_range (shr_m mrs1) mrs1 eq_refl) as [R1 X1].
  fold m1 in R1, X1.
  assert (Hm1 : m1 <= B * 2 ^ (- e1)).
  { apply (round_le_bound (Zpos P) k1); [lia | now rewrite <- M1 | |].
    - intro D. rewrite <- M1. apply X1. apply I1; [reflexivity | exact D].
    - replace (- E) with (- e1 + k1) in HB by lia.
      rewrite Z.pow_add_r in HB by lia. lia. }
  assert (N1 : 0 <= m1).
  { assert (0 <= Zpos P / 2 ^ k1) by (apply Z.div_pos; lia). lia. }
  set (n2 := fexp prec emax (Zdigits2 m1 + e1) - e1) in *.
  destruct (shr_exact m1 e1 n2 N1) as (k2 & Hk2 & _ & _ & He2 & [M2 _]).
  destruct (shr (shr_record_of_loc m1 loc_Exact) e1 n2) as [mrs2 e2].
  cbn [fst snd] in He2, M2. cbn [shr_m shr_record_of_loc] in M2.
  destruct (shr_m mrs2) as [|m'|m'] eqn:Em; try discriminate.
  destruct (e2 <=? emax - prec); [|discriminate].
  injection Hr as <- <- <-. split; [reflexivity|].
  assert (P2 : 0 < 2 ^ k2) by (apply Z.pow_pos_nonneg; lia).
  pose proof (Z.mul_div_le m1 (2 ^ k2) P2) as Q. rewrite <- M2 in Q.
  destruct (Z.leb_spec 0 e2) as [Pos|Neg].
  - assert (P3 : 0 < 2 ^ (- e1)) by (apply Z.pow_pos_nonneg; lia).
    assert (P4 : 0 < 2 ^ e2) by (apply Z.pow_pos_nonneg; lia).
    replace k2 with (e2 + - e1) in Q by lia.
    rewrite Z.pow_add_r in Q by lia. nia.
  - rewrite M2. apply Z.div_le_upper_bound; [exact P2|].
    replace (- e1) with (k2 + - e2) in Hm1 by lia.
    rewrite Z.pow_add_r in Hm1 by lia. lia.
Qed.

End Rounding.

(* ================================================================= *)
(** ** The encoding step *)

Lemma digits2_pos_bound (p : positive) (k : Z) :
  (0 <= k)%Z -> (Zpos p < 2 ^ k)%Z -> (Zpos (digits2_pos p) <= k)%Z.
Proof.
  revert k; induction p as [p IH|p IH|]; intros k Hk H; cbn [digits2_pos].
  - assert (1 <= k)%Z by (destruct (Z.eq_dec k 0); [subst; simpl in H|]; lia).
    replace k with (Z.succ (k - 1)) in H by lia.
    rewrite Z.pow_succ_r in H by lia.
    specialize (IH (k - 1)%Z ltac:(lia) ltac:(lia)). lia.
  - assert (1 <= k)%Z by (destruct (Z.eq_dec k 0); [subst; simpl in H|]; lia).
    replace k with (Z.succ (k - 1)) in H by lia.
    rewrite Z.pow_succ_r in H by lia.
    specialize (IH (k - 1)%Z ltac:(lia) ltac:(lia)). lia.
  - destruct (Z.eq_dec k 0); [subst; simpl in H|]; lia.
Qed.

Lemma digits2_pos_lt (p : positive) : (Zpos p < 2 ^ Zpos (digits2_pos p))%Z.
Proof.
  induction p as [p IH|p IH|]; cbn [digits2_pos];
    rewrite ?Pos2Z.inj_succ, ?Z.pow_succ_r by lia; lia.
Qed.

(** A finite binary64 has at most 53 digits. *)
Lemma valid_mantissa (x : float) (s : bool) (m : positive) (e : Z) :
  Prim2SF x = S754_finite s m e -> (Zpos m < 2 ^ 53)%Z.
Proof.
  intro E. pose proof (Prim2SF_valid x) as V. rewrite E in V.
  unfold valid_binary, bounded, canonical_mantissa, fexp in V.
  apply andb_prop in V as [V _]. apply Z.eqb_eq in V.
  assert (D : (Zpos (digits2_pos m) <= 53)%Z).
  { change prec with 53%Z in V. lia. }
  pose proof (digits2_pos_lt m) as L.
  assert ((2 ^ Zpos (digits2_pos m) <= 2 ^ 53)%Z)
    by (apply Z.pow_le_mono_r; lia).
  lia.
Qed.

Lemma float_of_spec (x : float) (sx : spec_float) :
  Prim2SF x = sx -> x = SF2Prim sx.
Proof. intros <-. symmetry. apply SF2Prim_Prim2SF. Qed.

Lemma SFltb_asym (a b : spec_float) : SFltb a b = true -> SFltb b a = false.
Proof.
  unfold SFltb.
  destruct a as [sa|sa| |sa ma ea], b as [sb|sb| |sb mb eb];
    try destruct sa; try destruct sb; cbn; try discriminate; try reflexivity.
  all: rewrite (Z.compare_antisym ea eb); destruct (ea ?= eb)%Z; cbn;
    try discriminate; try reflexivity.
  all: change Eq with (CompOpp Eq) at 2;
    rewrite <- (Pos.compare_cont_antisym ma mb Eq);
    destruct (Pos.compare_cont Eq ma mb); cbn; try discriminate;
    reflexivity.
Qed.

Lemma ltb_asym (a b : float) :
  (a <? b)%float = true -> (b <? a)%float = false.
Proof. rewrite !ltb_spec. apply SFltb_asym. Qed.

Lemma is_nan_spec (x : float) :
  is_nan x = match Prim2SF x with S754_nan => true | _ => false end.
Proof.
  unfold is_nan. rewrite eqb_spec. unfold SFeqb.
  destruct (Prim2SF x) as [s|s| |s m e]; try destruct s; cbn;
    rewrite ?Z.compare_refl, ?Pos.compare_cont_refl; reflexivity.
Qed.

Lemma Math_min_1 (x : float) :
  is_nan x = false ->
  Math_min 1 x = (if 1 <? x then 1 else x)%float.
Proof.
  intro H. unfold Math_min. rewrite H.
  change (is_nan 1) with false. change (get_sign 1) with false. cbn [orb].
  destruct (1 <? x)%float; [reflexivity|].
  destruct (x <? 1)%float; reflexivity.
Qed.

Lemma Math_max_m1 (y : float) :
  is_nan y = false ->
  Math_max (-1) y = (if y <? -1 then -1 else y)%float.
Proof.
  intro H. unfold Math_max. rewrite H.
  change (is_nan (-1)) with false. change (get_sign (-1)) with true.
  cbn [orb].
  destruct (-1 <? y)%float eqn:C1.
  - now rewrite (ltb_asym _ _ C1).
  - destruct (y <? -1)%float; reflexivity.
Qed.

Lemma above_one_not_below (x : float) :
  (1 <? x)%float = true ->
  (x <? -1)%float = false /\ (x <? 0)%float = false /\ is_nan x = false.
Proof.
  rewrite is_nan_spec, !ltb_spec.
  change (Prim2SF 1) with (S754_finite false 4503599627370496 (-52)).
  change (Prim2SF (-1)) with (S754_finite true 4503599627370496 (-52)).
  change (Prim2SF 0) with (S754_zero false).
  destruct (Prim2SF x) as [s|s| |s m e]; try destruct s;
    unfold SFltb, SFcompare; try discriminate; auto.
Qed.

Lemma below_minus_one_negative (x : float) :
  (x <? -1)%float = true ->
  (1 <? x)%float = false /\ (x <? 0)%float = true /\ is_nan x = false.
Proof.
  rewrite is_nan_spec, !ltb_spec.
  change (Prim2SF 1) with (S754_finite false 4503599627370496 (-52)).
  change (Prim2SF (-1)) with (S754_finite true 4503599627370496 (-52)).
  change (Prim2SF 0) with (S754_zero false).
  destruct (Prim2SF x) as [s|s| |s m e]; try destruct s;
    unfold SFltb, SFcompare; try discriminate; auto.
Qed.

(** The code's [Math.max(-1, Math.min(1, x))] is the clamp. *)
Lemma clamp_code (x : float) : Math_max (-1) (Math_min 1 x) = clamp x.
Proof.
  unfold clamp. destruct (is_nan x) eqn:N.
  - rewrite is_nan_spec in N.
    destruct (Prim2SF x) eqn:E; try discriminate.
    rewrite (float_of_spec x _ E). reflexivity.
  - rewrite (Math_min_1 x N).
    destruct (1 <? x)%float eqn:B1.
    + destruct (above_one_not_below x B1) as (-> & _). reflexivity.
    + now rewrite (Math_max_m1 x N).
Qed.

Lemma clamp_sign (x : float) : (clamp x <? 0)%float = (x <? 0)%float.
Proof.
  unfold clamp. destruct (x <? -1)%float eqn:C2.
  - destruct (below_minus_one_negative x C2) as (_ & -> & _). reflexivity.
  - destruct (1 <? x)%float eqn:B1; [|reflexivity].
    destruct (above_one_not_below x B1) as (_ & -> & _). reflexivity.
Qed.

Lemma encode_sample_clamp (x : float) :
  encode_sample x
  = ToInt16 (clamp x * (if x <? 0 then 32768 else 32767))%float.
Proof.
  unfold encode_sample. cbv zeta. rewrite clamp_code, clamp_sign.
  now destruct (x <? 0)%float.
Qed.

Lemma not_above_one (x : float) (m : positive) (e : Z) :
  Prim2SF x = S754_finite false m e ->
  (1 <? x)%float = false ->
  (e <= -52 /\ Zpos m <= 2 ^ (- e))%Z.
Proof.
  intros E H. pose proof (valid_mantissa x _ _ _ E) as V.
  rewrite ltb_spec, E in H. clear E.
  change (Prim2SF 1) with (S754_finite false 4503599627370496 (-52)) in H.
  unfold SFltb, SFcompare in H.
  destruct (Z.compare_spec (-52) e) as [Q|L|G]; [|discriminate|].
  - subst e. split; [apply Z.le_refl|].
    change (2 ^ (- (-52)))%Z with 4503599627370496%Z.
    destruct (Pos.compare_cont Eq 4503599627370496 m) eqn:C;
      [| discriminate |].
    + rewrite <- (Pos.compare_eq _ _ C). apply Z.le_refl.
    + apply Z.lt_le_incl. apply Z.gt_lt. exact C.
  - clear H. split; [lia|].
    assert (2 ^ 53 <= 2 ^ (- e))%Z by (apply Z.pow_le_mono_r; lia). lia.
Qed.

Lemma not_below_minus_one (x : float) (m : positive) (e : Z) :
  Prim2SF x = S754_finite true m e ->
  (x <? -1)%float = false ->
  (e <= -52 /\ Zpos m <= 2 ^ (- e))%Z.
Proof.
  intros E H. pose proof (valid_mantissa x _ _ _ E) as V.
  rewrite ltb_spec, E in H. clear E.
  change (Prim2SF (-1)) with (S754_finite true 4503599627370496 (-52)) in H.
  unfold SFltb, SFcompare in H.
  destruct (Z.compare_spec e (-52)) as [Q|L|G]; [| |discriminate].
  - subst e. split; [apply Z.le_refl|].
    change (2 ^ (- (-52)))%Z with 4503599627370496%Z.
    destruct (Pos.compare_cont Eq m 4503599627370496) eqn:C;
      [| | discriminate].
    + rewrite (Pos.compare_eq _ _ C). apply Z.le_refl.
    + apply Z.lt_le_incl. exact C.
  - clear H. split; [lia|].
    assert (2 ^ 53 <= 2 ^ (- e))%Z by (apply Z.pow_le_mono_r; lia). lia.
Qed.

(** The product of a finite [x] in [-1, 1] and a constant [k = B] of at
    most 2^15 stays within [B] after rounding. *)
Lemma product_range (x k : float) (sx : bool) (m mk : positive)
  (e ek B z : Z) :
  Prim2SF x = S754_finite sx m e ->
  Prim2SF k = S754_finite false mk ek ->
  (e <= -52)%Z -> (Zpos m <= 2 ^ (- e))%Z ->
  (ek <= 0)%Z -> (Zpos mk = B * 2 ^ (- ek))%Z -> (0 <= B <= 2 ^ 15)%Z ->
  ToInteger (x * k)%float = Some z ->
  (if sx then - B <= z <= 0 else 0 <= z <= B)%Z.
Proof.
  intros Ex Ek He Hm Hek Hmk HB H.
  unfold ToInteger in H. rewrite mul_spec, Ex, Ek in H.
  unfold SF64mul, SFmul in H.
  destruct (binary_round_aux prec emax (xorb sx false) (Zpos (m * mk))
              (e + ek) loc_Exact) as [s'|s'| |s' m' e'] eqn:R;
    try discriminate; try (injection H as <-; destruct sx; lia).
  assert (P1 : (0 < 2 ^ (- e))%Z) by (apply Z.pow_pos_nonneg; lia).
  assert (P2 : (0 < 2 ^ (- ek))%Z) by (apply Z.pow_pos_nonneg; lia).
  assert (HP : (Zpos (m * mk) <= B * 2 ^ (- (e + ek)))%Z).
  { replace (- (e + ek))%Z with (- e + - ek)%Z by lia.
    rewrite Z.pow_add_r by lia. rewrite Pos2Z.inj_mul, Hmk. nia. }
  apply (binary_round_aux_bound _ _ _ B) in R; [| lia | | exact HP].
  - destruct R as [-> R]. rewrite xorb_false_r in H. injection H as <-.
    unfold trunc_me, SF_mant, cond_Zopp.
    assert (Pm : (0 < Zpos m')%Z) by lia.
    destruct (Z.leb_spec 0 e') as [Pos|Neg].
    + assert (P3 : (0 < 2 ^ e')%Z) by (apply Z.pow_pos_nonneg; lia).
      destruct sx; nia.
    + assert (P3 : (0 < 2 ^ (- e'))%Z) by (apply Z.pow_pos_nonneg; lia).
      assert (Q : (0 <= Zpos m' / 2 ^ (- e') <= B)%Z).
      { split; [apply Z.div_pos; lia|].
        apply Z.div_le_upper_bound; [exact P3 | lia]. }
      destruct sx.
      * rewrite Z.quot_opp_l by lia.
        rewrite Z.quot_div_nonneg by lia. lia.
      * rewrite Z.quot_div_nonneg by lia. lia.
  - cbn [Zdigits2]. unfold fexp. change prec with 53%Z.
    change (SpecFloat.emin 53 emax) with (-1074)%Z.
    assert (D : (Zpos (digits2_pos (m * mk)) <= 16 - (e + ek))%Z).
    { apply digits2_pos_bound; [lia|].
      assert ((2 ^ (16 - (e + ek)) = 2 ^ 16 * 2 ^ (- (e + ek)))%Z)
        by (rewrite <- Z.pow_add_r by lia; f_equal; lia).
      assert ((0 < 2 ^ (- (e + ek)))%Z) by (apply Z.pow_pos_nonneg; lia).
      nia. }
    lia.
Qed.

Lemma ToInt16_small (x : float) (z : Z) :
  ToInteger x = Some z -> (-32768 <= z <= 32767)%Z -> ToInt16 x = z.
Proof.
  intros H R. unfold ToInt16. rewrite H. cbv zeta.
  change (2 ^ 16)%Z with 65536%Z. change (2 ^ 15)%Z with 32768%Z.
  destruct (Z.leb_spec 32768 (z mod 65536)); Z.div_mod_to_equations; lia.
Qed.

Lemma clamp_product_range (x : float) (z : Z) :
  ToInteger (clamp x * (if x <? 0 then 32768 else 32767))%float = Some z ->
  (-32768 <= z <= 32767)%Z.
Proof.
  destruct (Prim2SF x) as [s|s| |s m e] eqn:E.
  - rewrite (float_of_spec x _ E). destruct s; intro H; vm_compute in H;
      injection H as <-; lia.
  - rewrite (float_of_spec x _ E). destruct s; intro H; vm_compute in H;
      injection H as <-; lia.
  - rewrite (float_of_spec x _ E). intro H; vm_compute in H.
    injection H as <-; lia.
  - unfold clamp. destruct (x <? -1)%float eqn:C2.
    { destruct (below_minus_one_negative x C2) as (_ & -> & _).
      change (ToInteger (-1 * 32768)%float) with (Some (-32768)%Z).
      intro H; injection H as <-. lia. }
    destruct (1 <? x)%float eqn:B1.
    { destruct (above_one_not_below x B1) as (_ & -> & _).
      change (ToInteger (1 * 32767)%float) with (Some 32767%Z).
      intro H; injection H as <-. lia. }
    assert (S0 : (x <? 0)%float = s).
    { rewrite ltb_spec, E. change (Prim2SF 0) with (S754_zero false).
      now destruct s. }
    rewrite S0. destruct s; intro H.
    + destruct (not_below_minus_one x m e E C2) as [He Hm].
      pose proof (product_range x 32768%float true m 4503599627370496 e (-37)
                    32768 z E eq_refl He Hm ltac:(lia) eq_refl ltac:(lia) H).
      cbv beta iota in H0. lia.
    + destruct (not_above_one x m e E B1) as [He Hm].
      pose proof (product_range x 32767%float false m 9006924376834048 e (-38)
                    32767 z E eq_refl He Hm ltac:(lia) eq_refl ltac:(lia) H).
      cbv beta iota in H0. lia.
Qed.

(** C2. The encoding step gives, for every sample [x], the integer part of
    [clamp(x,-1,1) * (32768 if x < 0 else 32767)] (0 when [x] is NaN),
    which lies in the 16-bit signed range, so that the store into the
    [Int16Array] does not wrap.  0 gives 0, 1 gives 32767, -1 gives -32768,
    every sample above 1 gives 32767 and every sample below -1 gives
    -32768. *)
Theorem encode_sample_spec (x : float) :
  encode_sample x
  = trunc_toward_zero (clamp x * (if x <? 0 then 32768 else 32767))%float
  /\ (-32768 <= encode_sample x <= 32767)%Z
  /\ encode_sample 0 = 0%Z
  /\ encode_sample 1 = 32767%Z
  /\ encode_sample (-1) = (-32768)%Z
  /\ ((1 <? x)%float = true -> encode_sample x = 32767%Z)
  /\ ((x <? -1)%float = true -> encode_sample x = (-32768)%Z).
Proof.
  rewrite encode_sample_clamp. unfold trunc_toward_zero.
  set (p := (clamp x * (if x <? 0 then 32768 else 32767))%float).
  assert (H : ToInt16 p
              = match ToInteger p with Some z => z | None => 0%Z end
              /\ (-32768 <= ToInt16 p <= 32767)%Z).
  { destruct (ToInteger p) as [z|] eqn:T.
    - pose proof (clamp_product_range x z T) as R.
      rewrite (ToInt16_small p z T R). split; [reflexivity | exact R].
    - unfold ToInt16. rewrite T. split; [reflexivity | lia]. }
  destruct H as [H1 H2].
  split; [exact H1|]. split; [exact H2|].
  split; [reflexivity|]. split; [reflexivity|]. split; [reflexivity|].
  unfold p, clamp. split; intro C.
  - destruct (above_one_not_below x C) as (-> & -> & _). rewrite C.
    reflexivity.
  - destruct (below_minus_one_negative x C) as (_ & -> & _). rewrite C.
    reflexivity.
Qed.

Lemma encode_sample_spec_witness :
  encode_sample 2 = 32767%Z /\ encode_sample (-2) = (-32768)%Z.
Proof.
  split.
  - exact (proj1 (proj2 (proj2 (proj2 (proj2 (proj2
             (encode_sample_spec 2)))))) eq_refl).
  - exact (proj2 (proj2 (proj2 (proj2 (proj2 (proj2
             (encode_sample_spec (-2))))))) eq_refl).
Defined.

(* ================================================================= *)
(** ** Handlers and what they leave alone *)

Section Preserves.

Context {T : Type} (F : world -> T).

Lemma preserves_bind {A B : Type} (m : M A) (f : A -> M B) :
  preservesM F m -> (forall a, preservesM F (f a)) -> preservesM F (bind m f).
Proof.
  intros Hm Hf w. unfold bind. specialize (Hm w).
  destruct (m w) as [w' [a|e]]; simpl in *; [|exact Hm].
  now rewrite Hf.
Qed.

Lemma preserves_ret {A : Type} (a : A) : preservesM F (ret a).
Proof. intro w. reflexivity. Qed.

Lemma preserves_throw {A : Type} (e : error) : preservesM F (@throw A e).
Proof. intro w. reflexivity. Qed.

Lemma preserves_gets {A : Type} (f : world -> A) : preservesM F (gets f).
Proof. intro w. reflexivity. Qed.

Lemma preserves_lift {A : Type} (r : result A) : preservesM F (lift r).
Proof. intro w. reflexivity. Qed.

Lemma preserves_deref {A : Type} (o : option A) : preservesM F (deref o).
Proof. destruct o; [apply preserves_ret | apply preserves_throw]. Qed.

Lemma preserves_modify (f : world -> world) :
  (forall w, F (f w) = F w) -> preservesM F (modify f).
Proof. intros H w. apply H. Qed.

Lemma preserves_forEach {A : Type} (f : A -> M unit) (l : list A) :
  (forall a, preservesM F (f a)) -> preservesM F (forEach f l).
Proof.
  intro H. induction l as [|a l IH]; simpl.
  - apply preserves_ret.
  - apply preserves_bind; [apply H | intro; exact IH].
Qed.

End Preserves.

Lemma sent_frames_emit (x : effect) (w : world) :
  is_send x = false ->
  sent_frames (set_log (x :: log w) w) = sent_frames w.
Proof. intro H. unfold sent_frames. cbn [log set_log filter]. now rewrite H. Qed.

Lemma sent_frames_update_closure (k : nat) (f : Closure -> Closure) :
  preservesM sent_frames (update_closure k f).
Proof.
  intro w. unfold update_closure, modify. cbn [fst].
  now destruct (nth_error (closures w) k).
Qed.

Ltac preserves_step :=
  first
    [ apply preserves_bind; [|intro]
    | apply preserves_ret
    | apply preserves_throw
    | apply preserves_gets
    | apply preserves_lift
    | apply preserves_deref
    | apply preserves_modify; intro; reflexivity
    | apply preserves_modify; intro; apply sent_frames_emit; reflexivity
    | apply sent_frames_update_closure
    | apply preserves_forEach; intro
    | match goal with
      | |- preservesM _ (match ?x with _ => _ end) => destruct x
      | |- preservesM _ (if ?x then _ else _) => destruct x
      end ].

Ltac preserves_auto := repeat preserves_step.

Lemma closures_updateTranscriptionUI (text : jsstring) :
  preservesM closures (updateTranscriptionUI text).
Proof. unfold updateTranscriptionUI, emit. preserves_auto. Qed.

Lemma sent_updateTranscriptionUI (text : jsstring) :
  preservesM sent_frames (updateTranscriptionUI text).
Proof. unfold updateTranscriptionUI, emit. preserves_auto. Qed.

Lemma closures_stopRecording : preservesM closures stopRecording.
Proof. unfold stopRecording, if_truthy, emit. preserves_auto. Qed.

Lemma sent_stopRecording : preservesM sent_frames stopRecording.
Proof. unfold stopRecording, if_truthy, emit. preserves_auto. Qed.

Lemma closures_runtime_onMessage (type : jsstring) :
  preservesM closures (runtime_onMessage type).
Proof.
  unfold runtime_onMessage.
  destruct (jseqb type (js "start_capture")).
  - unfold startRecord, emit. preserves_auto.
  - destruct (jseqb type (js "stop_capture")); [|apply preserves_ret].
    apply preserves_bind; [apply closures_stopRecording|].
    intro. unfold emit. preserves_auto.
Qed.

Lemma sent_runtime_onMessage (type : jsstring) :
  preservesM sent_frames (runtime_onMessage type).
Proof.
  unfold runtime_onMessage.
  destruct (jseqb type (js "start_capture")).
  - unfold startRecord, emit. preserves_auto.
  - destruct (jseqb type (js "stop_capture")); [|apply preserves_ret].
    apply preserves_bind; [apply sent_stopRecording|].
    intro. unfold emit. preserves_auto.
Qed.

Lemma closures_storage_get_callback (now : jsstring) (r : option jsstring) :
  preservesM closures (storage_get_callback now r).
Proof.
  unfold storage_get_callback, downloadTranscription, emit. preserves_auto.
Qed.

Lemma sent_storage_get_callback (now : jsstring) (r : option jsstring) :
  preservesM sent_frames (storage_get_callback now r).
Proof.
  unfold storage_get_callback, downloadTranscription, emit. preserves_auto.
Qed.

Lemma sent_startRecord_resume (stream : option MediaStream) (rate : float) :
  preservesM sent_frames (startRecord_resume stream rate).
Proof.
  unfold startRecord_resume, update_session, fresh, emit.
  destruct stream; preserves_auto; intro w; reflexivity.
Qed.

Lemma sent_socket_onmessage (k : nat) (c : Closure) (d : option message) :
  preservesM sent_frames (socket_onmessage k c d).
Proof.
  unfold socket_onmessage. preserves_auto; apply sent_updateTranscriptionUI.
Qed.

(* ================================================================= *)
(** ** A closure is changed only by its own events *)

Lemma nth_error_replace_nth_neq {A : Type} (j k : nat) (l : list A) (v : A) :
  j <> k -> nth_error (replace_nth j l v) k = nth_error l k.
Proof.
  revert j k; induction l as [|a l IH]; intros [|j] [|k] H; simpl;
    try reflexivity; try congruence.
  apply IH. congruence.
Qed.

Lemma nth_error_updated {A : Type} (j k : nat) (l : list A) (cj c : A)
  (f : A -> A) :
  nth_error l j = Some cj -> nth_error l k = Some c ->
  nth_error (replace_nth j l (f cj)) k
  = Some (if Nat.eqb j k then f c else c).
Proof.
  intros Hj Hk. destruct (Nat.eqb_spec j k) as [->|Ne].
  - rewrite Hk in Hj. injection Hj as <-.
    now apply (nth_error_replace_nth_eq k l _ c).
  - now rewrite nth_error_replace_nth_neq.
Qed.

Lemma nth_error_missing_neq {A : Type} (j k : nat) (l : list A) (c : A) :
  nth_error l j = None -> nth_error l k = Some c -> Nat.eqb j k = false.
Proof.
  intros Hj Hk. apply Nat.eqb_neq. intros ->. congruence.
Qed.

Lemma message_closures (w : world) (j : nat) (cj : Closure)
  (d : option message) :
  nth_error (closures w) j = Some cj ->
  closures (fst (socket_onmessage j cj d w))
  = replace_nth j (closures w) (message_step cj d).
Proof.
  intro Hj.
  assert (Same : replace_nth j (closures w) cj = closures w).
  { clear d. revert j Hj. induction (closures w) as [|a l IH];
      intros [|j] Hj; simpl in *; try discriminate.
    - now injection Hj as ->.
    - now rewrite IH. }
  unfold socket_onmessage, message_step.
  destruct d as [d|]; [|now rewrite Same].
  unfold bind at 1. cbn [ret fst snd].
  destruct (msg_elements d) as [elements|]; [|now rewrite Same].
  unfold bind at 1. cbn [deref ret fst snd].
  destruct (jseqb (msg_type d) (js "partial")).
  - unfold bind, update_closure, modify. cbn [fst snd]. rewrite Hj.
    rewrite closures_updateTranscriptionUI. reflexivity.
  - destruct (jseqb (msg_type d) (js "final")); [|now rewrite Same].
    unfold bind, update_closure, modify. cbn [fst snd closures set_closures].
    rewrite Hj. cbn [fst snd closures set_closures].
    rewrite (nth_error_replace_nth_eq j _ _ cj Hj).
    rewrite closures_updateTranscriptionUI.
    cbn [closures set_closures]. apply replace_nth_twice.
Qed.

Lemma audio_closures (w : world) (j : nat) (cj : Closure)
  (inputData : list float) :
  nth_error (closures w) j = Some cj ->
  closures (fst (recorder_onaudioprocess j cj inputData w))
  = replace_nth j (closures w) (audio_step cj inputData)
  /\ log (fst (recorder_onaudioprocess j cj inputData w))
     = match frame_sent cj inputData with
       | [] => log w
       | sent => ConsoleLog (js "Audio data sent to server") :: sent ++ log w
       end.
Proof.
  intro Hj.
  assert (Same : replace_nth j (closures w) cj = closures w).
  { clear inputData. revert j Hj. induction (closures w) as [|a l IH];
      intros [|j] Hj; simpl in *; try discriminate.
    - now injection Hj as ->.
    - now rewrite IH. }
  unfold recorder_onaudioprocess, audio_step, frame_sent.
  destruct (cl_context cj); [|now rewrite Same].
  destruct (isServerReady cj); cbn [negb]; [|now rewrite Same].
  unfold bind at 1, lift.
  destruct (resampleTo16kHZ inputData (Some (cl_sampleRate cj))) as [a|err];
    [|now rewrite Same].
  unfold bind, update_closure, emit, modify. cbn [fst snd]. rewrite Hj.
  split; reflexivity.
Qed.

(** The variables of a closure after an event are those before, changed by
    [closure_step]: by the events sent to that closure and by nothing
    else. *)
Lemma step_closure (w : world) (e : event) (k : nat) (c : Closure) :
  nth_error (closures w) k = Some c ->
  nth_error (closures (step w e)) k = Some (closure_step k c e).
Proof.
  intro Hk. unfold step.
  destruct e as [type|stream rate|j|j d|j inputData|now|];
    cbn [dispatch closure_step].
  - now rewrite closures_runtime_onMessage.
  - unfold bind, gets. cbn [fst snd].
    destruct (pending_captures w) as [|n]; [exact Hk|].
    destruct stream as [st|].
    + unfold startRecord_resume, update_session, fresh, emit, modify, bind,
        gets, deref, ret. cbn.
      rewrite nth_error_app1; [exact Hk|].
      apply nth_error_Some. congruence.
    + exact Hk.
  - unfold with_closure, bind, gets. cbn [fst snd].
    destruct (nth_error (closures w) j) as [cj|] eqn:Hj.
    + unfold socket_onopen, bind, update_closure, emit, modify.
      cbn [fst snd]. rewrite Hj. cbn [closures set_closures set_log].
      now apply nth_error_updated.
    + now rewrite (nth_error_missing_neq j k _ c Hj Hk).
  - unfold with_closure, bind, gets. cbn [fst snd].
    destruct (nth_error (closures w) j) as [cj|] eqn:Hj.
    + rewrite (message_closures w j cj d Hj).
      now apply (nth_error_updated j k _ cj c (fun x => message_step x d)).
    + now rewrite (nth_error_missing_neq j k _ c Hj Hk).
  - unfold with_closure, bind, gets. cbn [fst snd].
    destruct (nth_error (closures w) j) as [cj|] eqn:Hj.
    + rewrite (proj1 (audio_closures w j cj inputData Hj)).
      now apply (nth_error_updated j k _ cj c
                   (fun x => audio_step x inputData)).
    + now rewrite (nth_error_missing_neq j k _ c Hj Hk).
  - unfold bind, gets. cbn [fst snd].
    destruct (pending_gets w) as [|r rest]; [exact Hk|].
    unfold modify. cbn [fst snd].
    now rewrite closures_storage_get_callback.
  - exact Hk.
Qed.

Lemma run_closure (evs : list event) (w : world) (k : nat) (c : Closure) :
  nth_error (closures w) k = Some c ->
  nth_error (closures (run evs w)) k
  = Some (fold_left (closure_step k) evs c).
Proof.
  revert w c; induction evs as [|e evs IH]; intros w c Hk; [exact Hk|].
  cbn [run fold_left]. apply (IH (step w e)). now apply step_closure.
Qed.

Lemma replace_nth_same {A : Type} (j : nat) (l : list A) (a : A) :
  nth_error l j = Some a -> replace_nth j l a = l.
Proof.
  revert j; induction l as [|x l IH]; intros [|j] H; simpl in *;
    try discriminate.
  - now injection H as ->.
  - now rewrite IH.
Qed.

Lemma step_closures (w : world) (e : event) :
  closures (step w e) = closures_after w e.
Proof.
  unfold step.
  destruct e as [type|stream rate|j|j d|j inputData|now|];
    cbn [dispatch closures_after].
  - now rewrite closures_runtime_onMessage.
  - unfold bind, gets. cbn [fst snd].
    destruct (pending_captures w) as [|n]; [now destruct stream|].
    destruct stream as [st|]; [|reflexivity].
    unfold startRecord_resume, update_session, fresh, emit, modify, bind,
      gets, deref, ret. reflexivity.
  - unfold with_closure, change_nth, bind, gets. cbn [fst snd].
    destruct (nth_error (closures w) j) as [cj|] eqn:Hj; [|reflexivity].
    unfold socket_onopen, bind, update_closure, emit, modify.
    cbn [fst snd]. now rewrite Hj.
  - unfold with_closure, change_nth, bind, gets. cbn [fst snd].
    destruct (nth_error (closures w) j) as [cj|] eqn:Hj; [|reflexivity].
    now apply message_closures.
  - unfold with_closure, change_nth, bind, gets. cbn [fst snd].
    destruct (nth_error (closures w) j) as [cj|] eqn:Hj; [|reflexivity].
    now apply audio_closures.
  - unfold bind, gets. cbn [fst snd].
    destruct (pending_gets w) as [|r rest]; [reflexivity|].
    unfold modify. cbn [fst snd].
    now rewrite closures_storage_get_callback.
  - reflexivity.
Qed.

Lemma step_sent_frames (w : world) (e : event) :
  sent_frames (step w e) = frames_of w e ++ sent_frames w.
Proof.
  unfold step.
  destruct e as [type|stream rate|j|j d|j inputData|now|];
    cbn [dispatch frames_of app].
  - apply sent_runtime_onMessage.
  - unfold bind, gets. cbn [fst snd].
    destruct (pending_captures w) as [|n]; [reflexivity|].
    unfold modify. cbn [fst snd].
    now rewrite sent_startRecord_resume.
  - unfold with_closure, bind, gets. cbn [fst snd].
    destruct (nth_error (closures w) j) as [cj|] eqn:Hj; [|reflexivity].
    unfold socket_onopen, emit. revert w Hj.
    change (forall w, nth_error (closures w) j = Some cj ->
              sent_frames (fst ((update_closure j (set_isServerReady true) ;;
                 modify (fun w0 => set_log
                   (ConsoleLog (js "WebSocket connection opened")
                    :: log w0) w0)) w)) = sent_frames w).
    intros w _. revert w.
    change (preservesM sent_frames
              (update_closure j (set_isServerReady true) ;;
               modify (fun w0 => set_log
                 (ConsoleLog (js "WebSocket connection opened")
                  :: log w0) w0))).
    preserves_auto.
  - unfold with_closure, bind, gets. cbn [fst snd].
    destruct (nth_error (closures w) j) as [cj|] eqn:Hj; [|reflexivity].
    apply sent_socket_onmessage.
  - unfold with_closure, bind, gets. cbn [fst snd].
    destruct (nth_error (closures w) j) as [cj|] eqn:Hj; [|reflexivity].
    unfold sent_frames.
    rewrite (proj2 (audio_closures w j cj inputData Hj)).
    unfold frame_sent.
    destruct (cl_context cj); [|reflexivity].
    destruct (isServerReady cj); [|reflexivity].
    destruct (resampleTo16kHZ inputData (Some (cl_sampleRate cj)));
      reflexivity.
  - unfold bind, gets. cbn [fst snd].
    destruct (pending_gets w) as [|r rest]; [reflexivity|].
    unfold modify. cbn [fst snd].
    now rewrite sent_storage_get_callback.
  - reflexivity.
Qed.

(* ================================================================= *)
(** ** One capture and the events of the others *)

Lemma closure_step_other (k : nat) (c : Closure) (e : event) :
  addressed k e = false -> closure_step k c e = c.
Proof. destruct e; simpl; intros H; try rewrite H; reflexivity. Qed.

Lemma closure_fold_addressed (k : nat) (evs : list event) (c : Closure) :
  fold_left (closure_step k) (filter (addressed k) evs) c
  = fold_left (closure_step k) evs c.
Proof.
  revert c; induction evs as [|e evs IH]; intros c; simpl; [reflexivity|].
  destruct (addressed k e) eqn:E; simpl.
  - apply IH.
  - now rewrite (closure_step_other k c e E).
Qed.

(** X1. The variables that one call of [startRecord] closes over (ready
    flag, committed and pending text, cache) depend on the events sent to
    its own socket and recorder and on nothing else: two runs that deliver
    the same such events, in the same order, leave them equal, whatever
    start and stop requests, events of other captures, storage results or
    page contents differ. *)
Theorem closure_sees_only_its_events (w w' : world) (evs evs' : list event)
  (k : nat) (c : Closure) :
  nth_error (closures w) k = Some c ->
  nth_error (closures w') k = Some c ->
  filter (addressed k) evs = filter (addressed k) evs' ->
  nth_error (closures (run evs w)) k = nth_error (closures (run evs' w')) k.
Proof.
  intros H H' E.
  rewrite (run_closure evs w k c H), (run_closure evs' w' k c H').
  rewrite <- (closure_fold_addressed k evs),
    <- (closure_fold_addressed k evs'), E.
  reflexivity.
Qed.

Lemma closure_sees_only_its_events_witness :
  nth_error
    (closures
       (run [RuntimeMessage (js "stop_capture"); SocketOpen 0;
             SocketOpen 1; partial_event 0 [js "hi"]]
            (ex_started None None))) 0
  = nth_error
      (closures
         (run [SocketOpen 0; CloseButtonClick; partial_event 0 [js "hi"]]
              (ex_started (Some (js "old")) (Some (js "kept"))))) 0.
Proof.
  exact (closure_sees_only_its_events
           (ex_started None None)
           (ex_started (Some (js "old")) (Some (js "kept")))
           [RuntimeMessage (js "stop_capture"); SocketOpen 0;
            SocketOpen 1; partial_event 0 [js "hi"]]
           [SocketOpen 0; CloseButtonClick; partial_event 0 [js "hi"]]
           0
           {| cl_socket := 0; cl_context := Some 1;
              cl_sampleRate := 44100%float;
              isServerReady := false; completeTranscript := [];
              currentPartial := []; audioDataCache := [] |}
           eq_refl eq_refl eq_refl).
Defined.

Lemma closure_step_ready (k : nat) (c : Closure) (e : event) :
  isServerReady c = true ->
  isServerReady (closure_step k c e) = true
  /\ cl_socket (closure_step k c e) = cl_socket c
  /\ cl_context (closure_step k c e) = cl_context c
  /\ cl_sampleRate (closure_step k c e) = cl_sampleRate c.
Proof.
  intro H. destruct e as [t|s r|j|j d|j i|n|]; simpl; auto;
    destruct (Nat.eqb j k); simpl; auto.
  - unfold message_step. destruct d as [d|]; auto.
    destruct (msg_elements d); auto.
    destruct (jseqb (msg_type d) (js "partial")); auto.
    destruct (jseqb (msg_type d) (js "final")); auto.
  - unfold audio_step. destruct (cl_context c) eqn:E; [|now rewrite E].
    rewrite H.
    destruct (resampleTo16kHZ i (Some (cl_sampleRate c))); simpl;
      rewrite ?E; auto.
Qed.

Lemma closure_fold_ready (k : nat) (evs : list event) (c : Closure) :
  isServerReady c = true ->
  isServerReady (fold_left (closure_step k) evs c) = true
  /\ cl_socket (fold_left (closure_step k) evs c) = cl_socket c
  /\ cl_context (fold_left (closure_step k) evs c) = cl_context c
  /\ cl_sampleRate (fold_left (closure_step k) evs c) = cl_sampleRate c.
Proof.
  revert c; induction evs as [|e evs IH]; intros c H; simpl; [auto|].
  destruct (closure_step_ready k c e H) as (R & S & C & T).
  destruct (IH _ R) as (R' & S' & C' & T').
  rewrite S', C', T'. auto.
Qed.

(** X2. Nothing in the page ever unsets [isServerReady] or the audio
    context a closure holds.  Once a capture's connection has opened, every
    later audio callback of that capture whose buffer can be resampled is
    encoded and sent on that capture's socket, whatever happened in
    between: [stopRecording] included, which closes the socket and
    disconnects the recorder but leaves the callback's guard as it was. *)
Theorem ready_closure_always_sends (w : world) (evs : list event) (k : nat)
  (c : Closure) (ctx : nat) (inputData a : list float) :
  nth_error (closures w) k = Some c ->
  isServerReady c = true ->
  cl_context c = Some ctx ->
  resampleTo16kHZ inputData (Some (cl_sampleRate c)) = Return a ->
  new_effects (run evs w) (step (run evs w) (AudioProcess k inputData))
  = [ConsoleLog (js "Audio data sent to server");
     SocketSend (cl_socket c) (encode_frame a)].
Proof.
  intros Hk Hr Hc Ha.
  pose proof (run_closure evs w k c Hk) as Hk'.
  destruct (closure_fold_ready k evs c Hr) as (R & S & C & T).
  set (c' := fold_left (closure_step k) evs c) in *.
  apply new_effects_app.
  unfold step. cbn [dispatch]. unfold with_closure, bind, gets.
  cbn [fst snd]. rewrite Hk'.
  rewrite (proj2 (audio_closures (run evs w) k c' inputData Hk')).
  unfold frame_sent. rewrite C, Hc, R, T, Ha, S. reflexivity.
Qed.

Lemma ready_closure_always_sends_witness :
  new_effects
    (run [RuntimeMessage (js "stop_capture")]
         (run [SocketOpen 0] (ex_started None None)))
    (step (run [RuntimeMessage (js "stop_capture")]
               (run [SocketOpen 0] (ex_started None None)))
          (AudioProcess 0 []))
  = [ConsoleLog (js "Audio data sent to server");
     SocketSend 0 (encode_frame [])].
Proof.
  exact (ready_closure_always_sends
           (run [SocketOpen 0] (ex_started None None))
           [RuntimeMessage (js "stop_capture")] 0
           {| cl_socket := 0; cl_context := Some 1;
              cl_sampleRate := 44100%float;
              isServerReady := true; completeTranscript := [];
              currentPartial := []; audioDataCache := [] |}
           1 [] [] eq_refl eq_refl eq_refl eq_refl).
Defined.

(* ================================================================= *)
(** ** The transcript a closure keeps *)

Lemma Forall_replace_nth {A : Type} (P : A -> Prop) (j : nat) (l : list A)
  (v : A) :
  Forall P l -> P v -> Forall P (replace_nth j l v).
Proof.
  intros Hl Hv. revert j. induction Hl as [|a l Ha Hl IH]; intros [|j];
    simpl; constructor; auto.
Qed.

Lemma Forall_change_nth {A : Type} (P : A -> Prop) (j : nat) (f : A -> A)
  (l : list A) :
  (forall a, P a -> P (f a)) -> Forall P l -> Forall P (change_nth j f l).
Proof.
  intros Hf Hl. unfold change_nth.
  destruct (nth_error l j) as [a|] eqn:E; [|exact Hl].
  apply Forall_replace_nth; [exact Hl|].
  apply Hf. rewrite Forall_forall in Hl. apply Hl.
  now apply nth_error_In with j.
Qed.

Lemma no_lead_trimStart (s : jsstring) : no_lead (trimStart s) = true.
Proof.
  induction s as [|c r IH]; simpl; [reflexivity|].
  destruct (is_ws c) eqn:E; [exact IH|]. simpl. now rewrite E.
Qed.

Lemma no_lead_trimEnd (s : jsstring) :
  no_lead s = true -> no_lead (trimEnd s) = true.
Proof.
  destruct s as [|c r]; simpl; [reflexivity|]. intro H.
  destruct (trimEnd r).
  - apply negb_true_iff in H. rewrite H. simpl. now rewrite H.
  - exact H.
Qed.

Lemma message_step_tidy (c : Closure) (d : option message) :
  tidy c -> tidy (message_step c d).
Proof.
  intros (T1 & T2 & T3 & T4). unfold message_step.
  destruct d as [d|]; [|now repeat split].
  destruct (msg_elements d) as [elements|]; [|now repeat split].
  destruct (jseqb (msg_type d) (js "partial")).
  - unfold tidy. cbn [completeTranscript currentPartial set_currentPartial].
    repeat split; trivial.
    + unfold trim. apply no_lead_trimEnd, no_lead_trimStart.
    + unfold trim. apply trimEnd_idempotent.
  - destruct (jseqb (msg_type d) (js "final")); [|now repeat split].
    unfold tidy.
    cbn [completeTranscript currentPartial set_currentPartial
         set_completeTranscript].
    repeat split.
    + unfold trim. apply trimEnd_collapsed.
      apply (trimStart_collapsed false). apply replace_ws_collapsed.
    + unfold trim. apply trimEnd_idempotent.
Qed.

Lemma audio_step_texts (c : Closure) (inputData : list float) :
  completeTranscript (audio_step c inputData) = completeTranscript c
  /\ currentPartial (audio_step c inputData) = currentPartial c.
Proof.
  unfold audio_step. destruct (cl_context c); [|now split].
  destruct (isServerReady c); [|now split].
  destruct (resampleTo16kHZ inputData (Some (cl_sampleRate c))); now split.
Qed.

Lemma step_tidy (w : world) (e : event) :
  Forall tidy (closures w) -> Forall tidy (closures (step w e)).
Proof.
  intro H. rewrite step_closures.
  destruct e as [t|s r|j|j d|j i|n|]; cbn [closures_after]; trivial.
  - destruct s as [st|]; [|exact H].
    destruct (pending_captures w); [exact H|].
    apply Forall_app. split; [exact H|].
    constructor; [|constructor]. now repeat split.
  - apply Forall_change_nth; [|exact H]. intros a Ha. exact Ha.
  - apply Forall_change_nth; [|exact H]. intros a Ha.
    now apply message_step_tidy.
  - apply Forall_change_nth; [|exact H]. intros a (T1 & T2 & T3 & T4).
    destruct (audio_step_texts a i) as (E1 & E2).
    unfold tidy. rewrite E1, E2. now repeat split.
Qed.

(** X3. In every state the page can reach from its load, each capture's
    committed text is normalised (white space only as single spaces between
    other code units, none at either end) and its pending text is trimmed
    at both ends: the two variables that [socket.onmessage] keeps are only
    ever assigned results of [trim]. *)
Theorem transcripts_stay_tidy (container stored : option jsstring)
  (evs : list event) :
  Forall tidy (closures (run evs (initial_world container stored))).
Proof.
  induction evs as [|e evs IH] using rev_ind.
  - constructor.
  - rewrite run_snoc. now apply step_tidy.
Qed.

Lemma closure_step_content (k : nat) (c : Closure) (e : event) :
  content (completeTranscript (closure_step k c e))
  = content (completeTranscript c) ++ final_content k e.
Proof.
  destruct e as [t|s r|j|j d|j i|n|]; cbn [closure_step final_content];
    try (now rewrite app_nil_r).
  - destruct (Nat.eqb j k); now rewrite app_nil_r.
  - destruct d as [d|].
    + unfold message_step.
      destruct (msg_elements d) as [elements|];
        [|destruct (Nat.eqb j k); now rewrite app_nil_r].
      destruct (Nat.eqb j k); [|now rewrite app_nil_r].
      destruct (jseqb (msg_type d) (js "partial")); cbn [andb negb];
        [now rewrite app_nil_r|].
      destruct (jseqb (msg_type d) (js "final")); [|now rewrite app_nil_r].
      cbn [completeTranscript set_currentPartial set_completeTranscript].
      unfold content, trim, replace_ws.
      rewrite trimEnd_keeps_text, trimStart_keeps_text,
        replace_ws_keeps_text.
      rewrite !filter_app. reflexivity.
    + destruct (Nat.eqb j k); now rewrite app_nil_r.
  - destruct (Nat.eqb j k); [|now rewrite app_nil_r].
    rewrite (proj1 (audio_step_texts c i)). now rewrite app_nil_r.
Qed.

Lemma closure_fold_content (k : nat) (evs : list event) (c : Closure) :
  content (completeTranscript (fold_left (closure_step k) evs c))
  = content (completeTranscript c) ++ flat_map (final_content k) evs.
Proof.
  revert c; induction evs as [|e evs IH]; intro c; simpl.
  - now rewrite app_nil_r.
  - rewrite IH, closure_step_content, app_assoc. reflexivity.
Qed.

(** X4. The committed transcript of a capture is, white space aside, the
    text of the final events of its own socket in the order they came,
    after what it held before: partial events, events of other captures
    and start or stop requests add nothing to it and remove nothing from
    it, and no final event is dropped or reordered. *)
Theorem committed_text_is_the_finals (w : world) (evs : list event)
  (k : nat) (c : Closure) :
  nth_error (closures w) k = Some c ->
  exists c',
    nth_error (closures (run evs w)) k = Some c'
    /\ content (completeTranscript c')
       = content (completeTranscript c) ++ flat_map (final_content k) evs.
Proof.
  intro H. exists (fold_left (closure_step k) evs c). split.
  - now apply run_closure.
  - apply closure_fold_content.
Qed.

Lemma committed_text_is_the_finals_witness :
  exists c',
    nth_error
      (closures
         (run [final_event 0 [js "hi"; js "there"];
               partial_event 0 [js "you"];
               final_event 1 [js "lost"];
               RuntimeMessage (js "stop_capture");
               final_event 0 [js " you  two"]]
              (ex_started None None))) 0 = Some c'
    /\ content (completeTranscript c')
       = content [] ++
         flat_map (final_content 0)
           [final_event 0 [js "hi"; js "there"];
            partial_event 0 [js "you"];
            final_event 1 [js "lost"];
            RuntimeMessage (js "stop_capture");
            final_event 0 [js " you  two"]].
Proof.
  exact (committed_text_is_the_finals
           (ex_started None None)
           [final_event 0 [js "hi"; js "there"];
            partial_event 0 [js "you"];
            final_event 1 [js "lost"];
            RuntimeMessage (js "stop_capture");
            final_event 0 [js " you  two"]]
           0
           {| cl_socket := 0; cl_context := Some 1;
              cl_sampleRate := 44100%float;
              isServerReady := false; completeTranscript := [];
              currentPartial := []; audioDataCache := [] |}
           eq_refl).
Defined.

(* ================================================================= *)
(** ** The audio callback *)

Lemma clamp_product_sign (x : float) (z : Z) :
  ToInteger (clamp x * (if x <? 0 then 32768 else 32767))%float = Some z ->
  (if (x <? 0)%float then -32768 <= z <= 0 else 0 <= z <= 32767)%Z.
Proof.
  destruct (Prim2SF x) as [s|s| |s m e] eqn:E.
  - rewrite (float_of_spec x _ E).
    destruct s; intro H; vm_compute in H; injection H as <-.
    + change (SF2Prim (S754_zero true) <? 0)%float with false. cbv iota. lia.
    + change (SF2Prim (S754_zero false) <? 0)%float with false. cbv iota. lia.
  - rewrite (float_of_spec x _ E).
    destruct s; intro H; vm_compute in H; injection H as <-.
    + change (SF2Prim (S754_infinity true) <? 0)%float with true. cbv iota. lia.
    + change (SF2Prim (S754_infinity false) <? 0)%float with false. cbv iota. lia.
  - rewrite (float_of_spec x _ E). intro H; vm_compute in H.
    injection H as <-.
    change (SF2Prim S754_nan <? 0)%float with false. cbv iota. lia.
  - unfold clamp. destruct (x <? -1)%float eqn:C2.
    { destruct (below_minus_one_negative x C2) as (_ & -> & _).
      change (ToInteger (-1 * 32768)%float) with (Some (-32768)%Z).
      intro H; injection H as <-. lia. }
    destruct (1 <? x)%float eqn:B1.
    { destruct (above_one_not_below x B1) as (_ & -> & _).
      change (ToInteger (1 * 32767)%float) with (Some 32767%Z).
      intro H; injection H as <-. lia. }
    assert (S0 : (x <? 0)%float = s).
    { rewrite ltb_spec, E. change (Prim2SF 0) with (S754_zero false).
      now destruct s. }
    rewrite S0. destruct s; intro H.
    + destruct (not_below_minus_one x m e E C2) as [He Hm].
      pose proof (product_range x 32768%float true m 4503599627370496 e (-37)
                    32768 z E eq_refl He Hm ltac:(lia) eq_refl ltac:(lia) H).
      cbv beta iota in H0. lia.
    + destruct (not_above_one x m e E B1) as [He Hm].
      pose proof (product_range x 32767%float false m 9006924376834048 e (-38)
                    32767 z E eq_refl He Hm ltac:(lia) eq_refl ltac:(lia) H).
      cbv beta iota in H0. lia.
Qed.

Lemma encode_frame_int16 (a : list float) : Forall is_int16 (encode_frame a).
Proof.
  unfold encode_frame. apply Forall_forall. intros z Hz.
  apply in_map_iff in Hz as (x & <- & _).
  unfold is_int16. rewrite encode_sample_clamp.
  set (p := (clamp x * (if x <? 0 then 32768 else 32767))%float).
  destruct (ToInteger p) as [z|] eqn:T.
  - pose proof (clamp_product_range x z T) as R.
    now rewrite (ToInt16_small p z T R).
  - unfold ToInt16. rewrite T. lia.
Qed.

Lemma resample_returns (audioData : list float) (orig : float) (n : Z) :
  ToIndex (targetLength_of audioData orig) = Some n ->
  exists out,
    resampleTo16kHZ audioData (Some orig) = Return out
    /\ Z.of_nat (length out) = n.
Proof.
  intro HT. destruct (resample_unfold audioData orig n HT) as [E Hn].
  cbv zeta in E. eexists. split; [exact E|].
  rewrite loop_length, !f32_set_length, repeat_length. now apply Z2Nat.id.
Qed.

Lemma resample_throws (audioData : list float) (orig : float) :
  ToIndex (targetLength_of audioData orig) = None ->
  resampleTo16kHZ audioData (Some orig) = Throw RangeError.
Proof.
  intro HT. unfold resampleTo16kHZ. cbv zeta.
  rewrite targetLength_of_data. unfold new_Float32Array. now rewrite HT.
Qed.

(** X5. A sample below zero is encoded as an integer of -32768..0 and
    every other sample (NaN included) as one of 0..32767: the scaling by
    32768 or 32767 and the store into the [Int16Array] never turn the sign
    of a sample around. *)
Theorem encode_sample_keeps_sign (x : float) :
  (if (x <? 0)%float then -32768 <= encode_sample x <= 0
   else 0 <= encode_sample x <= 32767)%Z.
Proof.
  rewrite encode_sample_clamp.
  set (p := (clamp x * (if x <? 0 then 32768 else 32767))%float).
  destruct (ToInteger p) as [z|] eqn:T.
  - pose proof (clamp_product_sign x z T) as R.
    assert (R' : (-32768 <= z <= 32767)%Z)
      by (destruct (x <? 0)%float; lia).
    rewrite (ToInt16_small p z T R'). exact R.
  - unfold ToInt16. rewrite T. destruct (x <? 0)%float; lia.
Qed.

(** X6. An audio callback of a capture whose connection has opened, with a
    buffer whose target length [n] is a valid array length, does exactly
    this: it sends one frame on the capture's socket, of [n] integers that
    all lie in the 16-bit signed range, appends the raw buffer to the
    cache, and logs one line after the send. *)
Theorem audio_callback_sends_one_frame (w : world) (k : nat) (c : Closure)
  (ctx : nat) (inputData : list float) (n : Z) :
  nth_error (closures w) k = Some c ->
  cl_context c = Some ctx ->
  isServerReady c = true ->
  ToIndex (targetLength_of inputData (cl_sampleRate c)) = Some n ->
  exists frame : list Z,
    new_effects w (step w (AudioProcess k inputData))
    = [ConsoleLog (js "Audio data sent to server");
       SocketSend (cl_socket c) frame]
    /\ Z.of_nat (length frame) = n
    /\ Forall is_int16 frame
    /\ nth_error (closures (step w (AudioProcess k inputData))) k
       = Some (set_audioDataCache (audioDataCache c ++ [inputData]) c).
Proof.
  intros Hk Hc Hr HT.
  destruct (resample_returns inputData (cl_sampleRate c) n HT)
    as (out & E & L).
  exists (encode_frame out). repeat split.
  - apply new_effects_app. unfold step. cbn [dispatch].
    unfold with_closure, bind, gets. cbn [fst snd]. rewrite Hk.
    rewrite (proj2 (audio_closures w k c inputData Hk)).
    unfold frame_sent. rewrite Hc, Hr, E. reflexivity.
  - unfold encode_frame. now rewrite length_map.
  - apply encode_frame_int16.
  - rewrite (step_closure w _ k c Hk). cbn [closure_step].
    rewrite Nat.eqb_refl. unfold audio_step. now rewrite Hc, Hr, E.
Qed.

Lemma audio_callback_sends_one_frame_witness :
  exists frame : list Z,
    new_effects (run [SocketOpen 0] (ex_started None None))
      (step (run [SocketOpen 0] (ex_started None None))
            (AudioProcess 0 [1; 0; -1; 0; 1; 0]%float))
    = [ConsoleLog (js "Audio data sent to server"); SocketSend 0 frame]
    /\ Z.of_nat (length frame) = 2%Z
    /\ Forall is_int16 frame
    /\ nth_error
         (closures
            (step (run [SocketOpen 0] (ex_started None None))
                  (AudioProcess 0 [1; 0; -1; 0; 1; 0]%float))) 0
       = Some (set_audioDataCache
                 ([] ++ [[1; 0; -1; 0; 1; 0]%float])
                 {| cl_socket := 0; cl_context := Some 1;
                    cl_sampleRate := 44100%float;
                    isServerReady := true; completeTranscript := [];
                    currentPartial := []; audioDataCache := [] |}).
Proof.
  exact (audio_callback_sends_one_frame
           (run [SocketOpen 0] (ex_started None None)) 0
           {| cl_socket := 0; cl_context := Some 1;
              cl_sampleRate := 44100%float;
              isServerReady := true; completeTranscript := [];
              currentPartial := []; audioDataCache := [] |}
           1 [1; 0; -1; 0; 1; 0]%float 2%Z
           eq_refl eq_refl eq_refl eq_refl).
Defined.

(** X7. When the target length is no valid array length (the sample rate
    of the context is 0, negative or too small for the buffer), the
    [RangeError] of [new Float32Array] ends the callback before anything is
    sent, cached or logged: the page is left exactly as it was. *)
Theorem audio_callback_with_bad_length (w : world) (k : nat) (c : Closure)
  (inputData : list float) :
  nth_error (closures w) k = Some c ->
  ToIndex (targetLength_of inputData (cl_sampleRate c)) = None ->
  dispatch (AudioProcess k inputData) w
  = (w, match cl_context c with
        | Some _ => if isServerReady c then Throw RangeError else Return tt
        | None => Return tt
        end).
Proof.
  intros Hk HT. cbn [dispatch]. unfold with_closure, bind, gets.
  cbn [fst snd]. rewrite Hk. unfold recorder_onaudioprocess.
  destruct (cl_context c); [|reflexivity].
  destruct (isServerReady c); [|reflexivity]. cbn [negb].
  rewrite (resample_throws _ _ HT). reflexivity.
Qed.

Lemma audio_callback_with_bad_length_witness :
  dispatch (AudioProcess 0 [1; 0]%float)
    (run [RuntimeMessage (js "start_capture");
          CaptureResolved (Some ex_stream) 0%float; SocketOpen 0]
         (initial_world None None))
  = (run [RuntimeMessage (js "start_capture");
          CaptureResolved (Some ex_stream) 0%float; SocketOpen 0]
         (initial_world None None),
     Throw RangeError).
Proof.
  exact (audio_callback_with_bad_length
           (run [RuntimeMessage (js "start_capture");
                 CaptureResolved (Some ex_stream) 0%float; SocketOpen 0]
                (initial_world None None)) 0
           {| cl_socket := 0; cl_context := Some 1;
              cl_sampleRate := 0%float;
              isServerReady := true; completeTranscript := [];
              currentPartial := []; audioDataCache := [] |}
           [1; 0]%float eq_refl eq_refl).
Defined.

(* ================================================================= *)
(** ** The cache of sent buffers *)

Lemma list_sum_replace_nth {A : Type} (g : A -> nat) (j : nat) (l : list A)
  (a v : A) :
  nth_error l j = Some a ->
  list_sum (map g (replace_nth j l v)) + g a = list_sum (map g l) + g v.
Proof.
  revert j; induction l as [|x l IH]; intros [|j] H; simpl in *;
    try discriminate.
  - injection H as ->. lia.
  - specialize (IH j H). lia.
Qed.

Lemma audio_step_cache (c : Closure) (inputData : list float) :
  length (audioDataCache (audio_step c inputData))
  = length (audioDataCache c) + length (frame_sent c inputData).
Proof.
  unfold audio_step, frame_sent. destruct (cl_context c); [|simpl; lia].
  destruct (isServerReady c); [|simpl; lia].
  destruct (resampleTo16kHZ inputData (Some (cl_sampleRate c)));
    [|simpl; lia].
  cbn [audioDataCache set_audioDataCache]. rewrite length_app. reflexivity.
Qed.

Lemma message_step_cache (c : Closure) (d : option message) :
  audioDataCache (message_step c d) = audioDataCache c.
Proof.
  unfold message_step. destruct d as [d|]; [|reflexivity].
  destruct (msg_elements d); [|reflexivity].
  destruct (jseqb (msg_type d) (js "partial")); [reflexivity|].
  destruct (jseqb (msg_type d) (js "final")); reflexivity.
Qed.

Lemma step_total_cached (w : world) (e : event) :
  total_cached (step w e) = total_cached w + length (frames_of w e).
Proof.
  unfold total_cached. rewrite step_closures.
  set (g := fun c : Closure => length (audioDataCache c)).
  destruct e as [t|s r|j|j d|j i|n|]; cbn [closures_after frames_of length];
    try (now rewrite Nat.add_0_r).
  - destruct s as [st|]; [|now rewrite Nat.add_0_r].
    destruct (pending_captures w); [now rewrite Nat.add_0_r|].
    rewrite map_app, list_sum_app. reflexivity.
  - unfold change_nth.
    destruct (nth_error (closures w) j) as [cj|] eqn:Hj;
      [|now rewrite Nat.add_0_r].
    rewrite (map_replace_nth_same g j _ (set_isServerReady true cj) cj Hj
               eq_refl).
    now rewrite Nat.add_0_r.
  - unfold change_nth.
    destruct (nth_error (closures w) j) as [cj|] eqn:Hj;
      [|now rewrite Nat.add_0_r].
    rewrite (map_replace_nth_same g j _ (message_step cj d) cj Hj)
      by (unfold g; now rewrite message_step_cache).
    now rewrite Nat.add_0_r.
  - unfold change_nth.
    destruct (nth_error (closures w) j) as [cj|] eqn:Hj;
      [|now rewrite Nat.add_0_r].
    pose proof (list_sum_replace_nth g j (closures w) cj (audio_step cj i)
                  Hj) as S.
    assert (G : g (audio_step cj i) = g cj + length (frame_sent cj i))
      by apply audio_step_cache.
    lia.
Qed.

(** X8. In every state the page can reach from its load, the caches of the
    closures hold as many buffers as frames have been sent: a buffer is
    cached exactly when its frame was sent.  No event takes a buffer out of
    a cache or a frame out of the record of what was sent, so the caches
    only grow while audio is streamed; [stopRecording] does not empty
    them. *)
Theorem cache_holds_every_sent_buffer (container stored : option jsstring)
  (evs more : list event) :
  total_cached (run evs (initial_world container stored))
  = length (sent_frames (run evs (initial_world container stored)))
  /\ total_cached (run evs (initial_world container stored))
     <= total_cached (run (evs ++ more) (initial_world container stored)).
Proof.
  split.
  - induction evs as [|x evs IH] using rev_ind; [reflexivity|].
    rewrite run_snoc, step_total_cached, step_sent_frames, length_app.
    lia.
  - induction more as [|x more IH] using rev_ind.
    + rewrite app_nil_r. apply Nat.le_refl.
    + rewrite app_assoc, run_snoc, step_total_cached. lia.
Qed.

(* ================================================================= *)
(** ** Messages the reconciler cannot use *)

(** X9. A message of the service that [socket.onmessage] cannot use leaves
    the page exactly as it was: data that is no JSON ends the handler with
    a [SyntaxError], a message without [elements] (whatever its type) with
    a [TypeError] from [data.elements.map], and a message with elements
    whose type is neither "partial" nor "final" is ignored.  Transcript,
    page text, storage and log are untouched in all three cases. *)
Theorem unusable_message_changes_nothing (w : world) (k : nat)
  (c : Closure) (type : jsstring) (elements : list jsstring) :
  nth_error (closures w) k = Some c ->
  jseqb type (js "partial") = false ->
  jseqb type (js "final") = false ->
  dispatch (SocketMessage k None) w = (w, Throw SyntaxError)
  /\ (forall any : jsstring,
        dispatch
          (SocketMessage k
             (Some {| msg_type := any; msg_elements := None |})) w
        = (w, Throw TypeError))
  /\ dispatch
       (SocketMessage k
          (Some {| msg_type := type; msg_elements := Some elements |})) w
     = (w, Return tt).
Proof.
  intros Hk Hp Hf.
  repeat split; [|intro any|]; cbn [dispatch];
    unfold with_closure, bind, gets; cbn [fst snd]; rewrite Hk;
    unfold socket_onmessage, bind, ret, throw, deref;
    cbn [msg_type msg_elements fst snd]; try reflexivity.
  now rewrite Hp, Hf.
Qed.

Lemma unusable_message_changes_nothing_witness :
  dispatch (SocketMessage 0 None) (ex_started (Some []) None)
  = (ex_started (Some []) None, Throw SyntaxError)
  /\ (forall any : jsstring,
        dispatch
          (SocketMessage 0
             (Some {| msg_type := any; msg_elements := None |}))
          (ex_started (Some []) None)
        = (ex_started (Some []) None, Throw TypeError))
  /\ dispatch
       (SocketMessage 0
          (Some {| msg_type := js "connected";
                   msg_elements := Some [js "x"] |}))
       (ex_started (Some []) None)
     = (ex_started (Some []) None, Return tt).
Proof.
  exact (unusable_message_changes_nothing
           (ex_started (Some []) None) 0
           {| cl_socket := 0; cl_context := Some 1;
              cl_sampleRate := 44100%float;
              isServerReady := false; completeTranscript := [];
              currentPartial := []; audioDataCache := [] |}
           (js "connected") [js "x"] eq_refl eq_refl eq_refl).
Defined.

(* ================================================================= *)
(** ** A page without the transcription container *)

Lemma step_partial_no_container (w : world) (k : nat) (c : Closure)
  (elements : list jsstring) :
  nth_error (closures w) k = Some c ->
  transcription_container w = None ->
  dispatch (partial_event k elements) w
  = ({| recordingSession := recordingSession w;
        closures :=
          replace_nth k (closures w)
            (set_currentPartial (trim (join (js " ") elements)) c);
        pending_captures := pending_captures w;
        pending_gets := pending_gets w;
        currentTranscription := currentTranscription w;
        transcription_container := Some [];
        next_handle := next_handle w;
        log := CreateContainer :: log w |}, Throw TypeError).
Proof.
  intros Hk Hd. destruct w as [rs cls pc pg ct tc nh lg]. simpl in Hk, Hd.
  subst tc.
  unfold partial_event, dispatch, with_closure, bind, gets.
  cbn [closures fst snd]. rewrite Hk.
  unfold socket_onmessage, updateTranscriptionUI, update_closure, bind, gets,
    modify, deref, ret, emit.
  cbn. rewrite Hk. reflexivity.
Qed.

(** X10. On a page without the transcription container the first partial
    event is taken into the closure's pending text, but its display is
    lost: [updateTranscriptionUI] creates the container, throws on the
    [null] it had looked up, and neither shows nor stores the text.  The
    container it created makes the next partial event show and store its
    text as on any other page. *)
Theorem first_text_without_container_is_lost (w : world) (k : nat)
  (c : Closure) (e1 e2 : list jsstring) :
  nth_error (closures w) k = Some c ->
  transcription_container w = None ->
  let w1 := step w (partial_event k e1) in
  let w2 := step w1 (partial_event k e2) in
  snd (dispatch (partial_event k e1) w) = Throw TypeError
  /\ new_effects w w1 = [CreateContainer]
  /\ transcription_container w1 = Some []
  /\ currentTranscription w1 = currentTranscription w
  /\ transcript_of k w1
     = Some (completeTranscript c, trim (join (js " ") e1))
  /\ transcription_container w2
     = Some (displayed (completeTranscript c) (trim (join (js " ") e2)))
  /\ currentTranscription w2
     = Some (displayed (completeTranscript c) (trim (join (js " ") e2))).
Proof.
  intros Hk Hd. cbv zeta. unfold step at 1 2 3 4 6 8.
  rewrite (step_partial_no_container w k c e1 Hk Hd). cbn [fst snd].
  set (c1 := set_currentPartial (trim (join (js " ") e1)) c).
  set (w1 := {| recordingSession := recordingSession w;
                closures := replace_nth k (closures w) c1;
                pending_captures := pending_captures w;
                pending_gets := pending_gets w;
                currentTranscription := currentTranscription w;
                transcription_container := Some [];
                next_handle := next_handle w;
                log := CreateContainer :: log w |}).
  assert (Hk1 : nth_error (closures w1) k = Some c1)
    by (apply (nth_error_replace_nth_eq k _ _ c Hk)).
  destruct (after_partial w1 k c1 e2 [] Hk1 eq_refl) as (_ & D & S).
  cbv zeta in D, S.
  split; [reflexivity|]. split; [now apply new_effects_app|].
  split; [reflexivity|]. split; [reflexivity|].
  split; [unfold transcript_of; now rewrite Hk1|].
  split; [exact D | exact S].
Qed.

Lemma first_text_without_container_is_lost_witness :
  snd (dispatch (partial_event 0 [js "hi"]) (ex_started None None))
  = Throw TypeError
  /\ new_effects (ex_started None None)
       (step (ex_started None None) (partial_event 0 [js "hi"]))
     = [CreateContainer]
  /\ transcription_container
       (step (ex_started None None) (partial_event 0 [js "hi"])) = Some []
  /\ currentTranscription
       (step (ex_started None None) (partial_event 0 [js "hi"])) = None
  /\ transcript_of 0
       (step (ex_started None None) (partial_event 0 [js "hi"]))
     = Some ([], trim (join (js " ") [js "hi"]))
  /\ transcription_container
       (step (step (ex_started None None) (partial_event 0 [js "hi"]))
             (partial_event 0 [js "hi"; js "there"]))
     = Some (displayed [] (trim (join (js " ") [js "hi"; js "there"])))
  /\ currentTranscription
       (step (step (ex_started None None) (partial_event 0 [js "hi"]))
             (partial_event 0 [js "hi"; js "there"]))
     = Some (displayed [] (trim (join (js " ") [js "hi"; js "there"]))).
Proof.
  exact (first_text_without_container_is_lost
           (ex_started None None) 0
           {| cl_socket := 0; cl_context := Some 1;
              cl_sampleRate := 44100%float;
              isServerReady := false; completeTranscript := [];
              currentPartial := []; audioDataCache := [] |}
           [js "hi"] [js "hi"; js "there"] eq_refl eq_refl).
Defined.

(* ================================================================= *)
(** ** What the export holds *)

(** X11. The exported file holds the text shown last, not the committed
    transcript: when a partial event is followed by a stop request, the
    file downloaded by the storage callback is the committed text joined
    with the pending text of that event, which no final event has
    confirmed. *)
Theorem export_holds_pending_text (w : world) (k : nat) (c : Closure)
  (s : Session) (elements : list jsstring) (old now : jsstring) :
  nth_error (closures w) k = Some c ->
  transcription_container w = Some old ->
  recordingSession w = Some s ->
  pending_gets w = [] ->
  displayed (completeTranscript c) (trim (join (js " ") elements)) <> [] ->
  new_effects (step w (partial_event k elements))
    (run [RuntimeMessage (js "stop_capture"); StorageGetResult now]
         (step w (partial_event k elements)))
  = DownloadsDownload
      (displayed (completeTranscript c) (trim (join (js " ") elements)))
      (js "text/plain")
      (js "transcription-" ++ replace_colon_dot now ++ js ".txt") false
    :: SendResponse (js "stopped") :: StorageGet :: rev (teardown s).
Proof.
  intros Hk Hd Hs Hq Hne.
  pose proof (step_partial w k c elements old Hk Hd) as E. cbv zeta in E.
  set (w1 := step w (partial_event k elements)) in *.
  assert (Hs1 : recordingSession w1 = Some s) by (rewrite E; exact Hs).
  assert (Hq1 : pending_gets w1 = []) by (rewrite E; exact Hq).
  assert (Ht1 : currentTranscription w1
                = Some (displayed (completeTranscript c)
                          (trim (join (js " ") elements))))
    by (rewrite E; reflexivity).
  apply new_effects_app.
  rewrite (stop_then_callback w1 s now Hs1 Hq1), Ht1.
  destruct (displayed (completeTranscript c)
              (trim (join (js " ") elements))) as [|u text];
    [now contradiction Hne | reflexivity].
Qed.

Lemma export_holds_pending_text_witness :
  new_effects
    (step (ex_started (Some []) None) (partial_event 0 [js "maybe"]))
    (run [RuntimeMessage (js "stop_capture"); StorageGetResult ex_now]
         (step (ex_started (Some []) None) (partial_event 0 [js "maybe"])))
  = DownloadsDownload
      (displayed [] (trim (join (js " ") [js "maybe"])))
      (js "text/plain")
      (js "transcription-" ++ replace_colon_dot ex_now ++ js ".txt") false
    :: SendResponse (js "stopped") :: StorageGet
    :: rev (teardown
              {| rs_stream := Some ex_stream; rs_socket := Some 0;
                 rs_recorder := Some 3; rs_context := Some 1;
                 rs_mediaStream := Some 2 |}).
Proof.
  exact (export_holds_pending_text
           (ex_started (Some []) None) 0
           {| cl_socket := 0; cl_context := Some 1;
              cl_sampleRate := 44100%float;
              isServerReady := false; completeTranscript := [];
              currentPartial := []; audioDataCache := [] |}
           {| rs_stream := Some ex_stream; rs_socket := Some 0;
              rs_recorder := Some 3; rs_context := Some 1;
              rs_mediaStream := Some 2 |}
           [js "maybe"] [] ex_now eq_refl eq_refl eq_refl eq_refl
           ltac:(discriminate)).
Defined.

Lemma teardown_no_download (s : Session) :
  filter is_download (rev (teardown s)) = [].
Proof.
  assert (T : forall l, filter is_download (map TrackStop l) = [])
    by (induction l; simpl; auto).
  rewrite filter_rev. unfold teardown. rewrite !filter_app.
  destruct (rs_socket s), (rs_recorder s), (rs_mediaStream s),
    (rs_context s), (rs_stream s); cbn [filter is_download app];
    rewrite ?T; reflexivity.
Qed.

(** X12. [startRecord] does not clear the stored transcript.  A capture
    that is started while storage still holds a text, and stopped before
    any transcript event of its own, exports that stored text: the file
    holds the transcript of an earlier capture. *)
Theorem stop_exports_earlier_transcript (w : world) (st : MediaStream)
  (rate : float) (now : jsstring) (u : N) (text : jsstring) :
  currentTranscription w = Some (u :: text) ->
  pending_gets w = [] ->
  filter is_download
    (new_effects w
       (run [RuntimeMessage (js "start_capture");
             CaptureResolved (Some st) rate;
             RuntimeMessage (js "stop_capture");
             StorageGetResult now] w))
  = [DownloadsDownload (u :: text) (js "text/plain")
       (js "transcription-" ++ replace_colon_dot now ++ js ".txt") false].
Proof.
  intros Ht Hq.
  rewrite (run_app [RuntimeMessage (js "start_capture");
                    CaptureResolved (Some st) rate]
                   [RuntimeMessage (js "stop_capture");
                    StorageGetResult now] w
           : run [RuntimeMessage (js "start_capture");
                  CaptureResolved (Some st) rate;
                  RuntimeMessage (js "stop_capture");
                  StorageGetResult now] w = _).
  set (w1 := run [RuntimeMessage (js "start_capture");
                  CaptureResolved (Some st) rate] w).
  pose proof (start_then_stream w st rate) as E. fold w1 in E.
  assert (Hs1 : recordingSession w1
                = Some {| rs_stream := Some st;
                          rs_socket := Some (next_handle w);
                          rs_recorder := Some (3 + next_handle w);
                          rs_context := Some (1 + next_handle w);
                          rs_mediaStream := Some (2 + next_handle w) |})
    by (rewrite E; reflexivity).
  assert (Hq1 : pending_gets w1 = []) by (rewrite E; exact Hq).
  assert (Ht1 : currentTranscription w1 = Some (u :: text))
    by (rewrite E; exact Ht).
  assert (Hl1 : exists new, log w1 = new ++ log w
                            /\ filter is_download new = []).
  { rewrite E. eexists. split; [reflexivity|reflexivity]. }
  destruct Hl1 as (new & Hl1 & Hnew).
  pose proof (stop_then_callback w1 _ now Hs1 Hq1) as L.
  rewrite Ht1, Hl1, app_assoc in L.
  rewrite (new_effects_app w _ _ L).
  rewrite !filter_app, Hnew, app_nil_r. cbn [filter is_download app].
  now rewrite teardown_no_download.
Qed.

Lemma stop_exports_earlier_transcript_witness :
  filter is_download
    (new_effects (initial_world (Some []) (Some (js "old talk")))
       (run [RuntimeMessage (js "start_capture");
             CaptureResolved (Some ex_stream) 44100%float;
             RuntimeMessage (js "stop_capture");
             StorageGetResult ex_now]
            (initial_world (Some []) (Some (js "old talk")))))
  = [DownloadsDownload (111%N :: js "ld talk") (js "text/plain")
       (js "transcription-" ++ replace_colon_dot ex_now ++ js ".txt") false].
Proof.
  exact (stop_exports_earlier_transcript
           (initial_world (Some []) (Some (js "old talk")))
           ex_stream 44100%float ex_now 111%N (js "ld talk")
           eq_refl eq_refl).
Defined.

(* ================================================================= *)
(** ** A capture that is started over a running one *)

Lemma releases_update_closure (h k : nat) (f : Closure -> Closure) :
  preservesM
    (fun w => (filter (releases h) (log w), recordingSession w, next_handle w))
    (update_closure k f).
Proof.
  intro w. unfold update_closure, modify. cbn [fst].
  now destruct (nth_error (closures w) k).
Qed.

Lemma other_events_release_nothing (h : nat) (e : event) :
  match e with
  | RuntimeMessage _ | CaptureResolved _ _ => True
  | _ =>
      preservesM
        (fun w =>
           (filter (releases h) (log w), recordingSession w, next_handle w))
        (dispatch e)
  end.
Proof.
  destruct e as [t|s r|j|j d|j i|n|]; trivial; cbn [dispatch];
    unfold with_closure, socket_onopen, socket_onmessage,
      recorder_onaudioprocess, updateTranscriptionUI, storage_get_callback,
      downloadTranscription, emit;
    preserves_auto; apply releases_update_closure.
Qed.

Lemma step_CaptureResolved_stream (w : world) (st : MediaStream)
  (rate : float) (n : nat) :
  pending_captures w = S n ->
  recordingSession (step w (CaptureResolved (Some st) rate))
  = Some {| rs_stream := Some st;
            rs_socket := Some (next_handle w);
            rs_recorder := Some (3 + next_handle w);
            rs_context := Some (1 + next_handle w);
            rs_mediaStream := Some (2 + next_handle w) |}
  /\ next_handle (step w (CaptureResolved (Some st) rate))
     = 4 + next_handle w
  /\ forall h,
       filter (releases h) (log (step w (CaptureResolved (Some st) rate)))
       = filter (releases h) (log w).
Proof.
  intro H. destruct w as [rs cls pc pg ct tc nh lg]. simpl in H. subst pc.
  repeat split.
Qed.

Lemma teardown_releases (h : nat) (w : world) (s : Session) :
  recordingSession w = Some s ->
  Forall (fun a => h + 4 <= a) (session_handles w) ->
  filter (releases h) (rev (teardown s)) = [].
Proof.
  intros Hs Hh. unfold session_handles in Hh. rewrite Hs in Hh.
  assert (T : forall l, filter (releases h) (map TrackStop l) = [])
    by (induction l; simpl; auto).
  assert (R : forall a, h + 4 <= a -> Nat.leb h a && Nat.ltb a (4 + h) = false).
  { intros a Ha. apply andb_false_iff. right. apply Nat.ltb_ge. lia. }
  rewrite filter_rev. unfold teardown. rewrite !filter_app.
  rewrite !Forall_app in Hh. destruct Hh as (H1 & H2 & H3 & H4).
  destruct (rs_socket s), (rs_recorder s), (rs_mediaStream s),
    (rs_context s), (rs_stream s); cbn [filter releases app];
    repeat match goal with
           | H : Forall _ [_] |- _ => inversion_clear H
           end;
    rewrite ?R by assumption; rewrite ?T; reflexivity.
Qed.

Lemma step_releases (h : nat) (w : world) (e : event) :
  h + 4 <= next_handle w ->
  Forall (fun a => h + 4 <= a) (session_handles w) ->
  h + 4 <= next_handle (step w e)
  /\ Forall (fun a => h + 4 <= a) (session_handles (step w e))
  /\ filter (releases h) (log (step w e)) = filter (releases h) (log w).
Proof.
  intros Hn Hs.
  pose proof (other_events_release_nothing h e) as P.
  destruct e as [t|st r|j|j d|j i|n|];
    try (cbv beta iota in P; unfold preservesM in P; specialize (P w);
         cbv beta in P; injection P as P1 P2 P3;
         unfold step, session_handles in *; cbn [dispatch] in *;
         rewrite P1, P2, P3;
         repeat split; assumption).
  - unfold step. cbn [dispatch]. unfold runtime_onMessage.
    destruct (jseqb t (js "start_capture")).
    { destruct w; repeat split; assumption. }
    destruct (jseqb t (js "stop_capture")); [|now repeat split].
    change ((stopRecording ;; emit (SendResponse (js "stopped"))) w)
      with (dispatch (RuntimeMessage (js "stop_capture")) w).
    rewrite stop_message. cbn [fst].
    destruct (recordingSession w) as [s|] eqn:E.
    + rewrite (stopRecording_active w s E). cbn [fst log set_log].
      unfold session_handles.
      cbn [recordingSession next_handle set_log log].
      repeat split; [exact Hn | constructor |].
      cbn [filter releases]. rewrite filter_app.
      now rewrite (teardown_releases h w s E Hs).
    + rewrite (stopRecording_idle w E). cbn [fst].
      destruct w; repeat split; assumption.
  - destruct (pending_captures w) as [|n] eqn:E.
    + unfold step. cbn [dispatch]. unfold bind, gets. cbn [fst snd].
      rewrite E. now repeat split.
    + destruct st as [st|].
      * destruct (step_CaptureResolved_stream w st r n E) as (S1 & S2 & S3).
        unfold session_handles. rewrite S1, S2, S3.
        cbn [rs_socket rs_recorder rs_mediaStream rs_context app].
        repeat split; [lia|].
        repeat (apply Forall_cons; [lia|]). apply Forall_nil.
      * unfold step. cbn [dispatch]. unfold bind, gets. cbn [fst snd].
        rewrite E. destruct w; repeat split; assumption.
  - destruct w; repeat split; assumption.
Qed.

Lemma run_releases (h : nat) (evs : list event) (w : world) :
  h + 4 <= next_handle w ->
  Forall (fun a => h + 4 <= a) (session_handles w) ->
  filter (releases h) (log (run evs w)) = filter (releases h) (log w).
Proof.
  revert w; induction evs as [|e evs IH]; intros w Hn Hs; [reflexivity|].
  destruct (step_releases h w e Hn Hs) as (Hn' & Hs' & Hl).
  change (run (e :: evs) w) with (run evs (step w e)).
  now rewrite IH, Hl.
Qed.

(** X13. A start request that arrives while a capture is running replaces
    the session kept for [stopRecording]; the earlier capture is not torn
    down first.  From then on the socket, the audio context, the source and
    the recorder of the earlier capture are out of reach: whatever events
    follow, stop requests included, none of the four is ever closed or
    disconnected, while its callbacks stay registered. *)
Theorem earlier_capture_is_never_released (w : world)
  (st1 st2 : MediaStream) (r1 r2 : float) (evs : list event) :
  sockets
    (run [RuntimeMessage (js "start_capture"); CaptureResolved (Some st1) r1;
          RuntimeMessage (js "start_capture"); CaptureResolved (Some st2) r2]
         w)
  = sockets w ++ [next_handle w; 4 + next_handle w]
  /\ session_handles
       (run [RuntimeMessage (js "start_capture");
             CaptureResolved (Some st1) r1;
             RuntimeMessage (js "start_capture");
             CaptureResolved (Some st2) r2] w)
     = [4 + next_handle w; 7 + next_handle w; 6 + next_handle w;
        5 + next_handle w]
  /\ filter (releases (next_handle w))
       (log (run evs
               (run [RuntimeMessage (js "start_capture");
                     CaptureResolved (Some st1) r1;
                     RuntimeMessage (js "start_capture");
                     CaptureResolved (Some st2) r2] w)))
     = filter (releases (next_handle w)) (log w).
Proof.
  rewrite (run_app [RuntimeMessage (js "start_capture");
                    CaptureResolved (Some st1) r1]
                   [RuntimeMessage (js "start_capture");
                    CaptureResolved (Some st2) r2] w
           : run [RuntimeMessage (js "start_capture");
                  CaptureResolved (Some st1) r1;
                  RuntimeMessage (js "start_capture");
                  CaptureResolved (Some st2) r2] w = _).
  rewrite (start_then_stream w st1 r1).
  set (w1 := {| recordingSession := _ |}).
  rewrite (start_then_stream w1 st2 r2).
  set (w2 := {| recordingSession := _ |}).
  split; [|split].
  - unfold sockets. subst w2 w1. cbn [closures]. rewrite !map_app.
    rewrite <- app_assoc. reflexivity.
  - reflexivity.
  - rewrite run_releases.
    + subst w2 w1. cbn [log next_handle]. rewrite !filter_app. reflexivity.
    + subst w2 w1. cbn [next_handle]. lia.
    + subst w2 w1. unfold session_handles.
      cbn [recordingSession rs_socket rs_recorder rs_mediaStream rs_context
           next_handle app].
      repeat (apply Forall_cons; [lia|]). apply Forall_nil.
Qed.

(* ================================================================= *)
(** ** The runtime listener and the file name *)

Lemma jseqb_eq (a b : jsstring) : jseqb a b = true -> a = b.
Proof.
  revert b; induction a as [|x a IH]; intros [|y b] H; simpl in H;
    try discriminate; [reflexivity|].
  apply andb_prop in H as [H1 H2]. apply N.eqb_eq in H1. subst y.
  f_equal. now apply IH.
Qed.

Lemma teardown_no_response (s : Session) :
  filter is_response (rev (teardown s)) = [].
Proof.
  assert (T : forall l, filter is_response (map TrackStop l) = [])
    by (induction l; simpl; auto).
  rewrite filter_rev. unfold teardown. rewrite !filter_app.
  destruct (rs_socket s), (rs_recorder s), (rs_mediaStream s),
    (rs_context s), (rs_stream s); cbn [filter is_response app];
    rewrite ?T; reflexivity.
Qed.

(** X14. The runtime listener answers a stop request, and nothing else:
    a message of type "stop_capture" gets exactly one response
    ("stopped"), whether or not a capture was running; a message of type
    "start_capture" and a message of any other type get none, although the
    listener returns [true] for all of them. *)
Theorem only_stop_is_answered (w : world) (type : jsstring) :
  filter is_response (new_effects w (step w (RuntimeMessage type)))
  = if jseqb type (js "stop_capture")
    then [SendResponse (js "stopped")] else [].
Proof.
  unfold step. cbn [dispatch]. unfold runtime_onMessage.
  destruct (jseqb type (js "start_capture")) eqn:S.
  - apply jseqb_eq in S. subst type. cbn [jseqb].
    rewrite (new_effects_app w _ [TabCaptureCapture]);
      [reflexivity | now destruct w].
  - destruct (jseqb type (js "stop_capture")) eqn:P.
    + change ((stopRecording ;; emit (SendResponse (js "stopped"))) w)
        with (dispatch (RuntimeMessage (js "stop_capture")) w).
      rewrite stop_message. cbn [fst log set_log].
      destruct (recordingSession w) as [s|] eqn:E.
      * rewrite (stopRecording_active w s E). cbn [fst log].
        rewrite (new_effects_app w _
                   (SendResponse (js "stopped") :: StorageGet
                    :: rev (teardown s))) by reflexivity.
        cbn [filter is_response]. now rewrite teardown_no_response.
      * rewrite (stopRecording_idle w E). cbn [fst].
        now rewrite (new_effects_app w _ [SendResponse (js "stopped")]).
    + cbn [ret fst]. now rewrite (new_effects_app w w []).
Qed.

Lemma count_unit_app (u : N) (a b : jsstring) :
  count_unit u (a ++ b) = count_unit u a + count_unit u b.
Proof. unfold count_unit. now rewrite filter_app, length_app. Qed.

Lemma count_replaced (u : N) (s : jsstring) :
  u = 58%N \/ u = 46%N -> count_unit u (replace_colon_dot s) = 0.
Proof.
  intro H. unfold count_unit, replace_colon_dot.
  induction s as [|c s IH]; [reflexivity|]. cbn [map filter].
  destruct ((c =? 58) || (c =? 46))%N eqn:E.
  - destruct H as [-> | ->]; cbn [N.eqb Pos.eqb]; exact IH.
  - apply orb_false_iff in E as [E1 E2].
    destruct H as [-> | ->]; rewrite ?E1, ?E2; exact IH.
Qed.

(** X15. Whatever the clock string is, the file name of an export has no
    colon and exactly one dot, the one of the ".txt" ending: it is the
    clock string with each colon and dot turned into a dash, between
    "transcription-" and ".txt", and so is 18 code units longer. *)
Theorem export_file_name_has_one_dot (now text : jsstring) (w : world) :
  exists filename : jsstring,
    log (fst (downloadTranscription now text w))
    = DownloadsDownload text (js "text/plain") filename false :: log w
    /\ count_unit 58 filename = 0
    /\ count_unit 46 filename = 1
    /\ length filename = 18 + length now.
Proof.
  exists (js "transcription-" ++ replace_colon_dot now ++ js ".txt").
  split; [reflexivity|].
  rewrite !count_unit_app, !count_replaced by auto.
  split; [reflexivity|]. split; [reflexivity|].
  rewrite !length_app. unfold replace_colon_dot. rewrite length_map.
  cbn [js list_ascii_of_string map length]. lia.
Qed.

(* ================================================================= *)
(** ** The popup *)

Lemma toggle_consistent (v : bool) (b : Buttons) :
  consistent (toggleCaptureButtons (Some v) b).
Proof. unfold consistent. cbn. destruct v; auto. Qed.

Lemma popup_step_consistent (p : popup) (e : popup_event) :
  consistent (buttons p) -> boolean_request e ->
  consistent (buttons (popup_step p e)).
Proof.
  intros C B. destruct e as [| | |tab0| | | |action isCapturing];
    cbn [popup_step].
  - exact C.
  - destruct (storage_gets p) as [|stored rest]; [exact C|].
    destruct stored as [[[|]|]|]; apply toggle_consistent.
  - destruct (loaded p); [|exact C]. unfold startCapture.
    now destruct (startDisabled (buttons p)).
  - destruct (tab_queries p); [exact C|]. now destruct tab0.
  - destruct (responses p) as [|m rest]; [exact C|].
    destruct m; [exact C | apply toggle_consistent].
  - destruct (storage_sets p); [exact C | apply toggle_consistent].
  - destruct (loaded p); [|exact C]. unfold stopCapture.
    now destruct (stopDisabled (buttons p)).
  - destruct (loaded p); [|exact C]. unfold popup_onMessage.
    destruct (jseqb action (js "toggleCaptureButtons")); [|exact C].
    destruct isCapturing as [v|]; [apply toggle_consistent | destruct B].
Qed.

Lemma popup_run_consistent (evs : list popup_event) (p : popup) :
  consistent (buttons p) -> Forall boolean_request evs ->
  consistent (buttons (popup_run evs p)).
Proof.
  revert p; induction evs as [|e evs IH]; intros p C B; [exact C|].
  inversion_clear B as [|? ? Be Bs].
  apply IH; [now apply popup_step_consistent | exact Bs].
Qed.

(** X16. Whatever the HTML gives the two buttons, from the first answer
    of storage on the popup keeps them in step: each button carries the
    class "disabled" exactly when it is disabled, and exactly one of the
    two is disabled.  This holds after every click, tab query, response,
    storage callback and toggle request that carries a boolean. *)
Theorem popup_buttons_stay_consistent (b : Buttons)
  (stored : option (option bool)) (evs : list popup_event) :
  Forall boolean_request evs ->
  consistent
    (buttons
       (popup_run (DOMContentLoaded :: StorageGetReturned :: evs)
          (new_popup b stored))).
Proof.
  intro B.
  change (popup_run (DOMContentLoaded :: StorageGetReturned :: evs)
            (new_popup b stored))
    with (popup_run evs
            (popup_step (popup_step (new_popup b stored) DOMContentLoaded)
               StorageGetReturned)).
  apply popup_run_consistent; [|exact B].
  destruct stored as [[[|]|]|]; apply toggle_consistent.
Qed.

Lemma popup_buttons_stay_consistent_witness :
  consistent
    (buttons
       (popup_run
          (DOMContentLoaded :: StorageGetReturned
           :: [ClickStart; TabsQueryReturned (Some 5); ResponseReturned;
               StorageSetReturned;
               RequestReceived (js "toggleCaptureButtons") (Some false)])
          (new_popup
             {| startDisabled := true; startClass := false;
                stopDisabled := true; stopClass := false |}
             None))).
Proof.
  exact (popup_buttons_stay_consistent
           {| startDisabled := true; startClass := false;
              stopDisabled := true; stopClass := false |}
           None
           [ClickStart; TabsQueryReturned (Some 5); ResponseReturned;
            StorageSetReturned;
            RequestReceived (js "toggleCaptureButtons") (Some false)]
           (Forall_cons ClickStart I
              (Forall_cons (TabsQueryReturned (Some 5)) I
                 (Forall_cons ResponseReturned I
                    (Forall_cons StorageSetReturned I
                       (Forall_cons
                          (RequestReceived (js "toggleCaptureButtons")
                             (Some false)) I
                          (Forall_nil boolean_request))))))).
Defined.

(** X17. A toggle request that carries no [isCapturing] breaks that: the
    listener enables the start button and disables the stop button, but
    [classList.toggle] with an undefined second argument flips the class of
    the start button instead of setting it, so that a start button that
    was enabled now carries the class "disabled" while it still takes
    clicks; storage is given an object without the flag. *)
Theorem toggle_request_without_flag (p : popup) :
  loaded p = true ->
  consistent (buttons p) ->
  startDisabled (buttons p) = false ->
  buttons (popup_step p (RequestReceived (js "toggleCaptureButtons") None))
  = {| startDisabled := false; startClass := true;
       stopDisabled := true; stopClass := true |}
  /\ capturingState
       (popup_step p (RequestReceived (js "toggleCaptureButtons") None))
     = Some None
  /\ ~ consistent
         (buttons
            (popup_step p
               (RequestReceived (js "toggleCaptureButtons") None)))
  /\ tab_queries
       (popup_step
          (popup_step p (RequestReceived (js "toggleCaptureButtons") None))
          ClickStart)
     = S (tab_queries p).
Proof.
  intros L (C1 & C2 & C3) D.
  destruct p as [ld [sd sc pd pc] cs ob tq rs sg ss].
  cbn [loaded buttons startDisabled startClass stopDisabled stopClass]
    in L, C1, C2, C3, D.
  subst ld sd sc pc pd.
  repeat split. intros (K & _). discriminate K.
Qed.

Lemma toggle_request_without_flag_witness :
  buttons
    (popup_step
       (popup_run [DOMContentLoaded; StorageGetReturned]
          (new_popup
             {| startDisabled := false; startClass := false;
                stopDisabled := false; stopClass := false |} None))
       (RequestReceived (js "toggleCaptureButtons") None))
  = {| startDisabled := false; startClass := true;
       stopDisabled := true; stopClass := true |}
  /\ capturingState
       (popup_step
          (popup_run [DOMContentLoaded; StorageGetReturned]
             (new_popup
                {| startDisabled := false; startClass := false;
                   stopDisabled := false; stopClass := false |} None))
          (RequestReceived (js "toggleCaptureButtons") None))
     = Some None
  /\ ~ consistent
         (buttons
            (popup_step
               (popup_run [DOMContentLoaded; StorageGetReturned]
                  (new_popup
                     {| startDisabled := false; startClass := false;
                        stopDisabled := false; stopClass := false |} None))
               (RequestReceived (js "toggleCaptureButtons") None)))
  /\ tab_queries
       (popup_step
          (popup_step
             (popup_run [DOMContentLoaded; StorageGetReturned]
                (new_popup
                   {| startDisabled := false; startClass := false;
                      stopDisabled := false; stopClass := false |} None))
             (RequestReceived (js "toggleCaptureButtons") None))
          ClickStart)
     = 1.
Proof.
  exact (toggle_request_without_flag
           (popup_run [DOMContentLoaded; StorageGetReturned]
              (new_popup
                 {| startDisabled := false; startClass := false;
                    stopDisabled := false; stopClass := false |} None))
           eq_refl (conj eq_refl (conj eq_refl eq_refl)) eq_refl).
Defined.

(** X18. The start flow of the popup, from a click on the enabled start
    button to the storage callback: the start message for the active tab
    goes out after the tab query, the flag is stored as capturing when the
    response comes, and only the callback of that store disables the start
    button; until then the buttons are as before the click.  A popup that
    is opened afterwards reads the stored flag and comes up with the start
    button disabled and the stop button enabled. *)
Theorem start_flow_of_the_popup (p : popup) (id : nat) (b : Buttons) :
  loaded p = true ->
  startDisabled (buttons p) = false ->
  tab_queries p = 0 ->
  responses p = [] ->
  storage_sets p = 0 ->
  outbox (popup_run [ClickStart; TabsQueryReturned (Some id)] p)
  = StartCaptureMessage id :: outbox p
  /\ capturingState
       (popup_run [ClickStart; TabsQueryReturned (Some id);
                   ResponseReturned] p)
     = Some (Some true)
  /\ buttons
       (popup_run [ClickStart; TabsQueryReturned (Some id);
                   ResponseReturned] p)
     = buttons p
  /\ buttons
       (popup_run [ClickStart; TabsQueryReturned (Some id);
                   ResponseReturned; StorageSetReturned] p)
     = toggleCaptureButtons (Some true) (buttons p)
  /\ buttons
       (popup_run [DOMContentLoaded; StorageGetReturned]
          (new_popup b
             (capturingState
                (popup_run [ClickStart; TabsQueryReturned (Some id);
                            ResponseReturned; StorageSetReturned] p))))
     = toggleCaptureButtons (Some true) b.
Proof.
  intros L D Q R S.
  destruct p as [ld bs cs ob tq rs sg ss].
  cbn [loaded buttons tab_queries responses storage_sets] in L, D, Q, R, S.
  subst ld tq rs ss.
  destruct bs as [sd sc pd pc]. cbn [startDisabled] in D. subst sd.
  repeat split.
Qed.

Lemma start_flow_of_the_popup_witness :
  outbox
    (popup_run [ClickStart; TabsQueryReturned (Some 5)]
       (popup_run [DOMContentLoaded; StorageGetReturned]
          (new_popup
             {| startDisabled := false; startClass := false;
                stopDisabled := false; stopClass := false |} None)))
  = [StartCaptureMessage 5]
  /\ capturingState
       (popup_run [ClickStart; TabsQueryReturned (Some 5); ResponseReturned]
          (popup_run [DOMContentLoaded; StorageGetReturned]
             (new_popup
                {| startDisabled := false; startClass := false;
                   stopDisabled := false; stopClass := false |} None)))
     = Some (Some true).
Proof.
  exact (let T :=
           start_flow_of_the_popup
             (popup_run [DOMContentLoaded; StorageGetReturned]
                (new_popup
                   {| startDisabled := false; startClass := false;
                      stopDisabled := false; stopClass := false |} None))
             5
             {| startDisabled := false; startClass := false;
                stopDisabled := false; stopClass := false |}
             eq_refl eq_refl eq_refl eq_refl eq_refl in
         conj (proj1 T) (proj1 (proj2 T))).
Defined.

Lemma clicks_on_start (n : nat) (p : popup) :
  loaded p = true ->
  startDisabled (buttons p) = false ->
  popup_run (repeat ClickStart n) p
  = {| loaded := loaded p; buttons := buttons p;
       capturingState := capturingState p; outbox := outbox p;
       tab_queries := n + tab_queries p; responses := responses p;
       storage_gets := storage_gets p; storage_sets := storage_sets p |}.
Proof.
  revert p; induction n as [|n IH]; intros p L D.
  - now destruct p.
  - cbn [repeat popup_run fold_left]. fold (popup_run (repeat ClickStart n)).
    cbn [popup_step]. rewrite L. unfold startCapture. rewrite D.
    rewrite IH by assumption.
    cbn [loaded buttons capturingState outbox tab_queries responses
         storage_gets storage_sets].
    f_equal; [exact L | lia].
Qed.

Lemma tab_queries_return (ids : list nat) (p : popup) :
  length ids <= tab_queries p ->
  popup_run (map (fun id => TabsQueryReturned (Some id)) ids) p
  = {| loaded := loaded p; buttons := buttons p;
       capturingState := capturingState p;
       outbox := rev (map StartCaptureMessage ids) ++ outbox p;
       tab_queries := tab_queries p - length ids;
       responses := responses p ++ map StartCaptureMessage ids;
       storage_gets := storage_gets p; storage_sets := storage_sets p |}.
Proof.
  revert p; induction ids as [|id ids IH]; intros p H.
  - destruct p. cbn. now rewrite Nat.sub_0_r, app_nil_r.
  - cbn [map popup_run fold_left length] in *.
    fold (popup_run (map (fun id => TabsQueryReturned (Some id)) ids)).
    cbn [popup_step].
    destruct (tab_queries p) as [|n] eqn:Q; [lia|].
    cbn [startCapture_resume fst]. rewrite IH by (cbn [tab_queries]; lia).
    cbn [loaded buttons capturingState outbox tab_queries responses
         storage_gets storage_sets rev].
    rewrite <- !app_assoc. reflexivity.
Qed.

Lemma popup_run_app (a b : list popup_event) (p : popup) :
  popup_run (a ++ b) p = popup_run b (popup_run a p).
Proof. apply fold_left_app. Qed.

(** X19. The start button stays enabled until the storage callback of
    the first start, so every click on it before that sends one more start
    message: [n] clicks followed by the answers of the [n] tab queries put
    [n] start messages in the outbox, one per answer, in the order of the
    answers. *)
Theorem every_early_click_sends_a_start (p : popup) (ids : list nat) :
  loaded p = true ->
  startDisabled (buttons p) = false ->
  tab_queries p = 0 ->
  outbox
    (popup_run
       (repeat ClickStart (length ids)
        ++ map (fun id => TabsQueryReturned (Some id)) ids) p)
  = rev (map StartCaptureMessage ids) ++ outbox p
  /\ buttons
       (popup_run
          (repeat ClickStart (length ids)
           ++ map (fun id => TabsQueryReturned (Some id)) ids) p)
     = buttons p.
Proof.
  intros L D Q. rewrite popup_run_app.
  rewrite (clicks_on_start (length ids) p L D).
  rewrite tab_queries_return by (cbn [tab_queries]; lia).
  split; reflexivity.
Qed.

Lemma every_early_click_sends_a_start_witness :
  outbox
    (popup_run
       (repeat ClickStart (length [5; 6])
        ++ map (fun id => TabsQueryReturned (Some id)) [5; 6])
       (popup_run [DOMContentLoaded; StorageGetReturned]
          (new_popup
             {| startDisabled := false; startClass := false;
                stopDisabled := false; stopClass := false |} None)))
  = rev (map StartCaptureMessage [5; 6]) ++ [].
Proof.
  exact (proj1 (every_early_click_sends_a_start
                  (popup_run [DOMContentLoaded; StorageGetReturned]
                     (new_popup
                        {| startDisabled := false; startClass := false;
                           stopDisabled := false; stopClass := false |}
                        None))
                  [5; 6] eq_refl eq_refl eq_refl)).
Defined.

(** X20. The stop flow of the popup, from a click on the enabled stop
    button: the stop message goes out at once, and its response enables
    the start button, disables the stop button and stores the flag as not
    capturing.  A popup that is opened afterwards comes up with the start
    button enabled and the stop button disabled. *)
Theorem stop_flow_of_the_popup (p : popup) (b : Buttons) :
  loaded p = true ->
  stopDisabled (buttons p) = false ->
  responses p = [] ->
  outbox (popup_step p ClickStop) = StopCaptureMessage :: outbox p
  /\ buttons (popup_step p ClickStop) = buttons p
  /\ buttons (popup_run [ClickStop; ResponseReturned] p)
     = toggleCaptureButtons (Some false) (buttons p)
  /\ capturingState (popup_run [ClickStop; ResponseReturned] p)
     = Some (Some false)
  /\ buttons
       (popup_run [DOMContentLoaded; StorageGetReturned]
          (new_popup b
             (capturingState (popup_run [ClickStop; ResponseReturned] p))))
     = toggleCaptureButtons (Some false) b.
Proof.
  intros L D R.
  destruct p as [ld bs cs ob tq rs sg ss].
  cbn [loaded buttons responses] in L, D, R. subst ld rs.
  destruct bs as [sd sc pd pc]. cbn [stopDisabled] in D. subst pd.
  repeat split.
Qed.

Lemma stop_flow_of_the_popup_witness :
  outbox
    (popup_step
       (popup_run [DOMContentLoaded; StorageGetReturned]
          (new_popup
             {| startDisabled := false; startClass := false;
                stopDisabled := false; stopClass := false |}
             (Some (Some true))))
       ClickStop)
  = [StopCaptureMessage]
  /\ buttons
       (popup_step
          (popup_run [DOMContentLoaded; StorageGetReturned]
             (new_popup
                {| startDisabled := false; startClass := false;
                   stopDisabled := false; stopClass := false |}
                (Some (Some true))))
          ClickStop)
     = {| startDisabled := true; startClass := true;
          stopDisabled := false; stopClass := false |}.
Proof.
  exact (let T :=
           stop_flow_of_the_popup
             (popup_run [DOMContentLoaded; StorageGetReturned]
                (new_popup
                   {| startDisabled := false; startClass := false;
                      stopDisabled := false; stopClass := false |}
                   (Some (Some true))))
             {| startDisabled := false; startClass := false;
                stopDisabled := false; stopClass := false |}
             eq_refl eq_refl eq_refl in
         conj (proj1 T) (proj1 (proj2 T))).
Defined.

(** X21. When the tab query finds no active tab, the click on the start
    button comes to nothing: reading [currentTab.id] throws a [TypeError]
    before the start message is built, so no message is sent, nothing is
    stored and the buttons stay as they were. *)
Theorem start_without_active_tab (p : popup) :
  loaded p = true ->
  tab_queries p = 0 ->
  popup_run [ClickStart; TabsQueryReturned None] p = p
  /\ snd (startCapture_resume None p) = Throw TypeError.
Proof.
  intros L Q. destruct p as [ld bs cs ob tq rs sg ss].
  cbn [loaded tab_queries] in L, Q. subst ld tq.
  split; [|reflexivity].
  unfold popup_run, fold_left, popup_step at 2. cbn [loaded].
  unfold startCapture. cbn [buttons].
  destruct (startDisabled bs); reflexivity.
Qed.

Lemma start_without_active_tab_witness :
  popup_run [ClickStart; TabsQueryReturned None]
    (popup_run [DOMContentLoaded; StorageGetReturned]
       (new_popup
          {| startDisabled := false; startClass := false;
             stopDisabled := false; stopClass := false |} None))
  = popup_run [DOMContentLoaded; StorageGetReturned]
      (new_popup
         {| startDisabled := false; startClass := false;
            stopDisabled := false; stopClass := false |} None)
  /\ snd (startCapture_resume None
            (popup_run [DOMContentLoaded; StorageGetReturned]
               (new_popup
                  {| startDisabled := false; startClass := false;
                     stopDisabled := false; stopClass := false |} None)))
     = Throw TypeError.
Proof.
  exact (start_without_active_tab
           (popup_run [DOMContentLoaded; StorageGetReturned]
              (new_popup
                 {| startDisabled := false; startClass := false;
                    stopDisabled := false; stopClass := false |} None))
           eq_refl eq_refl).
Defined.

(* ================================================================= *)
(** ** Integers as Numbers *)

Section Integers.

Local Open Scope Z_scope.

Lemma digits2_pos_ge (p : positive) : 2 ^ (Zpos (digits2_pos p) - 1) <= Zpos p.
Proof.
  induction p as [p IH|p IH|]; cbn [digits2_pos]; [| |reflexivity].
  - rewrite Pos2Z.inj_succ.
    replace (Z.succ (Zpos (digits2_pos p)) - 1)
      with (Z.succ (Zpos (digits2_pos p) - 1)) by lia.
    rewrite Z.pow_succ_r by lia. lia.
  - rewrite Pos2Z.inj_succ.
    replace (Z.succ (Zpos (digits2_pos p)) - 1)
      with (Z.succ (Zpos (digits2_pos p) - 1)) by lia.
    rewrite Z.pow_succ_r by lia. lia.
Qed.

Lemma iter_xO_spec (k p : positive) :
  Zpos (Pos.iter xO p k) = Zpos p * 2 ^ Zpos k
  /\ Zpos (digits2_pos (Pos.iter xO p k)) = Zpos (digits2_pos p) + Zpos k.
Proof.
  induction k as [|k [V D]] using Pos.peano_ind.
  - cbn [Pos.iter digits2_pos]. split; [|lia].
    rewrite Pos2Z.inj_xO. change (2 ^ 1) with 2. lia.
  - rewrite Pos.iter_succ. cbn [digits2_pos].
    rewrite Pos2Z.inj_xO, !Pos2Z.inj_succ, V, D.
    rewrite Z.pow_succ_r by lia. split; lia.
Qed.

Lemma binary_round_aux_exact (s : bool) (m : positive) (e : Z) :
  Zpos (digits2_pos m) = 53 -> -1074 <= e <= 971 ->
  binary_round_aux prec emax s (Zpos m) e loc_Exact = S754_finite s m e.
Proof.
  intros D E.
  assert (F : fexp prec emax (Zdigits2 (Zpos m) + e) - e = 0).
  { unfold fexp, emin. cbn [Zdigits2]. rewrite D.
    change prec with 53. change emax with 1024. lia. }
  unfold binary_round_aux, shr_fexp. rewrite F.
  cbn [shr shr_record_of_loc shr_m loc_of_shr_record round_nearest_even].
  rewrite F.
  cbn [shr shr_record_of_loc shr_m].
  change (emax - prec) with 971.
  destruct (Z.leb_spec e 971); [reflexivity | lia].
Qed.

Lemma valid_53 (s : bool) (m : positive) (e : Z) :
  Zpos (digits2_pos m) = 53 -> -1074 <= e <= 971 ->
  valid_binary (S754_finite s m e) = true.
Proof.
  intros D E. unfold valid_binary, bounded, canonical_mantissa, fexp, emin.
  rewrite D. change prec with 53. change emax with 1024.
  apply andb_true_intro. split; [apply Z.eqb_eq | apply Z.leb_le]; lia.
Qed.

Lemma binary_round_small (s : bool) (p : positive) :
  Zpos p < 2 ^ 53 ->
  exists m : positive,
    binary_round prec emax s p 0
    = S754_finite s m (Zpos (digits2_pos p) - 53)
    /\ Zpos m = Zpos p * 2 ^ (53 - Zpos (digits2_pos p))
    /\ Zpos (digits2_pos m) = 53.
Proof.
  intro B.
  assert (D : Zpos (digits2_pos p) <= 53) by (apply digits2_pos_bound; lia).
  unfold binary_round, shl_align.
  assert (F : fexp prec emax (Zpos (digits2_pos p) + 0)
              = Zpos (digits2_pos p) - 53).
  { unfold fexp, emin. change prec with 53. change emax with 1024. lia. }
  rewrite F, Z.sub_0_r.
  destruct (Zpos (digits2_pos p) - 53) as [|k|k] eqn:K; [| lia |].
  - exists p. assert (D53 : Zpos (digits2_pos p) = 53) by lia.
    rewrite binary_round_aux_exact by (try exact D53; lia).
    split; [reflexivity|]. split; [|exact D53].
    rewrite D53. change (2 ^ (53 - 53)) with 1. lia.
  - destruct (iter_xO_spec k p) as [V G].
    assert (Hk : Zpos k = 53 - Zpos (digits2_pos p)) by lia.
    exists (Pos.iter xO p k).
    rewrite binary_round_aux_exact by lia.
    split; [reflexivity|]. split; [|lia]. now rewrite V, Hk.
Qed.

(** The Number of a non-zero integer below 2^53 in size is that integer:
    a mantissa of 53 bits with the exponent that makes up for the shift. *)
Lemma Z2F_exact (z : Z) :
  z <> 0 -> Z.abs z < 2 ^ 53 ->
  exists (m : positive) (e : Z),
    Prim2SF (Z2F z) = S754_finite (z <? 0) m e
    /\ -52 <= e <= 0
    /\ SF_mant (z <? 0) m = z * 2 ^ (- e)
    /\ e = Zpos (digits2_pos (Z.to_pos (Z.abs z))) - 53.
Proof.
  intros Hz B. unfold Z2F.
  destruct z as [|p|p]; [easy| |]; cbn [binary_normalize Z.abs Z.to_pos] in *.
  - destruct (binary_round_small false p B) as (m & R & V & D).
    pose proof (digits2_pos_bound p 53 ltac:(lia) B).
    exists m, (Zpos (digits2_pos p) - 53). rewrite R.
    rewrite Prim2SF_SF2Prim by (apply valid_53; [exact D | lia]).
    split; [reflexivity|]. split; [lia|]. split; [|reflexivity].
    unfold SF_mant. cbn [Z.ltb Z.compare cond_Zopp]. rewrite V.
    f_equal. f_equal. lia.
  - destruct (binary_round_small true p B) as (m & R & V & D).
    pose proof (digits2_pos_bound p 53 ltac:(lia) B).
    exists m, (Zpos (digits2_pos p) - 53). rewrite R.
    rewrite Prim2SF_SF2Prim by (apply valid_53; [exact D | lia]).
    split; [reflexivity|]. split; [lia|]. split; [|reflexivity].
    unfold SF_mant. cbn [Z.ltb Z.compare cond_Zopp]. rewrite V.
    replace (- (Zpos (digits2_pos p) - 53)) with (53 - Zpos (digits2_pos p))
      by lia.
    lia.
Qed.

End Integers.

Section IntegerNumbers.

Local Open Scope Z_scope.

Lemma pow2_double (k : Z) : 0 < k -> 2 ^ k = 2 * 2 ^ (k - 1).
Proof.
  intro H. replace k with (Z.succ (k - 1)) at 1 by lia.
  apply Z.pow_succ_r. lia.
Qed.

Lemma trunc_me_exact (z e : Z) : e <= 0 -> trunc_me (z * 2 ^ (- e)) e = z.
Proof.
  intro H. unfold trunc_me. destruct (Z.leb_spec 0 e) as [P|P].
  - assert (e = 0) by lia. subst e. change (2 ^ (- 0)) with 1.
    change (2 ^ 0) with 1. lia.
  - apply Z.quot_mul. apply Z.pow_nonzero; lia.
Qed.

Lemma round_me_exact (a e : Z) : e <= 0 -> round_me (a * 2 ^ (- e)) e = a.
Proof.
  intro H. unfold round_me. destruct (Z.leb_spec 0 e) as [P|P].
  - assert (e = 0) by lia. subst e. change (2 ^ (- 0)) with 1.
    change (2 ^ 0) with 1. lia.
  - assert (Q : 2 ^ (- e) = 2 * 2 ^ (- e - 1)) by (apply pow2_double; lia).
    assert (0 < 2 ^ (- e - 1)) by (apply Z.pow_pos_nonneg; lia).
    symmetry. apply Z.div_unique with (r := 2 ^ (- e - 1)); lia.
Qed.

Lemma SF_mant_abs (z : Z) (m : positive) (k : Z) :
  SF_mant (z <? 0) m = z * k -> 0 < k -> Zpos m = Z.abs z * k.
Proof.
  unfold SF_mant, cond_Zopp. intros H K.
  destruct (Z.ltb_spec z 0); nia.
Qed.

Lemma ToInteger_Z2F (z : Z) : Z.abs z < 2 ^ 53 -> ToInteger (Z2F z) = Some z.
Proof.
  intro B. destruct (Z.eq_dec z 0) as [->|N]; [reflexivity|].
  destruct (Z2F_exact z N B) as (m & e & P & R & V & _).
  unfold ToInteger. rewrite P, V. f_equal. apply trunc_me_exact. lia.
Qed.

Lemma toFixed_index_Z2F (z : Z) :
  Z.abs z < 2 ^ 53 -> toFixed_index (Z2F z) = Some z.
Proof.
  intro B. destruct (Z.eq_dec z 0) as [->|N]; [reflexivity|].
  destruct (Z2F_exact z N B) as (m & e & P & R & V & _).
  unfold toFixed_index. rewrite P. f_equal.
  assert (K : 0 < 2 ^ (- e)) by (apply Z.pow_pos_nonneg; lia).
  rewrite (SF_mant_abs z m _ V K), round_me_exact by lia.
  unfold cond_Zopp. destruct (Z.ltb_spec z 0); lia.
Qed.

Lemma toFixed_number_Z2F (z : Z) :
  Z.abs z < 2 ^ 53 -> toFixed_number (Z2F z) = Z2F z.
Proof.
  intro B. destruct (Z.eq_dec z 0) as [->|N]; [reflexivity|].
  destruct (Z2F_exact z N B) as (m & e & P & _).
  unfold toFixed_number. rewrite eqb_spec, P.
  change (Prim2SF 0) with (S754_zero false).
  unfold SFeqb, SFcompare. now destruct (z <? 0).
Qed.

Lemma binary_round_shifted (s : bool) (m k : positive) :
  Zpos (digits2_pos m) = 53 -> Zpos k <= 971 ->
  binary_round prec emax s (Pos.iter xO m k) 0 = S754_finite s m (Zpos k).
Proof.
  intros D K. destruct (iter_xO_spec k m) as [V G].
  set (p := Pos.iter xO m k) in *.
  assert (F : fexp prec emax (Zpos (digits2_pos p) + 0) = Zpos k).
  { unfold fexp, emin. change prec with 53. change emax with 1024. lia. }
  unfold binary_round, shl_align. rewrite F. cbn [Z.sub Z.opp Z.add].
  unfold binary_round_aux, shr_fexp. cbn [Zdigits2]. rewrite F.
  cbn [Z.sub Z.opp Z.add shr shr_record_of_loc].
  pose proof (shifted_iter k {| shr_m := Zpos p; shr_r := false;
                                shr_s := false |} ltac:(cbn; lia))
    as [M I].
  set (y := iter_pos shr_1 k _) in *.
  cbn [shr_m] in M, I.
  assert (P : 0 < 2 ^ Zpos k) by (apply Z.pow_pos_nonneg; lia).
  rewrite V, Z.div_mul in M by lia.
  specialize (I eq_refl). rewrite V, Z.mod_mul in I by lia.
  specialize (I eq_refl).
  destruct y as [ym yr ys]. cbn [shr_m] in M.
  unfold inexact in I. cbn [shr_r shr_s] in I.
  apply orb_false_elim in I as [-> ->]. subst ym.
  cbn [shr_m loc_of_shr_record round_nearest_even Zdigits2].
  assert (F' : fexp prec emax (Zpos (digits2_pos m) + Zpos k) - Zpos k = 0).
  { unfold fexp, emin. change prec with 53. change emax with 1024. lia. }
  rewrite F'. cbn [shr shr_record_of_loc shr_m].
  change (emax - prec) with 971.
  destruct (Z.leb_spec (Zpos k) 971); [reflexivity | lia].
Qed.

(** A Number with a non-negative exponent is the Number of the integer
    it stands for. *)
Lemma integer_float (x : float) (s : bool) (m : positive) (e : Z) :
  Prim2SF x = S754_finite s m e -> 0 <= e ->
  x = Z2F (SF_mant s m * 2 ^ e).
Proof.
  intros E He. pose proof (Prim2SF_valid x) as V. rewrite E in V.
  unfold valid_binary, bounded, canonical_mantissa, fexp, emin in V.
  apply andb_prop in V as [V W]. apply Z.eqb_eq in V. apply Z.leb_le in W.
  change prec with 53 in V, W. change emax with 1024 in V, W.
  assert (D : Zpos (digits2_pos m) = 53) by lia. clear V.
  rewrite (float_of_spec x _ E). unfold Z2F. f_equal.
  destruct e as [|k|k]; [| |lia].
  - change (2 ^ 0) with 1. rewrite Z.mul_1_r.
    pose proof (digits2_pos_lt m) as B. rewrite D in B.
    destruct (binary_round_small s m B) as (m' & R & U & _).
    rewrite D in R, U. change (2 ^ (53 - 53)) with 1 in U.
    change (53 - 53) with 0 in R.
    assert (m' = m) by lia. subst m'.
    unfold SF_mant.
    destruct s; cbn [cond_Zopp Z.opp binary_normalize]; now rewrite R.
  - destruct (iter_xO_spec k m) as [U _].
    pose proof (binary_round_shifted s m k D ltac:(lia)) as R.
    unfold SF_mant.
    destruct s; cbn [cond_Zopp].
    + rewrite Z.mul_opp_l, <- U. cbn [Z.opp binary_normalize].
      now rewrite R.
    + rewrite <- U. cbn [binary_normalize]. now rewrite R.
Qed.

Lemma floor_me_unique (v e z : Z) :
  int_le_scaled z v e -> scaled_lt_int v e (z + 1) -> floor_me v e = z.
Proof.
  unfold int_le_scaled, scaled_lt_int, floor_me.
  destruct (Z.leb_spec 0 e) as [P|P]; intros A B; [lia|].
  assert (0 < 2 ^ (- e)) by (apply Z.pow_pos_nonneg; lia).
  symmetry. apply Z.div_unique with (r := v - z * 2 ^ (- e)); lia.
Qed.

Lemma ceil_me_unique (v e z : Z) :
  int_lt_scaled (z - 1) v e -> scaled_le_int v e z -> ceil_me v e = z.
Proof.
  unfold int_lt_scaled, scaled_le_int, ceil_me, floor_me.
  destruct (Z.leb_spec 0 e) as [P|P]; intros A B; [lia|].
  assert (0 < 2 ^ (- e)) by (apply Z.pow_pos_nonneg; lia).
  assert (- v / 2 ^ (- e) = - z); [|lia].
  symmetry. apply Z.div_unique with (r := z * 2 ^ (- e) - v); lia.
Qed.

Lemma round_me_unique (v e z : Z) :
  int_le_scaled (2 * z - 1) (2 * v) e ->
  scaled_lt_int (2 * v) e (2 * z + 1) -> round_me v e = z.
Proof.
  unfold int_le_scaled, scaled_lt_int, round_me.
  destruct (Z.leb_spec 0 e) as [P|P]; intros A B; [lia|].
  assert (Q : 2 ^ (- e) = 2 * 2 ^ (- e - 1)) by (apply pow2_double; lia).
  assert (0 < 2 ^ (- e - 1)) by (apply Z.pow_pos_nonneg; lia).
  rewrite Q in *.
  symmetry.
  apply Z.div_unique
    with (r := v + 2 ^ (- e - 1) - z * (2 * 2 ^ (- e - 1))); nia.
Qed.

Lemma div_abs_le (v P : Z) : 0 < P -> Z.abs (v / P) <= Z.abs v.
Proof.
  intro H. assert (L := Z.mul_div_le v P H).
  assert (U := Z.mul_succ_div_gt v P H).
  destruct (Z.le_gt_cases 0 v).
  - assert (0 <= v / P) by (apply Z.div_pos; lia). nia.
  - assert (v / P < 0) by (apply Z.div_lt_upper_bound; lia). nia.
Qed.

End IntegerNumbers.

(* ================================================================= *)
(** ** Math.round, Math.floor and Math.ceil against their meaning *)

Section MathMeaning.

Local Open Scope Z_scope.

Lemma ToIndex_Z2F (n : Z) : 0 <= n <= 2 ^ 53 - 1 -> ToIndex (Z2F n) = Some n.
Proof.
  intro B. unfold ToIndex. rewrite ToInteger_Z2F by lia.
  destruct (Z.ltb_spec n 0); [lia|].
  destruct (Z.ltb_spec (2 ^ 53 - 1) n); [lia | reflexivity].
Qed.

Lemma Math_round_nearest (p : float) (n : Z) :
  is_nearest p n -> 0 < n < 2 ^ 53 -> Math_round p = Z2F n.
Proof.
  unfold is_nearest, finite_value, Math_round. intros H B.
  destruct (Prim2SF p) as [s|s| |s m e] eqn:E; try contradiction.
  - destruct H as [A C]. unfold int_le_scaled, scaled_lt_int in A, C.
    cbn [Z.leb Z.compare] in A, C. lia.
  - destruct H as [A C]. destruct (Z.leb_spec 0 e) as [Q|Q].
    + unfold int_le_scaled, scaled_lt_int in A, C.
      rewrite (proj2 (Z.leb_le 0 e) Q) in A, C.
      assert (P : 0 < 2 ^ e) by (apply Z.pow_pos_nonneg; lia).
      assert (V : SF_mant s m * 2 ^ e = n) by lia.
      rewrite (integer_float p s m e E Q). now rewrite V.
    + rewrite (round_me_unique _ _ n A C). unfold int_result.
      destruct (Z.eqb_spec n 0); [lia | reflexivity].
Qed.

Lemma mant_bound (x : float) (s : bool) (m : positive) (e : Z) :
  Prim2SF x = S754_finite s m e -> Z.abs (SF_mant s m) < 2 ^ 53.
Proof.
  intro E. pose proof (valid_mantissa x s m e E).
  unfold SF_mant, cond_Zopp. destruct s; lia.
Qed.

Lemma Math_floor_index (x : float) (l : Z) :
  is_floor x l -> toFixed_index (Math_floor x) = Some l.
Proof.
  unfold is_floor, finite_value, Math_floor. intro H.
  destruct (Prim2SF x) as [s|s| |s m e] eqn:E; try contradiction.
  - destruct H as [A C]. unfold int_le_scaled, scaled_lt_int in A, C.
    cbn [Z.leb Z.compare] in A, C. unfold toFixed_index. rewrite E.
    f_equal. lia.
  - destruct H as [A C]. pose proof (floor_me_unique _ _ _ A C) as F.
    destruct (Z.leb_spec 0 e) as [Q|Q].
    + unfold toFixed_index. rewrite E. f_equal.
      unfold floor_me in F. unfold round_me.
      rewrite (proj2 (Z.leb_le 0 e) Q) in *. rewrite <- F.
      unfold SF_mant, cond_Zopp. destruct s; lia.
    + rewrite F. unfold int_result.
      destruct (Z.eqb_spec l 0) as [->|N]; [reflexivity|].
      apply toFixed_index_Z2F. rewrite <- F. unfold floor_me.
      rewrite (proj2 (Z.leb_gt 0 e) Q).
      pose proof (mant_bound x s m e E).
      assert (0 < 2 ^ (- e)) by (apply Z.pow_pos_nonneg; lia).
      pose proof (div_abs_le (SF_mant s m) (2 ^ (- e)) ltac:(lia)). lia.
Qed.

Lemma Math_ceil_index (x : float) (r : Z) :
  is_ceil x r -> toFixed_index (Math_ceil x) = Some r.
Proof.
  unfold is_ceil, finite_value, Math_ceil. intro H.
  destruct (Prim2SF x) as [s|s| |s m e] eqn:E; try contradiction.
  - destruct H as [A C]. unfold int_lt_scaled, scaled_le_int in A, C.
    cbn [Z.leb Z.compare] in A, C. unfold toFixed_index. rewrite E.
    f_equal. lia.
  - destruct H as [A C]. pose proof (ceil_me_unique _ _ _ A C) as F.
    destruct (Z.leb_spec 0 e) as [Q|Q].
    + unfold toFixed_index. rewrite E. f_equal.
      unfold ceil_me, floor_me in F. unfold round_me.
      rewrite (proj2 (Z.leb_le 0 e) Q) in *. rewrite <- F.
      unfold SF_mant, cond_Zopp. destruct s; lia.
    + rewrite F. unfold int_result.
      destruct (Z.eqb_spec r 0) as [->|N]; [now destruct s|].
      apply toFixed_index_Z2F. rewrite <- F. unfold ceil_me, floor_me.
      rewrite (proj2 (Z.leb_gt 0 e) Q).
      pose proof (mant_bound x s m e E).
      assert (0 < 2 ^ (- e)) by (apply Z.pow_pos_nonneg; lia).
      pose proof (div_abs_le (- SF_mant s m) (2 ^ (- e)) ltac:(lia)). lia.
Qed.

Lemma Math_floor_number (x : float) (l : Z) :
  is_floor x l -> toFixed_number (Math_floor x) = Z2F l.
Proof.
  unfold is_floor, finite_value, Math_floor. intros H.
  destruct (Prim2SF x) as [s|s| |s m e] eqn:E; try contradiction.
  - destruct H as [A C]. unfold int_le_scaled, scaled_lt_int in A, C.
    cbn [Z.leb Z.compare] in A, C. assert (l = 0) by lia. subst l.
    unfold toFixed_number. rewrite eqb_spec, E.
    change (Prim2SF 0) with (S754_zero false). reflexivity.
  - destruct H as [A C]. pose proof (floor_me_unique _ _ _ A C) as F.
    destruct (Z.leb_spec 0 e) as [Q|Q].
    + unfold floor_me in F. rewrite (proj2 (Z.leb_le 0 e) Q) in F.
      rewrite <- F, <- (integer_float x s m e E Q).
      unfold toFixed_number. rewrite eqb_spec, E.
      change (Prim2SF 0) with (S754_zero false).
      unfold SFeqb, SFcompare. now destruct s.
    + rewrite F. unfold int_result.
      destruct (Z.eqb_spec l 0) as [->|N]; [reflexivity|].
      apply toFixed_number_Z2F. rewrite <- F. unfold floor_me.
      rewrite (proj2 (Z.leb_gt 0 e) Q).
      pose proof (mant_bound x s m e E).
      assert (0 < 2 ^ (- e)) by (apply Z.pow_pos_nonneg; lia).
      pose proof (div_abs_le (SF_mant s m) (2 ^ (- e)) ltac:(lia)). lia.
Qed.

End MathMeaning.

(* ================================================================= *)
(** ** The resampler against floor, ceiling and nearest integer *)

Lemma floor_le_ceil (x : float) (l r : Z) :
  is_floor x l -> is_ceil x r -> (l <= r)%Z.
Proof.
  unfold is_floor, is_ceil. destruct (finite_value x) as [[v e]|];
    [|contradiction].
  unfold int_le_scaled, int_lt_scaled, scaled_le_int, scaled_lt_int.
  destruct (Z.leb_spec 0 e) as [P|P]; intros [A _] [_ B]; [lia|].
  assert (0 < 2 ^ (- e))%Z by (apply Z.pow_pos_nonneg; lia). nia.
Qed.

(** Every finite Number has a floor and a ceiling, at most 1 apart. *)
Lemma floor_ceil_exist (x : float) (v e : Z) :
  finite_value x = Some (v, e) ->
  exists l r : Z, is_floor x l /\ is_ceil x r /\ (l <= r <= l + 1)%Z.
Proof.
  intro H. unfold is_floor, is_ceil. rewrite H.
  unfold int_le_scaled, int_lt_scaled, scaled_le_int, scaled_lt_int.
  destruct (Z.leb_spec 0 e) as [P|P].
  - exists (v * 2 ^ e)%Z, (v * 2 ^ e)%Z. lia.
  - assert (Q : (0 < 2 ^ (- e))%Z) by (apply Z.pow_pos_nonneg; lia).
    pose proof (Z.mul_div_le v _ Q). pose proof (Z.mul_succ_div_gt v _ Q).
    pose proof (Z.mul_div_le (- v) _ Q).
    pose proof (Z.mul_succ_div_gt (- v) _ Q).
    exists (v / 2 ^ (- e))%Z, (- (- v / 2 ^ (- e)))%Z. nia.
Qed.

Lemma nan_plus (y : float) : fround (nan + y)%float = nan.
Proof.
  assert (E : (nan + y)%float = nan).
  { rewrite (float_of_spec (nan + y)%float S754_nan); [reflexivity|].
    rewrite add_spec. change (Prim2SF nan) with S754_nan. reflexivity. }
  rewrite E. reflexivity.
Qed.

Lemma targetLength_nearest (audioData : list float) (orig : float) (n : Z) :
  is_nearest (Z2F (Z.of_nat (length audioData)) * (16000 / orig))%float n ->
  (0 < n <= 2 ^ 53 - 1)%Z ->
  targetLength_of audioData orig = Z2F n
  /\ ToIndex (targetLength_of audioData orig) = Some n.
Proof.
  intros HT Hn. unfold targetLength_of.
  rewrite (Math_round_nearest _ n HT) by lia.
  split; [reflexivity | apply ToIndex_Z2F; lia].
Qed.

(** C1. Let [L >= 2] samples be given and let [n >= 2] be the integer
    nearest to the Number [L * (16000 / orig)] (a tie going up).  Then
    [resampleTo16kHZ] returns [n] samples.  With [data] the [Float32Array]
    made of the input, the first and the last sample are [data[0]] and
    [data[L-1]]; for input samples that are 32-bit floats, as the audio
    callback's are, [data] is the input, and the two are the first and the
    last sample of the input.  At an interior position [i], with
    [f = (L-1)/(n-1)] and [l >= 0] and [r] the floor and the ceiling of
    the Number [i*f], the sample is
    [data[l] + (data[r] - data[l]) * (i*f - l)], computed in double
    precision and stored as a 32-bit float (an element past the end of
    [data] counts as NaN); it is NaN when the floor is negative or [i*f]
    is not finite.  Floor, ceiling and nearest integer are those of the
    exact value of the Number. *)
Theorem resample_length_ends_interior (audioData : list float) (orig : float)
  (n : Z)
  (HL : 2 <= length audioData)
  (HT : is_nearest
          (Z2F (Z.of_nat (length audioData)) * (16000 / orig))%float n)
  (Hn : (2 <= n <= 2 ^ 53 - 1)%Z) :
  exists out : list float,
    resampleTo16kHZ audioData (Some orig) = Return out
    /\ Z.of_nat (length out) = n
    /\ nth 0 out nan = fround (nth 0 (Float32Array_from audioData) nan)
    /\ nth (Z.to_nat (n - 1)) out nan
       = fround (nth (length audioData - 1) (Float32Array_from audioData) nan)
    /\ (Forall is_float32 audioData ->
        Float32Array_from audioData = audioData
        /\ nth 0 out nan = nth 0 audioData nan
        /\ nth (Z.to_nat (n - 1)) out nan
           = nth (length audioData - 1) audioData nan)
    /\ forall i : Z,
         (1 <= i < n - 1)%Z ->
         let data := Float32Array_from audioData in
         let f := ((Z2F (Z.of_nat (length audioData)) - 1)
                   / (Z2F n - 1))%float in
         let index := (Z2F i * f)%float in
         (forall l r : Z,
            is_floor index l ->
            is_ceil index r ->
            (0 <= l)%Z ->
            nth (Z.to_nat i) out nan
            = fround (nth (Z.to_nat l) data nan
                      + (nth (Z.to_nat r) data nan
                         - nth (Z.to_nat l) data nan)
                        * (index - Z2F l))%float)
         /\ (forall l : Z,
               is_floor index l -> (l < 0)%Z ->
               nth (Z.to_nat i) out nan = nan)
         /\ (finite_value index = None -> nth (Z.to_nat i) out nan = nan).
Proof.
  destruct (targetLength_nearest audioData orig n HT ltac:(lia))
    as [TL HT'].
  destruct (resample_unfold audioData orig n HT') as [E _].
  cbv zeta in E. eexists. split; [exact E|].
  set (data := Float32Array_from audioData) in *.
  set (g := interpolate data
              (springFactor_of data (targetLength_of audioData orig))).
  set (r0 := f32_set (repeat zero (Z.to_nat n)) 0 (ta_get data 0)).
  set (r1 := f32_set r0 (n - 1)
               (ta_get data (Z.of_nat (length audioData) - 1))).
  assert (L0 : length r0 = Z.to_nat n)
    by (unfold r0; now rewrite f32_set_length, repeat_length).
  assert (L1 : length r1 = Z.to_nat n)
    by (unfold r1; now rewrite f32_set_length).
  assert (First : nth 0 (fold_left (fun r i => f32_set r i (g i))
                           (Zseq 1 (Z.to_nat (n - 2))) r1) nan
                  = fround (nth 0 data nan)).
  { change 0 with (Z.to_nat 0%Z) at 1.
    rewrite loop_untouched by (try lia; rewrite In_Zseq; lia).
    unfold r1. rewrite f32_set_other by lia.
    unfold r0. rewrite f32_set_same by (rewrite repeat_length; lia).
    now rewrite ta_get_nth by lia. }
  assert (Last : nth (Z.to_nat (n - 1))
                   (fold_left (fun r i => f32_set r i (g i))
                      (Zseq 1 (Z.to_nat (n - 2))) r1) nan
                 = fround (nth (length audioData - 1) data nan)).
  { rewrite loop_untouched by (try lia; rewrite In_Zseq; lia).
    unfold r1. rewrite f32_set_same by lia.
    rewrite ta_get_nth by lia.
    now replace (Z.to_nat (Z.of_nat (length audioData) - 1))
      with (length audioData - 1) by lia. }
  split; [rewrite loop_length, L1; lia|].
  split; [exact First|]. split; [exact Last|]. split.
  - intro Hf. rewrite First, Last. unfold data.
    rewrite (Float32Array_from_float32 _ Hf).
    split; [reflexivity|]. split; apply Forall_nth_float32, Hf.
  - intros i Hi. cbv zeta.
    rewrite (loop_written g) by (try lia; rewrite In_Zseq; lia).
    unfold g, interpolate, springFactor_of.
    assert (LD : length data = length audioData)
      by apply Float32Array_from_length.
    rewrite LD, TL. unfold ta_get_key.
    split; [|split].
    + intros l r Hl Hr Hl0.
      pose proof (floor_le_ceil _ l r Hl Hr) as Hlr.
      rewrite (Math_floor_index _ l Hl), (Math_ceil_index _ r Hr).
      rewrite (Math_floor_number _ l Hl).
      rewrite !ta_get_nth by lia. reflexivity.
    + intros l Hl Hneg. rewrite (Math_floor_index _ l Hl).
      unfold ta_get. rewrite (proj2 (Z.leb_gt 0 l) Hneg).
      cbn [andb]. now rewrite nan_plus.
    + intro Hinf. unfold finite_value in Hinf. unfold Math_floor.
      destruct (Prim2SF (Z2F i * _)%float) as [s|s| |s m e] eqn:EI;
        try discriminate; unfold toFixed_index; rewrite EI;
        now rewrite nan_plus.
Qed.

Lemma resample_length_ends_interior_witness :
  exists out : list float,
    resampleTo16kHZ [0; 1; 0.25; 0.75; -1; 0.125]%float (Some 32000%float)
    = Return out
    /\ Z.of_nat (length out) = 3%Z
    /\ nth 0 out nan = 0%float
    /\ nth 1 out nan = 0.5%float
    /\ nth 2 out nan = 0.125%float.
Proof.
  destruct (resample_length_ends_interior
              [0; 1; 0.25; 0.75; -1; 0.125]%float 32000%float 3%Z)
    as (out & E & Len & _ & _ & Ends & Interior).
  - simpl; lia.
  - vm_compute. split; [intro H; discriminate H | reflexivity].
  - lia.
  - destruct Ends as (_ & First & Last); [repeat constructor|].
    exists out. split; [exact E|]. split; [exact Len|].
    split; [exact First|]. split; [|exact Last].
    apply (proj1 (Interior 1%Z ltac:(lia)) 2 3)%Z.
    + vm_compute. split; [intro H; discriminate H | reflexivity].
    + vm_compute. split; [reflexivity | intro H; discriminate H].
    + lia.
Defined.

(* ================================================================= *)
(** ** The reconciler on any page *)

Lemma closure_after_partial (w : world) (k : nat) (c : Closure)
  (elements : list jsstring) :
  nth_error (closures w) k = Some c ->
  nth_error (closures (step w (partial_event k elements))) k
  = Some (set_currentPartial (trim (join (js " ") elements)) c).
Proof.
  intro Hk. rewrite (step_closure w _ k c Hk).
  unfold partial_event. cbn [closure_step]. rewrite Nat.eqb_refl.
  reflexivity.
Qed.

Lemma closure_after_final (w : world) (k : nat) (c : Closure)
  (elements : list jsstring) :
  nth_error (closures w) k = Some c ->
  nth_error (closures (step w (final_event k elements))) k
  = Some (set_currentPartial []
            (set_completeTranscript
               (trim (replace_ws (completeTranscript c ++ js " "
                                  ++ join (js " ") elements))) c)).
Proof.
  intro Hk. rewrite (step_closure w _ k c Hk).
  unfold final_event. cbn [closure_step]. rewrite Nat.eqb_refl.
  reflexivity.
Qed.

(** C3. From an empty transcript, the events partial "hi", partial
    "hi there", final "hi there", partial "next" leave the committed and
    the pending text of the closure at ("", "hi"), ("", "hi there"),
    ("hi there", "") and ("hi there", "next"), on every page: a partial
    event replaces the pending text and leaves the committed text alone; a
    final event appends its text to the committed text and clears the
    pending text.  The second, third and fourth event show and store
    "hi there", "hi there" and "hi there next", on every page.  The first
    event shows and stores "hi" on a page that has the transcription
    container; on a page without it [updateTranscriptionUI] creates the
    container, throws on the [null] it had looked up, and "hi" is neither
    shown nor stored. *)
Theorem transcript_progression (w : world) (k : nat) (c : Closure)
  (e1 e2 e3 e4 : list jsstring)
  (Hk : nth_error (closures w) k = Some c)
  (Hc : completeTranscript c = [])
  (Hp : currentPartial c = [])
  (H1 : join (js " ") e1 = js "hi")
  (H2 : join (js " ") e2 = js "hi there")
  (H3 : join (js " ") e3 = js "hi there")
  (H4 : join (js " ") e4 = js "next") :
  let w1 := step w (partial_event k e1) in
  let w2 := step w1 (partial_event k e2) in
  let w3 := step w2 (final_event k e3) in
  let w4 := step w3 (partial_event k e4) in
  (transcript_of k w1 = Some ([], js "hi")
   /\ match transcription_container w with
      | Some _ =>
          transcription_container w1 = Some (js "hi")
          /\ currentTranscription w1 = Some (js "hi")
      | None =>
          transcription_container w1 = Some []
          /\ currentTranscription w1 = currentTranscription w
          /\ snd (dispatch (partial_event k e1) w) = Throw TypeError
      end)
  /\ (transcription_container w2 = Some (js "hi there")
      /\ currentTranscription w2 = Some (js "hi there")
      /\ transcript_of k w2 = Some ([], js "hi there"))
  /\ (transcription_container w3 = Some (js "hi there")
      /\ currentTranscription w3 = Some (js "hi there")
      /\ transcript_of k w3 = Some (js "hi there", []))
  /\ (transcription_container w4 = Some (js "hi there next")
      /\ currentTranscription w4 = Some (js "hi there next")
      /\ transcript_of k w4 = Some (js "hi there", js "next"))
  /\ (forall (w0 : world) (c0 : Closure) (text : list jsstring),
        nth_error (closures w0) k = Some c0 ->
        transcript_of k (step w0 (partial_event k text))
        = Some (completeTranscript c0, trim (join (js " ") text))
        /\ transcript_of k (step w0 (final_event k text))
           = Some (trim (replace_ws (completeTranscript c0 ++ js " "
                                     ++ join (js " ") text)), [])).
Proof.
  intros w1 w2 w3 w4.
  pose proof (closure_after_partial w k c e1 Hk) as K1. fold w1 in K1.
  rewrite H1 in K1.
  assert (D1 : exists shown, transcription_container w1 = Some shown).
  { destruct (transcription_container w) as [old|] eqn:Hd.
    - destruct (after_partial w k c e1 old Hk Hd) as (_ & D & _).
      eexists. exact D.
    - unfold w1, step.
      rewrite (step_partial_no_container w k c e1 Hk Hd).
      eexists. reflexivity. }
  destruct D1 as (shown1 & D1).
  destruct (after_partial w1 k _ e2 _ K1 D1) as (K2 & D2 & S2).
  fold w2 in K2, D2, S2. rewrite H2 in *.
  cbn [completeTranscript set_currentPartial] in D2, S2. rewrite Hc in *.
  destruct (after_final w2 k _ e3 _ K2 D2) as (K3 & D3 & S3).
  fold w3 in K3, D3, S3. rewrite H3 in *.
  cbn [completeTranscript set_currentPartial] in K3, D3, S3.
  rewrite Hc in *.
  destruct (after_partial w3 k _ e4 _ K3 D3) as (K4 & D4 & S4).
  fold w4 in K4, D4, S4. rewrite H4 in *.
  cbn [completeTranscript set_currentPartial set_completeTranscript]
    in D4, S4.
  split; [split|].
  - unfold transcript_of. rewrite K1.
    cbn [completeTranscript currentPartial set_currentPartial].
    now rewrite Hc.
  - destruct (transcription_container w) as [old|] eqn:Hd.
    + destruct (after_partial w k c e1 old Hk Hd) as (_ & D & S).
      fold w1 in D, S. rewrite H1, Hc in D, S. split; [exact D | exact S].
    + unfold w1, step.
      rewrite (step_partial_no_container w k c e1 Hk Hd).
      repeat split.
  - unfold transcript_of. rewrite K2, K3, K4, D2, D3, D4, S2, S3, S4.
    cbn [completeTranscript currentPartial set_currentPartial
         set_completeTranscript]. rewrite Hc.
    repeat split; try reflexivity.
    + rewrite (closure_after_partial w0 k c0 text H). reflexivity.
    + rewrite (closure_after_final w0 k c0 text H). reflexivity.
Qed.

Lemma transcript_progression_witness :
  (transcription_container
     (step (ex_started None None) (partial_event 0 [js "hi"])) = Some []
   /\ currentTranscription
        (step (ex_started None None) (partial_event 0 [js "hi"])) = None
   /\ snd (dispatch (partial_event 0 [js "hi"]) (ex_started None None))
      = Throw TypeError)
  /\ transcription_container
       (step (step (ex_started None None) (partial_event 0 [js "hi"]))
             (partial_event 0 [js "hi"; js "there"]))
     = Some (js "hi there").
Proof.
  exact (let T :=
           transcript_progression (ex_started None None) 0
             {| cl_socket := 0; cl_context := Some 1;
                cl_sampleRate := 44100%float;
                isServerReady := false; completeTranscript := [];
                currentPartial := []; audioDataCache := [] |}
             [js "hi"] [js "hi"; js "there"] [js "hi"; js "there"]
             [js "next"]
             eq_refl eq_refl eq_refl eq_refl eq_refl eq_refl eq_refl in
         conj (proj2 (proj1 T)) (proj1 (proj1 (proj2 T)))).
Defined.
